(** * Resample: a shallow embedding of GafferImage/Resample.cpp

    The development follows src/GafferImage/Resample.cpp function by
    function.  C++ [int] values are integers of [Z] (signed overflow is
    undefined behaviour in C++ and is outside the model); C++ [float]
    values are elements of a type [F] carrying the operations of the
    class [FloatOps], of which two instances are given: IEEE 754
    binary32 as specified by the standard library's [SpecFloat]
    (round-to-nearest-even, the arithmetic the program runs on), and the
    rationals [Qc] (the exact arithmetic the rounding approximates).
    C++ exceptions are the [Throw] results of an error monad. *)

From Stdlib Require Import ZArith String Ascii Bool Lia Lqa QArith Qcanon Qround Sorted.
From Stdlib Require Import Floats.SpecFloat.
From stdpp Require Import base tactics option list list_numbers.

Local Open Scope Z_scope.

(** ** Scalars: the operations the program performs on [float] *)

Class FloatOps (F : Type) := {
  f0 : F;                          (* 0.0f *)
  f1 : F;                          (* 1.0f *)
  fhalf : F;                       (* 0.5f *)
  f2 : F;                          (* 2.0f *)
  fadd : F -> F -> F;
  fsub : F -> F -> F;
  fmul : F -> F -> F;
  fdiv : F -> F -> F;
  feqb : F -> F -> bool;           (* a == b *)
  fltb : F -> F -> bool;           (* a < b  *)
  ofInt : Z -> F;                  (* int -> float conversion *)
  truncInt : F -> Z;               (* float -> int conversion, toward zero *)
  floorInt : F -> Z;               (* (int)floor( a ) *)
  ceilInt : F -> Z;                (* (int)ceil( a ) *)
  (* ( o + 0.5 ) / ratio + offset, which C++ evaluates in double
     (0.5 is a double literal) before the assignment to a float
     variable rounds it. *)
  pixelCentre : Z -> F -> F -> F
}.

Declare Scope float_scope.
Delimit Scope float_scope with flt.
Infix "+" := fadd : float_scope.
Infix "-" := fsub : float_scope.
Infix "*" := fmul : float_scope.
Infix "/" := fdiv : float_scope.
Infix "==" := feqb (at level 70, no associativity) : float_scope.
Infix "<?" := fltb : float_scope.

(** std::max( a, b ) is [(a < b) ? b : a]. *)
Definition fmax `{FloatOps F} (a b : F) : F := if (a <? b)%flt then b else a.

(** OIIO::floorfrac( x, &xint ): stores (int)floor(x) in [xint] and
    returns [x - xint].  The pair is (fraction, integer part). *)
Definition floorfrac `{FloatOps F} (a : F) : F * Z :=
  let i := floorInt a in ((a - ofInt i)%flt, i).

(** *** IEEE 754 binary32, with binary64 for the double intermediate *)

Module Binary32.

Definition prec : Z := 24.
Definition emax : Z := 128.
Definition dprec : Z := 53.
Definition demax : Z := 1024.

Definition float := spec_float.

(** The integer [m * 2^e] as a binary32 value. *)
Definition make (m e : Z) : float := binary_normalize prec emax m e false.

Definition toDouble (a : float) : spec_float :=
  match a with
  | S754_finite s m e => binary_round dprec demax s m e
  | _ => a
  end.

Definition ofDouble (a : spec_float) : float :=
  match a with
  | S754_finite s m e => binary_round prec emax s m e
  | _ => a
  end.

Definition signed (s : bool) (m : positive) : Z := cond_Zopp s (Zpos m).

(** Value of a finite float scaled by a power of two, rounded down. *)
Definition floorZ (a : float) : Z :=
  match a with
  | S754_finite s m e =>
      if 0 <=? e then signed s m * 2 ^ e else Z.shiftr (signed s m) (- e)
  | _ => 0
  end.

Definition ceilZ (a : float) : Z := - floorZ (SFopp a).

Definition truncZ (a : float) : Z :=
  match a with
  | S754_finite true _ _ => ceilZ a
  | _ => floorZ a
  end.

Definition centre (o : Z) (ratio offset : float) : float :=
  let half := binary_normalize dprec demax 1 (-1) false in
  let oD := binary_normalize dprec demax o 0 false in
  ofDouble
    (SFadd dprec demax
       (SFdiv dprec demax (SFadd dprec demax oD half) (toDouble ratio))
       (toDouble offset)).

#[export] Instance ops : FloatOps float := {|
  f0 := S754_zero false;
  f1 := make 1 0;
  fhalf := make 1 (-1);
  f2 := make 2 0;
  fadd := SFadd prec emax;
  fsub := SFsub prec emax;
  fmul := SFmul prec emax;
  fdiv := SFdiv prec emax;
  feqb := SFeqb;
  fltb := SFltb;
  ofInt := fun z => make z 0;
  truncInt := truncZ;
  floorInt := floorZ;
  ceilInt := ceilZ;
  pixelCentre := centre
|}.

End Binary32.

(** *** Exact rational arithmetic *)

Module Exact.

Definition ofQ (q : Q) : Qc := Q2Qc q.

Definition truncQc (a : Qc) : Z := Z.quot (Qnum (this a)) (Zpos (Qden (this a))).

(** The exact sum of [g] over a list. *)
Fixpoint total {A : Type} (g : A -> Qc) (l : list A) : Qc :=
  match l with
  | [] => 0%Qc
  | a :: rest => (g a + total g rest)%Qc
  end.

#[export] Instance ops : FloatOps Qc := {|
  f0 := ofQ 0;
  f1 := ofQ 1;
  fhalf := ofQ (1 # 2);
  f2 := ofQ 2;
  fadd := Qcplus;
  fsub := Qcminus;
  fmul := Qcmult;
  fdiv := Qcdiv;
  feqb := fun a b => if Qc_eq_dec a b then true else false;
  fltb := fun a b => match (a ?= b)%Qc with Lt => true | _ => false end;
  ofInt := fun z => ofQ (inject_Z z);
  truncInt := truncQc;
  floorInt := fun a => Qfloor (this a);
  ceilInt := fun a => Qceiling (this a);
  pixelCentre := fun o ratio offset =>
    Qcplus (Qcdiv (Qcplus (ofQ (inject_Z o)) (ofQ (1 # 2))) ratio) offset
|}.

End Exact.

(** ** Imath vectors and boxes *)

Record V2 (A : Type) := mkV2 { vx : A; vy : A }.
Arguments mkV2 {A} _ _.
Arguments vx {A} _.
Arguments vy {A} _.

Record Box (A : Type) := mkBox { bmin : V2 A; bmax : V2 A }.
Arguments mkBox {A} _ _.
Arguments bmin {A} _.
Arguments bmax {A} _.

Abbreviation V2i := (V2 Z).
Abbreviation Box2i := (Box Z).

(** Box<V2<T>>::isEmpty() and Box<V2<T>>::size() of Imath: a box with
    max < min on some axis is empty, and the size of an empty box is the
    zero vector. *)
Definition Box2i_isEmpty (b : Box2i) : bool :=
  (vx (bmax b) <? vx (bmin b)) || (vy (bmax b) <? vy (bmin b)).

Definition Box2i_size (b : Box2i) : V2i :=
  if Box2i_isEmpty b then mkV2 0 0
  else mkV2 (vx (bmax b) - vx (bmin b)) (vy (bmax b) - vy (bmin b)).

(** ** Exceptions *)

Inductive Result (A : Type) :=
| Ok (a : A)
| Throw (what : string).
Arguments Ok {A} _.
Arguments Throw {A} _.

Definition bind {A B} (r : Result A) (k : A -> Result B) : Result B :=
  match r with
  | Ok a => k a
  | Throw e => Throw e
  end.

Notation "x <- r ;; k" := (bind r (fun x => k))
  (at level 100, r at next level, right associativity).

(** ** Loops *)

(** [forRange n i body s] runs [body i], [body (i+1)], ... [n] times. *)
Fixpoint forRange {S : Type} (n : nat) (i : Z) (body : Z -> S -> S) (s : S) : S :=
  match n with
  | O => s
  | S n' => forRange n' (i + 1) body (body i s)
  end.

(** for( i = lo; i < hi; ++i ) body *)
Definition forLt {S : Type} (lo hi : Z) (body : Z -> S -> S) (s : S) : S :=
  forRange (Z.to_nat (hi - lo)) lo body s.

(** for( i = lo; i <= hi; ++i ) body *)
Definition forLe {S : Type} (lo hi : Z) (body : Z -> S -> S) (s : S) : S :=
  forLt lo (hi + 1) body s.

(** ** Passes, plugs and enumerations *)

(** enum Passes: a bitmask saying which filter pass(es) are computed. *)
Definition Horizontal : Z := 1.
Definition Vertical : Z := 2.
Definition Both : Z := Z.lor Horizontal Vertical.

(** [passes & mask], used as a C++ condition. *)
Definition hasPass (passes mask : Z) : bool := negb (Z.land passes mask =? 0).

(** Modelled from the spec: the declaration of enum Resample::Debug
    (GafferImage/Resample.h) is not part of the sources; the spec lists
    the debug modes as Off | HorizontalPassOnly | ForceSinglePass, and
    the constructor gives the plug the range Off..SinglePass. *)
Definition Off : Z := 0.
Definition HorizontalPass : Z := 1.
Definition SinglePass : Z := 2.

(** The two output image plugs of a Resample node. *)
Inductive PlugId := OutPlug | HorizontalPassPlug.

Definition isOutPlug (image : PlugId) : bool :=
  match image with OutPlug => true | HorizontalPassPlug => false end.

Definition dquote : string := String (ascii_of_nat 34) EmptyString.

Section Resample.

Context {F : Type} `{FloatOps F}.

Abbreviation V2f := (V2 F).
Abbreviation Box2f := (Box F).

Local Open Scope float_scope.

Definition Box2f_isEmpty (b : Box2f) : bool :=
  (vx (bmax b) <? vx (bmin b)) || (vy (bmax b) <? vy (bmin b)).

Definition Box2f_size (b : Box2f) : V2f :=
  if Box2f_isEmpty b then mkV2 f0 f0
  else mkV2 (vx (bmax b) - vx (bmin b)) (vy (bmax b) - vy (bmin b)).

(** *** OpenImageIO filters *)

(** OIIO::Filter2D: the kernel object, with its 2D evaluation
    [operator()] and the 1D evaluations [xfilt] and [yfilt]. *)
Record Filter2D := {
  name : string;
  width : F;
  height : F;
  separable : bool;
  apply2D : F -> F -> F;           (* operator()( x, y ) *)
  xfilt : F -> F;
  yfilt : F -> F
}.

(** OIIO::FilterDesc: an entry of the table of registered filters. *)
Record FilterDesc := {
  fd_name : string;
  fd_width : F
}.

(** The table behind OIIO::Filter2D::num_filters / get_filterdesc and
    the factory OIIO::Filter2D::create belong to OpenImageIO. *)
Variable filterTable : list FilterDesc.
Variable Filter2D_create : string -> F -> F -> Filter2D.

(** ImagePlug::tileSize() *)
Variable tileSize : Z.

(** *** Utilities *)

Definition requiredPasses (debug : Z) (image : PlugId) (filter : Filter2D) : Z :=
  if debug =? HorizontalPass then Horizontal
  else if debug =? SinglePass then Z.lor Horizontal Vertical
  else if isOutPlug image then (if separable filter then Vertical else Both)
  else Horizontal.

(** Rounds min down, and max up, while converting from float to int. *)
Definition box2fToBox2i (b : Box2f) : Box2i :=
  mkBox (mkV2 (floorInt (vx (bmin b))) (floorInt (vy (bmin b))))
        (mkV2 (ceilInt (vx (bmax b))) (ceilInt (vy (bmax b)))).

(** Calculates the scale and offset needed to convert from output
    coordinates to input coordinates.  The V2i operands are converted
    by Imath's converting constructor: [V2f + V2i] converts the V2i to
    V2f, and [V2i - V2f] (a member operator of V2i) converts the V2f
    quotient to V2i, truncating it, before the V2i result is assigned
    to the V2f [offset]. *)
Definition ratioAndOffset (dstDataWindow : Box2f) (srcDataWindow : Box2i) : V2f * V2f :=
  let dstSize : V2f :=
    mkV2 (vx (Box2f_size dstDataWindow) + ofInt 1) (vy (Box2f_size dstDataWindow) + ofInt 1) in
  let srcSize : V2f :=
    mkV2 (ofInt (vx (Box2i_size srcDataWindow) + 1)) (ofInt (vy (Box2i_size srcDataWindow) + 1)) in
  let ratio : V2f := mkV2 (vx dstSize / vx srcSize) (vy dstSize / vy srcSize) in
  let offset : V2f :=
    mkV2 (ofInt (vx (bmin srcDataWindow) - truncInt (vx (bmin dstDataWindow) / vx ratio)))
         (ofInt (vy (bmin srcDataWindow) - truncInt (vy (bmin dstDataWindow) / vy ratio))) in
  (ratio, offset).

(** Returns the input region that will need to be sampled when
    generating a given output tile. *)
Definition inputRegion (tileOrigin : V2i) (passes : Z) (ratio offset : V2f)
    (filter : Filter2D) : Box2i :=
  let outputRegion : Box2f :=
    mkBox (mkV2 (ofInt (vx tileOrigin)) (ofInt (vy tileOrigin)))
          (mkV2 (ofInt (vx tileOrigin + tileSize)) (ofInt (vy tileOrigin + tileSize))) in
  let filterRadius : V2f := mkV2 (width filter / f2) (height filter / f2) in
  let result := outputRegion in
  let result :=
    if hasPass passes Horizontal then
      mkBox (mkV2 (vx (bmin result) / vx ratio + vx offset - vx filterRadius) (vy (bmin result)))
            (mkV2 (vx (bmax result) / vx ratio + vx offset + vx filterRadius) (vy (bmax result)))
    else result in
  let result :=
    if hasPass passes Vertical then
      mkBox (mkV2 (vx (bmin result)) (vy (bmin result) / vy ratio + vy offset - vy filterRadius))
            (mkV2 (vx (bmax result)) (vy (bmax result) / vy ratio + vy offset + vy filterRadius))
    else result in
  box2fToBox2i result.

(** The default kernel chosen for an empty filter name. *)
Definition defaultFilterName (ratio : V2f) : string :=
  if (f1 <? vx ratio) || (f1 <? vy ratio) then "blackman-harris"%string
  else "lanczos3"%string.

(** The loop over the table of registered filters: the first entry
    whose name is [filterName] decides the widths. *)
Fixpoint createFromTable (table : list FilterDesc) (filterName : string)
    (filterWidth ratio : V2f) : Result Filter2D :=
  match table with
  | [] => Throw ("Unknown filter " ++ dquote ++ filterName ++ dquote)%string
  | fd :: rest =>
      if String.eqb (fd_name fd) filterName then
        Ok (Filter2D_create filterName
              (if f0 <? vx filterWidth then vx filterWidth
               else fd_width fd * fmax f1 (vx ratio))
              (if f0 <? vy filterWidth then vy filterWidth
               else fd_width fd * fmax f1 (vy ratio)))
      else createFromTable rest filterName filterWidth ratio
  end.

Definition createFilter (name : string) (filterWidth ratio : V2f) : Result Filter2D :=
  let filterName := if String.eqb name EmptyString then defaultFilterName ratio else name in
  createFromTable filterTable filterName filterWidth ratio.

(** *** Image plugs *)

(** What a reader sees of an image plug: the data window and, per
    channel and tile origin, the tile's pixel buffer. *)
Record ImagePlug := {
  dataWindow : Box2i;
  channelData : string -> V2i -> list F
}.

(** The plugs of a Resample node that the computation reads. *)
Record ResampleNode := {
  inPlug : ImagePlug;
  dataWindowPlug : Box2f;
  filterPlug : string;
  filterWidthPlug : V2f;
  boundingModePlug : Z;
  debugPlug : Z
}.

Record Context := {
  tileOriginContext : V2i;
  channelNameContext : string
}.

(** *** The sampler *)

(** Modelled from the spec: the bounding modes of GafferImage/Sampler.h,
    which is not part of the sources.  The spec names two out-of-window
    policies, zero and clamping, and the constructor gives the
    boundingMode plug the range Sampler::Black .. Sampler::Clamp. *)
Definition Black : Z := 0.
Definition Clamp : Z := 1.

(** Modelled from the spec: the sampler of GafferImage/Sampler.h, which
    the spec describes as constructed from a plug, a channel name, a
    sample region and a bounding mode. *)
Record Sampler := {
  samplerPlug : ImagePlug;
  samplerChannelName : string;
  sampleWindow : Box2i;
  boundingMode : Z
}.

(** The origin of the tile that holds a coordinate. *)
Definition tileOriginOf (p : Z) : Z := (p / tileSize * tileSize)%Z.

(** The pixel of a plug at a position: the entry of its tile, stored
    row by row as computeChannelData stores it. *)
Definition pixel (plug : ImagePlug) (channelName : string) (px py : Z) : F :=
  let origin := mkV2 (tileOriginOf px) (tileOriginOf py) in
  nth (Z.to_nat ((py - vy origin) * tileSize + (px - vx origin)))
      (channelData plug channelName origin) f0.

(** Membership in a data window, whose min and max are inclusive. *)
Definition contains (b : Box2i) (px py : Z) : bool :=
  (vx (bmin b) <=? px)%Z && (px <=? vx (bmax b))%Z &&
  (vy (bmin b) <=? py)%Z && (py <=? vy (bmax b))%Z.

Definition clampTo (lo hi p : Z) : Z := Z.max lo (Z.min hi p).

(** Modelled from the spec: Sampler::sample of GafferImage/Sampler.h.
    The spec gives random-access reads over the raster restricted to
    its data window: a read inside the window yields the pixel, a read
    outside it yields zero, the neutral value (mode Black), or the
    nearest pixel of the window (mode Clamp). *)
Definition Sampler_sample (s : Sampler) (px py : Z) : F :=
  let w := dataWindow (samplerPlug s) in
  if contains w px py then pixel (samplerPlug s) (samplerChannelName s) px py
  else if (boundingMode s =? Clamp)%Z then
    pixel (samplerPlug s) (samplerChannelName s)
          (clampTo (vx (bmin w)) (vx (bmax w)) px)
          (clampTo (vy (bmin w)) (vy (bmax w)) py)
  else f0.

(** *** computeChannelData: the three evaluation loops *)

(** The accumulators [v] and [totalW] of one destination pixel, with
    the list of coordinates passed to the sampler so far (ghost). *)
Record Accum := {
  v : F;
  totalW : F;
  taps : list (Z * Z)
}.

Definition accum0 : Accum := {| v := f0; totalW := f0; taps := [] |}.

(** The body shared by the three inner loops once the weight [w] of
    the tap at source pixel ([sx], [sy]) is known. *)
Definition accumulate (sample : Z -> Z -> F) (w : F) (sx sy : Z) (a : Accum) : Accum :=
  if w == f0 then a                                      (* continue *)
  else {| v := v a + w * sample sx sy;
          totalW := totalW a + w;
          taps := taps a ++ [(sx, sy)] |}.

(** The result buffer with the output iterator [pIt] (an index), and
    as ghost state the indices written through the iterator and the
    coordinates passed to the sampler. *)
Record TileState := {
  data : list F;
  pIt : nat;
  written : list nat;
  sampled : list (Z * Z)
}.

(** if( totalW > 0.0f ) { *pIt = v / totalW; }  ++pIt; *)
Definition storePixel (a : Accum) (st : TileState) : TileState :=
  let st' :=
    if f0 <? totalW a then
      {| data := <[pIt st := v a / totalW a]> (data st);
         pIt := pIt st;
         written := written st ++ [pIt st];
         sampled := sampled st |}
    else st in
  {| data := data st';
     pIt := S (pIt st');
     written := written st';
     sampled := sampled st' ++ taps a |}.

Section Loops.

Variable filter : Filter2D.
Variables ratio offset : V2f.
Variable sample : Z -> Z -> F.
Variable filterRadius : V2i.
Variable tileBound : Box2i.

Definition accumBoth (iPI : V2i) (iPF : V2f) : Accum :=
  forLe (- vy filterRadius) (vy filterRadius) (fun fPy a =>
    forLe (- vx filterRadius) (vx filterRadius) (fun fPx a =>
      let w := apply2D filter
                 (vx ratio * (ofInt fPx - (vx iPF - fhalf)))
                 (vy ratio * (ofInt fPy - (vy iPF - fhalf))) in
      accumulate sample w (vx iPI + fPx)%Z (vy iPI + fPy)%Z a) a) accum0.

Definition loopBoth (st : TileState) : TileState :=
  forLt (vy (bmin tileBound)) (vy (bmax tileBound)) (fun oPy st =>
    let iPy := pixelCentre oPy (vy ratio) (vy offset) in
    let '(iPFy, iPIy) := floorfrac iPy in
    forLt (vx (bmin tileBound)) (vx (bmax tileBound)) (fun oPx st =>
      let iPx := pixelCentre oPx (vx ratio) (vx offset) in
      let '(iPFx, iPIx) := floorfrac iPx in
      storePixel (accumBoth (mkV2 iPIx iPIy) (mkV2 iPFx iPFy)) st) st) st.

Definition accumHorizontal (iXI : Z) (iXF : F) (oPy : Z) : Accum :=
  forLe (- vx filterRadius) (vx filterRadius) (fun fX a =>
    let w := xfilt filter (vx ratio * (ofInt fX - (iXF - fhalf))) in
    accumulate sample w (iXI + fX)%Z oPy a) accum0.

Definition loopHorizontal (st : TileState) : TileState :=
  forLt (vy (bmin tileBound)) (vy (bmax tileBound)) (fun oPy st =>
    forLt (vx (bmin tileBound)) (vx (bmax tileBound)) (fun oPx st =>
      let iX := pixelCentre oPx (vx ratio) (vx offset) in
      let '(iXF, iXI) := floorfrac iX in
      storePixel (accumHorizontal iXI iXF oPy) st) st) st.

Definition accumVertical (iYI : Z) (iYF : F) (oPx : Z) : Accum :=
  forLe (- vy filterRadius) (vy filterRadius) (fun fY a =>
    let w := yfilt filter (vy ratio * (ofInt fY - (iYF - fhalf))) in
    accumulate sample w oPx (iYI + fY)%Z a) accum0.

Definition loopVertical (st : TileState) : TileState :=
  forLt (vy (bmin tileBound)) (vy (bmax tileBound)) (fun oPy st =>
    let iY := pixelCentre oPy (vy ratio) (vy offset) in
    let '(iYF, iYI) := floorfrac iY in
    forLt (vx (bmin tileBound)) (vx (bmax tileBound)) (fun oPx st =>
      storePixel (accumVertical iYI iYF oPx) st) st) st.

End Loops.

(** The part of computeChannelData that follows the construction of
    the sampler: the filter radius, the tile bound, the zero-filled
    result buffer and the dispatch on [passes]. *)
Definition computeTile (filter : Filter2D) (passes : Z) (ratio offset : V2f)
    (sample : Z -> Z -> F) (tileOrigin : V2i) : TileState :=
  let filterRadius : V2i :=
    mkV2 (ceilInt (width filter / (f2 * vx ratio)))
         (ceilInt (height filter / (f2 * vy ratio))) in
  let tileBound : Box2i :=
    mkBox tileOrigin (mkV2 (vx tileOrigin + tileSize)%Z (vy tileOrigin + tileSize)%Z) in
  let resultData :=
    {| data := replicate (Z.to_nat (tileSize * tileSize)) f0;
       pIt := 0%nat; written := []; sampled := [] |} in
  if (passes =? Both)%Z then
    loopBoth filter ratio offset sample filterRadius tileBound resultData
  else if (passes =? Horizontal)%Z then
    loopHorizontal filter ratio offset sample filterRadius tileBound resultData
  else if (passes =? Vertical)%Z then
    loopVertical filter ratio offset sample filterRadius tileBound resultData
  else resultData.

Definition computeDataWindow (node : ResampleNode) (parent : PlugId) : Box2i :=
  let dw := box2fToBox2i (dataWindowPlug node) in
  if negb (isOutPlug parent) || (debugPlug node =? HorizontalPass)%Z then
    let inDataWindow := dataWindow (inPlug node) in
    mkBox (mkV2 (vx (bmin dw)) (vy (bmin inDataWindow)))
          (mkV2 (vx (bmax dw)) (vy (bmax inDataWindow)))
  else dw.

(** computeChannelData, with the image read through
    horizontalPassPlug() passed as [horizontalPass]; the final state
    of the loops is returned, of which [data] is the C++ result. *)
Definition runChannelData (horizontalPass : ImagePlug) (node : ResampleNode)
    (channelName : string) (tileOrigin : V2i) (parent : PlugId) : Result TileState :=
  let '(ratio, offset) := ratioAndOffset (dataWindowPlug node) (dataWindow (inPlug node)) in
  filter <- createFilter (filterPlug node) (filterWidthPlug node) ratio ;;
  let passes := requiredPasses (debugPlug node) parent filter in
  let sampler :=
    {| samplerPlug := if (passes =? Vertical)%Z then horizontalPass else inPlug node;
       samplerChannelName := channelName;
       sampleWindow := inputRegion tileOrigin passes ratio offset filter;
       boundingMode := boundingModePlug node |} in
  Ok (computeTile filter passes ratio offset (Sampler_sample sampler) tileOrigin).

(** The image on horizontalPassPlug(): its data window and channel
    data are what the node computes for that plug.  requiredPasses
    never answers Vertical for it, so the plug it is given to read
    the horizontal pass from is not used. *)
Definition horizontalPassPlug (node : ResampleNode) : ImagePlug :=
  {| dataWindow := computeDataWindow node HorizontalPassPlug;
     channelData := fun channelName tileOrigin =>
       match runChannelData (inPlug node) node channelName tileOrigin HorizontalPassPlug with
       | Ok st => data st
       | Throw _ => []
       end |}.

Definition computeChannelData (node : ResampleNode) (channelName : string)
    (tileOrigin : V2i) (parent : PlugId) : Result (list F) :=
  st <- runChannelData (horizontalPassPlug node) node channelName tileOrigin parent ;;
  Ok (data st).

(** *** hashChannelData *)

(** A MurmurHash is modelled by the sequence of values appended to
    it, of which the digest is a function. *)
Inductive HashItem :=
| HString (s : string)
| HFloat (a : F)
| HInt (i : Z)
| HV2i (p : V2i)
| HBox2i (b : Box2i).

Definition MurmurHash := list HashItem.

Definition append (h : MurmurHash) (i : HashItem) : MurmurHash := h ++ [i].

(** ImageProcessor::hashChannelData and Sampler::hash are not part of
    the sources: the first is taken as a function on hashes, the
    second as the sequence of values the sampler appends. *)
Variable ImageProcessor_hashChannelData : PlugId -> Context -> MurmurHash -> MurmurHash.
Variable Sampler_hash : Sampler -> list HashItem.

Definition hashChannelData (node : ResampleNode) (parent : PlugId) (context : Context)
    (h : MurmurHash) : Result MurmurHash :=
  let h := ImageProcessor_hashChannelData parent context h in
  let srcDataWindow := dataWindow (inPlug node) in
  let dstDataWindow := dataWindowPlug node in
  let '(ratio, offset) := ratioAndOffset dstDataWindow srcDataWindow in
  filter <- createFilter (filterPlug node) (filterWidthPlug node) ratio ;;
  let h := append h (HString (name filter)) in
  let passes := requiredPasses (debugPlug node) parent filter in
  let h :=
    if hasPass passes Horizontal then
      append (append (append h (HFloat (width filter))) (HFloat (vx ratio))) (HFloat (vx offset))
    else h in
  let h :=
    if hasPass passes Vertical then
      append (append (append h (HFloat (height filter))) (HFloat (vy ratio))) (HFloat (vy offset))
    else h in
  let tileOrigin := tileOriginContext context in
  let sampler :=
    {| samplerPlug := if (passes =? Vertical)%Z then horizontalPassPlug node else inPlug node;
       samplerChannelName := channelNameContext context;
       sampleWindow := inputRegion tileOrigin passes ratio offset filter;
       boundingMode := boundingModePlug node |} in
  let h := h ++ Sampler_hash sampler in
  Ok (append h (HV2i tileOrigin)).

End Resample.

Arguments Filter2D F : clear implicits.
Arguments FilterDesc F : clear implicits.
Arguments ImagePlug F : clear implicits.
Arguments ResampleNode F : clear implicits.
Arguments Sampler F : clear implicits.
Arguments Accum F : clear implicits.
Arguments TileState F : clear implicits.
Arguments HashItem F : clear implicits.
Arguments MurmurHash F : clear implicits.

(** ** The kernel taps of a destination pixel

    The definitions of this section follow the wording of the
    specification rather than the loops: the taps of a destination
    pixel are listed with their weights, those of weight zero are
    dropped, and the pixel is the weighted sum of the samples over the
    sum of the weights.  Sums are taken in the order of the list, which
    is the order in which the loops visit the taps. *)

Section KernelTaps.

Context {F : Type} `{FloatOps F}.
Local Open Scope float_scope.

(** A tap: its weight and the source pixel it reads. *)
Definition Tap : Type := F * (Z * Z).

Definition filterRadiusOf (filter : Filter2D F) (ratio : V2 F) : V2i :=
  mkV2 (ceilInt (width filter / (f2 * vx ratio)))
       (ceilInt (height filter / (f2 * vy ratio))).

(** The offsets -radius .. +radius of the discrete support. *)
Definition support (radius : Z) : list Z := seqZ (- radius) (2 * radius + 1).

(** The kernel coordinate of the tap at offset [f] from a source
    position of fractional part [frac]. *)
Definition kernelCoord (ratio : F) (f : Z) (frac : F) : F :=
  ratio * (ofInt f - (frac - fhalf)).

Definition tapsHorizontal (filter : Filter2D F) (ratio offset : V2 F) (ox oy : Z) : list Tap :=
  let '(iXF, iXI) := floorfrac (pixelCentre ox (vx ratio) (vx offset)) in
  map (fun fX => (xfilt filter (kernelCoord (vx ratio) fX iXF), ((iXI + fX)%Z, oy)))
      (support (vx (filterRadiusOf filter ratio))).

Definition tapsVertical (filter : Filter2D F) (ratio offset : V2 F) (ox oy : Z) : list Tap :=
  let '(iYF, iYI) := floorfrac (pixelCentre oy (vy ratio) (vy offset)) in
  map (fun fY => (yfilt filter (kernelCoord (vy ratio) fY iYF), (ox, (iYI + fY)%Z)))
      (support (vy (filterRadiusOf filter ratio))).

Definition tapsBoth (filter : Filter2D F) (ratio offset : V2 F) (ox oy : Z) : list Tap :=
  let '(iXF, iXI) := floorfrac (pixelCentre ox (vx ratio) (vx offset)) in
  let '(iYF, iYI) := floorfrac (pixelCentre oy (vy ratio) (vy offset)) in
  flat_map (fun fY =>
    map (fun fX =>
           (apply2D filter (kernelCoord (vx ratio) fX iXF) (kernelCoord (vy ratio) fY iYF),
            ((iXI + fX)%Z, (iYI + fY)%Z)))
        (support (vx (filterRadiusOf filter ratio))))
    (support (vy (filterRadiusOf filter ratio))).

(** The taps the strategy selected by [passes] gives a pixel. *)
Definition tapsOf (passes : Z) (filter : Filter2D F) (ratio offset : V2 F) (ox oy : Z) : list Tap :=
  if (passes =? Both)%Z then tapsBoth filter ratio offset ox oy
  else if (passes =? Horizontal)%Z then tapsHorizontal filter ratio offset ox oy
  else if (passes =? Vertical)%Z then tapsVertical filter ratio offset ox oy
  else [].

(** The values of [passes] that select an evaluation loop. *)
Definition validPasses (passes : Z) : Prop :=
  passes = Both \/ passes = Horizontal \/ passes = Vertical.

Definition nonZero (l : list Tap) : list Tap :=
  List.filter (fun t => negb (fst t == f0)) l.

Definition weightSum (l : list Tap) : F :=
  fold_left (fun s t => s + fst t) l f0.

Definition weightedSum (sample : Z -> Z -> F) (l : list Tap) : F :=
  fold_left (fun s t => s + fst t * sample (fst (snd t)) (snd (snd t))) l f0.

(** Σ w·sample / Σ w over the taps of non-zero weight when Σ w > 0,
    and zero otherwise. *)
Definition weightedAverage (sample : Z -> Z -> F) (l : list Tap) : F :=
  if f0 <? weightSum (nonZero l)
  then weightedSum sample (nonZero l) / weightSum (nonZero l)
  else f0.

(** Position of the destination pixel ([ox], [oy]) in the buffer of
    the tile at [tileOrigin], in row-major order. *)
Definition bufferIndex (tileSize : Z) (tileOrigin : V2i) (ox oy : Z) : nat :=
  Z.to_nat ((oy - vy tileOrigin) * tileSize + (ox - vx tileOrigin)).

(** The destination pixel stored at a buffer index. *)
Definition pixelAt (tileSize : Z) (tileOrigin : V2i) (k : nat) : Z * Z :=
  ((vx tileOrigin + Z.of_nat k mod tileSize)%Z, (vy tileOrigin + Z.of_nat k / tileSize)%Z).

Definition inTile (tileSize : Z) (tileOrigin : V2i) (ox oy : Z) : Prop :=
  (vx tileOrigin <= ox < vx tileOrigin + tileSize)%Z /\
  (vy tileOrigin <= oy < vy tileOrigin + tileSize)%Z.

(** A separable kernel: its 2D weight is the product of its 1D
    weights. *)
Definition Separable (filter : Filter2D F) : Prop :=
  separable filter = true /\
  forall a b, apply2D filter a b = xfilt filter a * yfilt filter b.

(** The destination pixels of a tile in the order of the loops: rows
    from the tile origin upward, each row from left to right. *)
Definition tilePixels (tileSize : Z) (tileOrigin : V2i) : list (Z * Z) :=
  flat_map (fun oy => map (fun ox => (ox, oy)) (seqZ (vx tileOrigin) tileSize))
           (seqZ (vy tileOrigin) tileSize).

(** The accumulators after a list of taps. *)
Definition accumTaps (sample : Z -> Z -> F) (l : list Tap) (a : Accum F) : Accum F :=
  fold_left (fun a t => accumulate sample (fst t) (fst (snd t)) (snd (snd t)) a) l a.

(** The buffer after the pixels whose accumulators are [accs] have
    been stored through the iterator, in order. *)
Definition storeAll (accs : list (Accum F)) (st : TileState F) : TileState F :=
  fold_left (fun st a => storePixel a st) accs st.

(** The indices written when the iterator starts at [base]: one for
    each pixel whose weight sum is strictly positive. *)
Fixpoint writtenFrom (base : nat) (accs : list (Accum F)) : list nat :=
  match accs with
  | [] => []
  | a :: rest =>
      (if f0 <? totalW a then [base] else []) ++ writtenFrom (S base) rest
  end.

(** The zero-filled buffer computeChannelData starts from. *)
Definition emptyTile (tileSize : Z) : TileState F :=
  {| data := replicate (Z.to_nat (tileSize * tileSize)) f0;
     pIt := 0%nat; written := []; sampled := [] |}.

End KernelTaps.

(** ** The sequence of values a tile request appends to its hash *)

Section HashSequence.

Context {F : Type} `{FloatOps F}.

(** What is appended for an axis whose pass is active: the support
    size of the kernel, the ratio and the offset on that axis. *)
Definition axisItems (size ratio offset : F) : list (HashItem F) :=
  [HFloat size; HFloat ratio; HFloat offset].

Definition hashSequence (filter : Filter2D F) (passes : Z) (ratio offset : V2 F)
    (samplerItems : list (HashItem F)) (tileOrigin : V2i) : list (HashItem F) :=
  [HString (name filter)]
  ++ (if hasPass passes Horizontal
      then axisItems (width filter) (vx ratio) (vx offset) else [])
  ++ (if hasPass passes Vertical
      then axisItems (height filter) (vy ratio) (vy offset) else [])
  ++ samplerItems
  ++ [HV2i tileOrigin].

(** The sampler that hashChannelData and computeChannelData construct. *)
Definition samplerFor (node : ResampleNode F) (horizontalPass : ImagePlug F)
    (passes : Z) (channelName : string) (region : Box2i) : Sampler F :=
  {| samplerPlug := if (passes =? Vertical)%Z then horizontalPass else inPlug node;
     samplerChannelName := channelName;
     sampleWindow := region;
     boundingMode := boundingModePlug node |}.

(** What a sampler over [plug] reads at a position: the pixel when
    the position is inside the data window, and otherwise the nearest
    pixel of the window in mode Clamp and zero in mode Black. *)
Definition readPlug (tileSize : Z) (plug : ImagePlug F) (channelName : string)
    (mode : Z) (px py : Z) : F :=
  let w := dataWindow plug in
  if contains w px py then pixel tileSize plug channelName px py
  else if (mode =? Clamp)%Z then
    pixel tileSize plug channelName
          (clampTo (vx (bmin w)) (vx (bmax w)) px)
          (clampTo (vy (bmin w)) (vy (bmax w)) py)
  else f0.

(** The node with another debug mode. *)
Definition withDebug (debug : Z) (node : ResampleNode F) : ResampleNode F :=
  {| inPlug := inPlug node;
     dataWindowPlug := dataWindowPlug node;
     filterPlug := filterPlug node;
     filterWidthPlug := filterWidthPlug node;
     boundingModePlug := boundingModePlug node;
     debugPlug := debug |}.

End HashSequence.

(** ** Kernels and rasters used in the examples *)

Section Examples.

Context {F : Type} `{FloatOps F}.
Local Open Scope float_scope.

(** fabsf( a ) <= halfWidth *)
Definition withinBox (halfWidth a : F) : bool :=
  negb ((halfWidth <? a) || (halfWidth <? f0 - a)).

Definition boxWeight (halfWidth a : F) : F :=
  if withinBox halfWidth a then f1 else f0.

(** OpenImageIO's FilterBox2D, under a given name. *)
Definition FilterBox2D (name : string) (w h : F) : Filter2D F :=
  {| name := name;
     width := w;
     height := h;
     separable := true;
     apply2D := fun a b =>
       if withinBox (w * fhalf) a && withinBox (h * fhalf) b then f1 else f0;
     xfilt := boxWeight (w * fhalf);
     yfilt := boxWeight (h * fhalf) |}.

(** A registry with the names and recommended widths of some of
    OpenImageIO's filters, whose factory gives every kernel the shape
    of the box kernel. *)
Definition boxTable : list (FilterDesc F) :=
  [ {| fd_name := "box"; fd_width := ofInt 1 |};
    {| fd_name := "triangle"; fd_width := ofInt 2 |};
    {| fd_name := "blackman-harris"; fd_width := ofInt 3 |};
    {| fd_name := "lanczos3"; fd_width := ofInt 6 |} ].

(** A one-channel image whose pixels are given by a function, cut
    into tiles of size [tileSize]. *)
Definition rasterPlug (tileSize : Z) (window : Box2i) (value : Z -> Z -> F) : ImagePlug F :=
  {| dataWindow := window;
     channelData := fun _ origin =>
       map (fun k => value (vx origin + Z.of_nat k mod tileSize)%Z
                           (vy origin + Z.of_nat k / tileSize)%Z)
           (seq 0 (Z.to_nat (tileSize * tileSize))) |}.

End Examples.

(** *** Nodes in binary32 arithmetic *)

Module Float32.

Import Binary32.

(** The float [m × 2^e]. *)
Definition fl (m e : Z) : float := make m e.

(** The tile size of the examples. *)
Definition tile : Z := 64.

Definition window (x0 y0 x1 y1 : Z) : Box2i := mkBox (mkV2 x0 y0) (mkV2 x1 y1).

Definition windowF (x0 y0 x1 y1 : Z) : Box float :=
  mkBox (mkV2 (fl x0 0) (fl y0 0)) (mkV2 (fl x1 0) (fl y1 0)).

Definition exampleNode (input : ImagePlug float) (dst : Box float) (filterName : string)
    (filterWidth : V2 float) (mode debug : Z) : ResampleNode float :=
  {| inPlug := input;
     dataWindowPlug := dst;
     filterPlug := filterName;
     filterWidthPlug := filterWidth;
     boundingModePlug := mode;
     debugPlug := debug |}.

Definition request (x y : Z) (channelName : string) : Context :=
  {| tileOriginContext := mkV2 x y; channelNameContext := channelName |}.

(** A 256 × 256 image of ones, resampled to 64 × 64 (ratio 1/4) with
    a box kernel of requested width 4. *)
Definition ones : ImagePlug float :=
  rasterPlug tile (window 0 0 255 255) (fun _ _ => fl 1 0).

Definition quarterNode : ResampleNode float :=
  exampleNode ones (windowF 0 0 63 63) "box" (mkV2 (fl 4 0) (fl 4 0)) Black Off.

(** A 32 × 32 image of ones, resampled to 64 × 64 (ratio 2) with a
    box kernel of requested width 1/2. *)
Definition doubleNode : ResampleNode float :=
  exampleNode (rasterPlug tile (window 0 0 31 31) (fun _ _ => fl 1 0))
    (windowF 0 0 63 63) "box" (mkV2 (fl 1 (-1)) (fl 1 (-1))) Black Off.

(** A 2 × 2 image: 2^25 and 1 on the first row, -2^25 and 1 on the
    second. *)
Definition blockValue (x y : Z) : float :=
  if (x =? 0)%Z then (if (y =? 0)%Z then fl 1 25 else fl (-1) 25) else fl 1 0.

Definition block : ImagePlug float := rasterPlug tile (window 0 0 1 1) blockValue.

(** The block averaged into one pixel (ratio 1/2) by the box kernel
    of recommended width. *)
Definition halveNode (debug : Z) : ResampleNode float :=
  exampleNode block (windowF 0 0 0 0) "box" (mkV2 (fl 0 0) (fl 0 0)) Black debug.

(** The block resampled to a window 2 pixels wide and [rows] pixels
    high. *)
Definition stretchNode (rows : Z) (filterName : string) (filterWidth : V2 float)
    (debug : Z) : ResampleNode float :=
  exampleNode block (windowF 0 0 1 (rows - 1)) filterName filterWidth Black debug.

(** Source and destination windows of size zero (max = min - 1). *)
Definition emptyNode : ResampleNode float :=
  exampleNode (rasterPlug tile (window 0 0 (-1) (-1)) (fun _ _ => fl 0 0))
    (windowF 0 0 (-1) (-1)) "box" (mkV2 (fl 0 0) (fl 0 0)) Black Off.

(** The box kernel of recommended width. *)
Definition boxKernel : Filter2D float := FilterBox2D "box" (fl 1 0) (fl 1 0).

(** A sample function, a ratio and an offset. *)
Definition ramp (x y : Z) : float := fl (x + 2 * y) 0.
Definition unit : V2 float := mkV2 (fl 1 0) (fl 1 0).
Definition zero : V2 float := mkV2 (fl 0 0) (fl 0 0).

(** An operation identity and a sampler hash. *)
Definition baseHash (parent : PlugId) (context : Context) (h : MurmurHash float) :
    MurmurHash float :=
  append h (HString "Resample").

Definition windowHash (s : Sampler float) : list (HashItem float) :=
  [HBox2i (sampleWindow s); HInt (boundingMode s)].

End Float32.

(** *** A node in exact arithmetic *)

Module Rational.

Import Exact.

Definition q (n : Z) : Qc := Q2Qc (inject_Z n).

Definition blockValue (x y : Z) : Qc :=
  if (x =? 0)%Z then (if (y =? 0)%Z then q (2 ^ 25) else q (- 2 ^ 25)) else q 1.

Definition block : ImagePlug Qc :=
  rasterPlug Float32.tile (Float32.window 0 0 1 1) blockValue.

Definition halveNode : ResampleNode Qc :=
  {| inPlug := block;
     dataWindowPlug := mkBox (mkV2 (q 0) (q 0)) (mkV2 (q 0) (q 0));
     filterPlug := "box";
     filterWidthPlug := mkV2 (q 0) (q 0);
     boundingModePlug := Black;
     debugPlug := Off |}.

(** A 2 × 2 image of ones resampled to 4 × 4 (ratio 2) with a box
    kernel of requested width 8. *)
Definition spreadNode (debug : Z) : ResampleNode Qc :=
  {| inPlug := rasterPlug Float32.tile (Float32.window 0 0 1 1) (fun _ _ => q 1);
     dataWindowPlug := mkBox (mkV2 (q 0) (q 0)) (mkV2 (q 3) (q 3));
     filterPlug := "box";
     filterWidthPlug := mkV2 (q 8) (q 8);
     boundingModePlug := Black;
     debugPlug := debug |}.

(** The kernel createFilter gives this node. *)
Definition halveKernel : Filter2D Qc :=
  FilterBox2D "box"
    (fmul (q 1) (fmax f1 (vx (fst (ratioAndOffset (dataWindowPlug halveNode)
                                     (dataWindow (inPlug halveNode)))))))
    (fmul (q 1) (fmax f1 (vy (fst (ratioAndOffset (dataWindowPlug halveNode)
                                     (dataWindow (inPlug halveNode))))))).

End Rational.

(** ** Plugs and dirty propagation *)

(** The children of an image plug. *)
Inductive ImageChild :=
| FormatPlug
| DataWindowPlug
| MetadataPlug
| ChannelNamesPlug
| ChannelDataPlug.

(** The plugs of a Resample node that affects can be asked about: the
    children of inPlug(), the children of outPlug() and of
    horizontalPassPlug(), the plugs the constructor adds, with the two
    components of filterWidthPlug(), and any other plug. *)
Inductive Plug :=
| InPlugChild (child : ImageChild)
| OutPlugChild (image : PlugId) (child : ImageChild)
| DataWindowIn
| FilterIn
| FilterWidthIn
| FilterWidthChild (y : bool)
| BoundingModeIn
| DebugIn
| OtherPlug (n : nat).

Definition ImageChild_eqb (a b : ImageChild) : bool :=
  match a, b with
  | FormatPlug, FormatPlug => true
  | DataWindowPlug, DataWindowPlug => true
  | MetadataPlug, MetadataPlug => true
  | ChannelNamesPlug, ChannelNamesPlug => true
  | ChannelDataPlug, ChannelDataPlug => true
  | _, _ => false
  end.

Definition PlugId_eqb (a b : PlugId) : bool :=
  match a, b with
  | OutPlug, OutPlug => true
  | HorizontalPassPlug, HorizontalPassPlug => true
  | _, _ => false
  end.

(** a == b on plug pointers. *)
Definition Plug_eqb (a b : Plug) : bool :=
  match a, b with
  | InPlugChild c, InPlugChild c' => ImageChild_eqb c c'
  | OutPlugChild i c, OutPlugChild i' c' => PlugId_eqb i i' && ImageChild_eqb c c'
  | DataWindowIn, DataWindowIn => true
  | FilterIn, FilterIn => true
  | FilterWidthIn, FilterWidthIn => true
  | FilterWidthChild y, FilterWidthChild y' => Bool.eqb y y'
  | BoundingModeIn, BoundingModeIn => true
  | DebugIn, DebugIn => true
  | OtherPlug n, OtherPlug n' => Nat.eqb n n'
  | _, _ => false
  end.

(** input->parent<V2fPlug>() == filterWidthPlug(): the node has one
    V2fPlug, of which the two components are the children. *)
Definition parentIsFilterWidth (input : Plug) : bool :=
  match input with
  | FilterWidthChild _ => true
  | _ => false
  end.

Section Affects.

(** ImageProcessor::affects is not part of the sources: it is taken as
    a function on the container of affected plugs. *)
Variable ImageProcessor_affects : Plug -> list Plug -> list Plug.

Definition affects (input : Plug) (outputs : list Plug) : list Plug :=
  let outputs := ImageProcessor_affects input outputs in
  if Plug_eqb input DataWindowIn then
    (outputs ++ [OutPlugChild OutPlug DataWindowPlug])
      ++ [OutPlugChild HorizontalPassPlug DataWindowPlug]
  else if Plug_eqb input (InPlugChild ChannelDataPlug)
          || Plug_eqb input (InPlugChild DataWindowPlug)
          || Plug_eqb input DataWindowIn
          || Plug_eqb input FilterIn
          || Plug_eqb input BoundingModeIn
          || parentIsFilterWidth input
          || Plug_eqb input DebugIn then
    (outputs ++ [OutPlugChild OutPlug ChannelDataPlug])
      ++ [OutPlugChild HorizontalPassPlug ChannelDataPlug]
  else outputs.

End Affects.

(** ** hashDataWindow *)

Section DataWindowHash.

Context {F : Type} `{FloatOps F}.

(** ImageProcessor::hashDataWindow and ValuePlug::hash are not part of
    the sources: the first is taken as a function on hashes, the
    second as the sequence of values a plug appends, which for
    dataWindowPlug() is a function of the value set on it and for
    inPlug()->dataWindowPlug() a function of the input image. *)
Variable ImageProcessor_hashDataWindow : PlugId -> Context -> MurmurHash F -> MurmurHash F.
Variable AtomicBox2fPlug_hash : Box F -> list (HashItem F).
Variable Box2iPlug_hash : ImagePlug F -> list (HashItem F).

Definition hashDataWindow (node : ResampleNode F) (parent : PlugId) (context : Context)
    (h : MurmurHash F) : MurmurHash F :=
  let h := ImageProcessor_hashDataWindow parent context h in
  let h := h ++ AtomicBox2fPlug_hash (dataWindowPlug node) in
  if negb (isOutPlug parent) || (debugPlug node =? HorizontalPass)%Z then
    h ++ Box2iPlug_hash (inPlug node)
  else h.

End DataWindowHash.

(** ** Kernels in exact arithmetic *)

Section ExactKernels.

Import Exact.
Local Open Scope Qc_scope.

(** A kernel whose weights vanish outside its support, the interval
    of its width (height) centred at zero. *)
Definition SupportedKernel (filter : Filter2D Qc) : Prop :=
  (forall a, xfilt filter a <> 0 -> - (width filter / 2) <= a <= width filter / 2) /\
  (forall b, yfilt filter b <> 0 -> - (height filter / 2) <= b <= height filter / 2) /\
  (forall a b, apply2D filter a b <> 0 ->
     (- (width filter / 2) <= a <= width filter / 2) /\
     (- (height filter / 2) <= b <= height filter / 2)).

(** A kernel none of whose weights is negative. *)
Definition NonNegativeKernel (filter : Filter2D Qc) : Prop :=
  (forall a, 0 <= xfilt filter a) /\
  (forall b, 0 <= yfilt filter b) /\
  (forall a b, 0 <= apply2D filter a b).

(** An interpolating kernel: its weight is positive at zero and zero
    at the other integers. *)
Definition InterpolatingKernel (filter : Filter2D Qc) : Prop :=
  (0 < xfilt filter 0 /\ forall n : Z, n <> 0%Z -> xfilt filter (ofInt n) = 0) /\
  (0 < yfilt filter 0 /\ forall n : Z, n <> 0%Z -> yfilt filter (ofInt n) = 0) /\
  (0 < apply2D filter 0 0 /\
   forall n m : Z, n <> 0%Z \/ m <> 0%Z -> apply2D filter (ofInt n) (ofInt m) = 0).

(** A kernel whose weights are positive up to half a destination
    pixel from zero, in destination pixels scaled by the ratio. *)
Definition PositiveAtCentre (filter : Filter2D Qc) (ratio : V2 Qc) : Prop :=
  (forall a, - (vx ratio / 2) <= a <= vx ratio / 2 -> 0 < xfilt filter a) /\
  (forall b, - (vy ratio / 2) <= b <= vy ratio / 2 -> 0 < yfilt filter b) /\
  (forall a b,
     - (vx ratio / 2) <= a <= vx ratio / 2 ->
     - (vy ratio / 2) <= b <= vy ratio / 2 -> 0 < apply2D filter a b).

End ExactKernels.

(** *** A small tile in exact arithmetic, and plug hashes *)

Module Small.

Import Exact.

(** The tile size of the examples in exact arithmetic. *)
Definition tile : Z := 2.

(** The box kernel one pixel wide and high. *)
Definition kernel : Filter2D Qc := FilterBox2D "box" (Rational.q 1) (Rational.q 1).

Definition double : V2 Qc := mkV2 (Rational.q 2) (Rational.q 2).
Definition unit : V2 Qc := mkV2 (Rational.q 1) (Rational.q 1).
Definition zero : V2 Qc := mkV2 (Rational.q 0) (Rational.q 0).
Definition origin : V2i := mkV2 0 0.

(** A sample function with values between 0 and 3. *)
Definition corner (x y : Z) : Qc :=
  Rational.q ((if (x <=? 0)%Z then 0 else 1) + (if (y <=? 0)%Z then 0 else 2)).

(** What the destination window and the data window of an image
    append to a hash. *)
Definition boxHash (b : Box Qc) : list (HashItem Qc) :=
  [HFloat (vx (bmin b)); HFloat (vy (bmin b)); HFloat (vx (bmax b)); HFloat (vy (bmax b))].

Definition windowHash (p : ImagePlug Qc) : list (HashItem Qc) := [HBox2i (dataWindow p)].

Definition baseHash (parent : PlugId) (context : Context) (h : MurmurHash Qc) :
    MurmurHash Qc :=
  append h (HString "Resample").

(** A node that resamples a 2 × 2 image to 4 × 4. *)
Definition node (filterName : string) (debug : Z) : ResampleNode Qc :=
  {| inPlug := rasterPlug tile (Float32.window 0 0 1 1) corner;
     dataWindowPlug := mkBox zero (mkV2 (Rational.q 3) (Rational.q 3));
     filterPlug := filterName;
     filterWidthPlug := zero;
     boundingModePlug := Clamp;
     debugPlug := debug |}.

End Small.

(** ** The two strategies, pixel by pixel *)

Section PixelValues.

Context {F : Type} `{FloatOps F}.
Local Open Scope float_scope.




End PixelValues.

(** *** A representative tile in binary32 arithmetic *)

Module Representative.

Import Binary32 Float32.

(** The tile size: one tile of 8 × 8 pixels holds the source image. *)
Definition tile : Z := 8.

Definition origin : V2i := mkV2 0 0.




(** The source image: 8 × 8 samples n / 13 with n between 1 and 11,
    none of them a binary fraction. *)
Definition value (x y : Z) : float :=
  fdiv (ofInt (1 + (5 * x + 3 * y) mod 11)) (ofInt 13).

Definition source : ImagePlug float := rasterPlug tile (window 0 0 7 7) value.

(** The source resampled to [size] × [size] pixels by the kernel
    [filterName] of recommended width. *)
Definition node (size : Z) (filterName : string) (mode debug : Z) : ResampleNode float :=
  exampleNode source (windowF 0 0 (size - 1) (size - 1)) filterName zero mode debug.




End Representative.

(** ** Results *)

Lemma Ok_inj {A : Type} (a b : A) : Ok a = Ok b -> a = b.
Proof. intros E. injection E as E. exact E. Qed.

(** ** The loops as folds *)

Section LoopLemmas.

Context {S : Type}.

Lemma forRange_fold (n : nat) (i : Z) (body : Z -> S -> S) (s : S) :
  forRange n i body s = fold_left (fun s k => body k s) (seqZ i (Z.of_nat n)) s.
Proof.
  revert i s. induction n as [|n IH]; intros i s.
  - reflexivity.
  - rewrite seqZ_cons by lia. cbn [forRange fold_left].
    rewrite IH. do 2 f_equal; lia.
Qed.

Lemma forLt_fold (lo hi : Z) (body : Z -> S -> S) (s : S) :
  forLt lo hi body s = fold_left (fun s k => body k s) (seqZ lo (hi - lo)) s.
Proof.
  unfold forLt. rewrite forRange_fold.
  destruct (Z.le_gt_cases (hi - lo) 0) as [Hle|Hgt].
  - rewrite !seqZ_nil by lia. reflexivity.
  - rewrite Z2Nat.id by lia. reflexivity.
Qed.

Lemma forLe_fold (radius : Z) (body : Z -> S -> S) (s : S) :
  forLe (- radius) radius body s = fold_left (fun s k => body k s) (support radius) s.
Proof.
  unfold forLe, support. rewrite forLt_fold. do 2 f_equal. lia.
Qed.

Lemma fold_left_flat_map {A B : Type} (f : S -> B -> S) (g : A -> list B)
    (l : list A) (s : S) :
  fold_left f (flat_map g l) s = fold_left (fun s a => fold_left f (g a) s) l s.
Proof.
  revert s. induction l as [|a l IH]; intros s; cbn.
  - reflexivity.
  - rewrite fold_left_app. apply IH.
Qed.

Lemma fold_left_map {A B : Type} (f : S -> B -> S) (g : A -> B) (l : list A) (s : S) :
  fold_left f (map g l) s = fold_left (fun s a => f s (g a)) l s.
Proof.
  revert s. induction l as [|a l IH]; intros s; cbn; [reflexivity | apply IH].
Qed.

Lemma fold_left_pointwise {A : Type} (f g : S -> A -> S) (l : list A) (s : S) :
  (forall s a, f s a = g s a) -> fold_left f l s = fold_left g l s.
Proof.
  intros Hfg. revert s. induction l as [|a l IH]; intros s; cbn.
  - reflexivity.
  - rewrite Hfg. apply IH.
Qed.

End LoopLemmas.

(** Rows of equal length laid end to end: entry [i] of row [j] is at
    position [j * n + i]. *)
Lemma flat_map_lookup {A B : Type} (g : A -> list B) (n : nat) (l : list A)
    (j i : nat) (a : A) :
  (forall a', length (g a') = n) ->
  l !! j = Some a -> (i < n)%nat ->
  flat_map g l !! (j * n + i)%nat = g a !! i.
Proof.
  intros Hlen. revert j. induction l as [|a' l IH]; intros j Hj Hi.
  - discriminate.
  - cbn [flat_map]. destruct j as [|j]; cbn in Hj.
    + injection Hj as ->. rewrite lookup_app_l by (rewrite Hlen; lia). reflexivity.
    + rewrite lookup_app_r by (rewrite Hlen; lia).
      rewrite Hlen. replace (S j * n + i - n)%nat with (j * n + i)%nat by lia.
      apply IH; assumption.
Qed.

Lemma flat_map_length_const {A B : Type} (g : A -> list B) (n : nat) (l : list A) :
  (forall a', length (g a') = n) -> length (flat_map g l) = (length l * n)%nat.
Proof.
  intros Hlen. induction l as [|a l IH]; cbn; [reflexivity|].
  rewrite length_app, Hlen, IH. lia.
Qed.

(** ** One destination pixel: the inner loops and the taps *)

Section Accumulation.

Context {F : Type} `{FloatOps F}.
Local Open Scope float_scope.

Variable sample : Z -> Z -> F.

Lemma accumTaps_app (l1 l2 : list (@Tap F)) (a : Accum F) :
  accumTaps sample (l1 ++ l2) a = accumTaps sample l2 (accumTaps sample l1 a).
Proof. unfold accumTaps. apply fold_left_app. Qed.

(** Skipping the taps of weight zero inside the loop is the same as
    summing over the taps of non-zero weight. *)
Lemma accumTaps_nonZero (l : list (@Tap F)) (a : Accum F) :
  v (accumTaps sample l a) =
    fold_left (fun s t => s + fst t * sample (fst (snd t)) (snd (snd t))) (nonZero l) (v a)
  /\ totalW (accumTaps sample l a) = fold_left (fun s t => s + fst t) (nonZero l) (totalW a)
  /\ taps (accumTaps sample l a) = taps a ++ map snd (nonZero l).
Proof.
  revert a. induction l as [|[w [sx sy]] l IH]; intros a.
  - cbn. rewrite app_nil_r. auto.
  - unfold accumTaps in *. cbn [fold_left nonZero List.filter fst snd].
    unfold accumulate at 2 4 6. cbn [fst snd].
    destruct (w == f0) eqn:Hw; cbn [negb].
    + apply IH.
    + destruct (IH {| v := v a + w * sample sx sy; totalW := totalW a + w;
                      taps := taps a ++ [(sx, sy)] |}) as (Hv & Ht & Hs).
      rewrite Hv, Ht, Hs. cbn. rewrite <- app_assoc. auto.
Qed.

Lemma accumTaps_v (l : list (@Tap F)) :
  v (accumTaps sample l accum0) = weightedSum sample (nonZero l).
Proof. apply accumTaps_nonZero. Qed.

Lemma accumTaps_totalW (l : list (@Tap F)) :
  totalW (accumTaps sample l accum0) = weightSum (nonZero l).
Proof. apply accumTaps_nonZero. Qed.

Lemma accumTaps_taps (l : list (@Tap F)) :
  taps (accumTaps sample l accum0) = map snd (nonZero l).
Proof. apply accumTaps_nonZero. Qed.

Variable filter : Filter2D F.
Variables ratio offset : V2 F.

Lemma accumHorizontal_taps (ox oy : Z) :
  (let '(iXF, iXI) := floorfrac (pixelCentre ox (vx ratio) (vx offset)) in
   accumHorizontal filter ratio sample (filterRadiusOf filter ratio) iXI iXF oy)
  = accumTaps sample (tapsHorizontal filter ratio offset ox oy) accum0.
Proof.
  unfold tapsHorizontal, accumHorizontal, accumTaps.
  destruct (floorfrac _) as [iXF iXI].
  rewrite forLe_fold, fold_left_map. reflexivity.
Qed.

Lemma accumVertical_taps (ox oy : Z) :
  (let '(iYF, iYI) := floorfrac (pixelCentre oy (vy ratio) (vy offset)) in
   accumVertical filter ratio sample (filterRadiusOf filter ratio) iYI iYF ox)
  = accumTaps sample (tapsVertical filter ratio offset ox oy) accum0.
Proof.
  unfold tapsVertical, accumVertical, accumTaps.
  destruct (floorfrac _) as [iYF iYI].
  rewrite forLe_fold, fold_left_map. reflexivity.
Qed.

Lemma accumBoth_taps (ox oy : Z) :
  (let '(iXF, iXI) := floorfrac (pixelCentre ox (vx ratio) (vx offset)) in
   let '(iYF, iYI) := floorfrac (pixelCentre oy (vy ratio) (vy offset)) in
   accumBoth filter ratio sample (filterRadiusOf filter ratio) (mkV2 iXI iYI) (mkV2 iXF iYF))
  = accumTaps sample (tapsBoth filter ratio offset ox oy) accum0.
Proof.
  unfold tapsBoth, accumBoth, accumTaps.
  destruct (floorfrac (pixelCentre ox _ _)) as [iXF iXI].
  destruct (floorfrac (pixelCentre oy _ _)) as [iYF iYI].
  rewrite forLe_fold, fold_left_flat_map.
  apply fold_left_pointwise. intros a fY.
  rewrite forLe_fold, fold_left_map. reflexivity.
Qed.

End Accumulation.

(** ** Storing pixels through the output iterator *)

Section Storing.

Context {F : Type} `{FloatOps F}.
Local Open Scope float_scope.

Lemma storePixel_pIt (a : Accum F) (st : TileState F) :
  pIt (storePixel a st) = S (pIt st).
Proof. unfold storePixel. destruct (f0 <? totalW a); reflexivity. Qed.

Lemma storePixel_length (a : Accum F) (st : TileState F) :
  length (data (storePixel a st)) = length (data st).
Proof.
  unfold storePixel. destruct (f0 <? totalW a); cbn; [apply length_insert | reflexivity].
Qed.

Lemma storePixel_written (a : Accum F) (st : TileState F) :
  written (storePixel a st) = written st ++ (if f0 <? totalW a then [pIt st] else []).
Proof.
  unfold storePixel. destruct (f0 <? totalW a); cbn; [reflexivity | by rewrite app_nil_r].
Qed.

Lemma storePixel_sampled (a : Accum F) (st : TileState F) :
  sampled (storePixel a st) = sampled st ++ taps a.
Proof. unfold storePixel. destruct (f0 <? totalW a); reflexivity. Qed.

Lemma storePixel_lookup (a : Accum F) (st : TileState F) (i : nat) :
  data (storePixel a st) !! i =
    if decide (i = pIt st /\ (f0 <? totalW a) = true /\ (i < length (data st))%nat)
    then Some (v a / totalW a) else data st !! i.
Proof.
  unfold storePixel. destruct (f0 <? totalW a) eqn:Hpos; cbn.
  - destruct (decide (i = pIt st)) as [->|Hne].
    + destruct (decide (pIt st < length (data st))%nat) as [Hlt|Hge].
      * rewrite list_lookup_insert_eq by assumption.
        rewrite decide_True by auto. reflexivity.
      * rewrite list_insert_ge by lia.
        rewrite decide_False by tauto. reflexivity.
    + rewrite list_lookup_insert_ne by auto.
      rewrite decide_False by tauto. reflexivity.
  - rewrite decide_False; [reflexivity|]. intros (_ & Hc & _). discriminate.
Qed.

Lemma storeAll_pIt (accs : list (Accum F)) (st : TileState F) :
  pIt (storeAll accs st) = (pIt st + length accs)%nat.
Proof.
  revert st. induction accs as [|a accs IH]; intros st; cbn.
  - lia.
  - unfold storeAll in *. rewrite IH, storePixel_pIt. lia.
Qed.

Lemma storeAll_length (accs : list (Accum F)) (st : TileState F) :
  length (data (storeAll accs st)) = length (data st).
Proof.
  revert st. induction accs as [|a accs IH]; intros st; cbn.
  - reflexivity.
  - unfold storeAll in *. rewrite IH. apply storePixel_length.
Qed.

Lemma storeAll_written (accs : list (Accum F)) (st : TileState F) :
  written (storeAll accs st) = written st ++ writtenFrom (pIt st) accs.
Proof.
  revert st. induction accs as [|a accs IH]; intros st; cbn.
  - by rewrite app_nil_r.
  - unfold storeAll in *. rewrite IH, storePixel_written, storePixel_pIt.
    by rewrite <- app_assoc.
Qed.

Lemma storeAll_sampled (accs : list (Accum F)) (st : TileState F) :
  sampled (storeAll accs st) = sampled st ++ flat_map taps accs.
Proof.
  revert st. induction accs as [|a accs IH]; intros st; cbn.
  - by rewrite app_nil_r.
  - unfold storeAll in *. rewrite IH, storePixel_sampled. by rewrite <- app_assoc.
Qed.

(** Entries before the iterator are never touched again. *)
Lemma storeAll_lookup_before (accs : list (Accum F)) (st : TileState F) (i : nat) :
  (i < pIt st)%nat -> data (storeAll accs st) !! i = data st !! i.
Proof.
  revert st. induction accs as [|a accs IH]; intros st Hi; cbn.
  - reflexivity.
  - unfold storeAll in *. rewrite IH by (rewrite storePixel_pIt; lia).
    rewrite storePixel_lookup. rewrite decide_False by lia. reflexivity.
Qed.

(** The entry of the [k]-th pixel stored: the weighted average when
    its weight sum is positive, and what the buffer held before
    otherwise. *)
Lemma storeAll_lookup (accs : list (Accum F)) (st : TileState F) (k : nat) (a : Accum F) :
  accs !! k = Some a ->
  (pIt st + length accs <= length (data st))%nat ->
  data (storeAll accs st) !! (pIt st + k)%nat =
    if f0 <? totalW a then Some (v a / totalW a) else data st !! (pIt st + k)%nat.
Proof.
  revert st k. induction accs as [|a' accs IH]; intros st k Hk Hlen.
  - discriminate.
  - cbn [length] in Hlen. destruct k as [|k]; cbn in Hk.
    + injection Hk as ->. cbn [storeAll fold_left].
      change (fold_left _ accs ?s) with (storeAll accs s).
      rewrite storeAll_lookup_before by (rewrite storePixel_pIt; lia).
      rewrite storePixel_lookup. rewrite Nat.add_0_r.
      destruct (f0 <? totalW a) eqn:Hpos.
      * rewrite decide_True; [reflexivity|]. repeat split; lia.
      * rewrite decide_False; [reflexivity|]. intros (_ & Hc & _). discriminate.
    + cbn [storeAll fold_left].
      change (fold_left _ accs ?s) with (storeAll accs s).
      replace (pIt st + S k)%nat with (pIt (storePixel a' st) + k)%nat
        by (rewrite storePixel_pIt; lia).
      rewrite (IH _ _ Hk) by (rewrite storePixel_pIt, storePixel_length; lia).
      destruct (f0 <? totalW a); [reflexivity|].
      rewrite storePixel_lookup, storePixel_pIt.
      rewrite decide_False by lia. reflexivity.
Qed.

Lemma writtenFrom_bounds (base : nat) (accs : list (Accum F)) :
  Forall (fun i => (base <= i < base + length accs)%nat) (writtenFrom base accs).
Proof.
  revert base. induction accs as [|a accs IH]; intros base; cbn.
  - constructor.
  - apply Forall_app. split.
    + destruct (f0 <? totalW a); constructor; [lia | constructor].
    + eapply Forall_impl; [apply IH|]. cbn. intros; lia.
Qed.

Lemma writtenFrom_length (base : nat) (accs : list (Accum F)) :
  (length (writtenFrom base accs) <= length accs)%nat.
Proof.
  revert base. induction accs as [|a accs IH]; intros base; cbn.
  - lia.
  - rewrite length_app. specialize (IH (S base)).
    destruct (f0 <? totalW a); cbn; lia.
Qed.

(** The indices written are exactly those of the pixels whose weight
    sum is strictly positive. *)
Lemma writtenFrom_elem (base : nat) (accs : list (Accum F)) (i : nat) :
  i ∈ writtenFrom base accs <->
  exists k a, i = (base + k)%nat /\ accs !! k = Some a /\ (f0 <? totalW a) = true.
Proof.
  revert base. induction accs as [|a accs IH]; intros base; cbn [writtenFrom].
  - split; [intros Hin; inversion Hin | intros (k & a & _ & Hk & _); discriminate].
  - rewrite elem_of_app, IH. split.
    + intros [Hin | (k & a' & -> & Hk & Hpos)].
      * destruct (f0 <? totalW a) eqn:Hpos; [|inversion Hin].
        apply list_elem_of_singleton in Hin as ->.
        exists 0%nat, a. repeat split; [lia | assumption].
      * exists (S k), a'. repeat split; [lia | assumption | assumption].
    + intros (k & a' & -> & Hk & Hpos). destruct k as [|k]; cbn in Hk.
      * injection Hk as ->. left. rewrite Hpos, Nat.add_0_r. apply list_elem_of_singleton.
        reflexivity.
      * right. exists k, a'. repeat split; [lia | assumption | assumption].
Qed.

(** No index is written twice: the indices written increase. *)
Lemma writtenFrom_increasing (base : nat) (accs : list (Accum F)) :
  StronglySorted lt (writtenFrom base accs).
Proof.
  revert base. induction accs as [|a accs IH]; intros base; cbn [writtenFrom].
  - constructor.
  - destruct (f0 <? totalW a); cbn [app]; [|apply IH].
    constructor; [apply IH|].
    eapply Forall_impl; [apply writtenFrom_bounds|]. cbn. intros; lia.
Qed.

End Storing.

(** ** A whole tile *)

Section Tile.

Context {F : Type} `{FloatOps F}.
Local Open Scope float_scope.

Variable tileSize : Z.
Variable filter : Filter2D F.
Variables ratio offset : V2 F.
Variable sample : Z -> Z -> F.
Variable tileOrigin : V2i.

(** The accumulators of the destination pixel [p] under [passes]. *)
Local Abbreviation pixelAccum passes :=
  (fun p : Z * Z => accumTaps sample (tapsOf passes filter ratio offset (fst p) (snd p)) accum0).

Local Abbreviation tileBound :=
  (mkBox tileOrigin (mkV2 (vx tileOrigin + tileSize)%Z (vy tileOrigin + tileSize)%Z)).

Lemma loopBoth_storeAll (st : TileState F) :
  loopBoth filter ratio offset sample (filterRadiusOf filter ratio) tileBound st
  = storeAll (map (pixelAccum Both) (tilePixels tileSize tileOrigin)) st.
Proof.
  unfold loopBoth, storeAll, tilePixels. cbn [bmin bmax vx vy].
  rewrite forLt_fold, fold_left_map, fold_left_flat_map.
  replace (vy tileOrigin + tileSize - vy tileOrigin)%Z with tileSize by lia.
  apply fold_left_pointwise. intros st' oy.
  pose proof (fun ox => accumBoth_taps sample filter ratio offset ox oy) as Hacc.
  destruct (floorfrac (pixelCentre oy _ _)) as [iYF iYI].
  rewrite forLt_fold, fold_left_map.
  replace (vx tileOrigin + tileSize - vx tileOrigin)%Z with tileSize by lia.
  apply fold_left_pointwise. intros st'' ox. specialize (Hacc ox).
  destruct (floorfrac (pixelCentre ox _ _)) as [iXF iXI].
  cbn [fst snd].
  change (tapsOf Both filter ratio offset ox oy) with (tapsBoth filter ratio offset ox oy).
  rewrite <- Hacc. reflexivity.
Qed.

Lemma loopHorizontal_storeAll (st : TileState F) :
  loopHorizontal filter ratio offset sample (filterRadiusOf filter ratio) tileBound st
  = storeAll (map (pixelAccum Horizontal) (tilePixels tileSize tileOrigin)) st.
Proof.
  unfold loopHorizontal, storeAll, tilePixels. cbn [bmin bmax vx vy].
  rewrite forLt_fold, fold_left_map, fold_left_flat_map.
  replace (vy tileOrigin + tileSize - vy tileOrigin)%Z with tileSize by lia.
  apply fold_left_pointwise. intros st' oy.
  rewrite forLt_fold, fold_left_map.
  replace (vx tileOrigin + tileSize - vx tileOrigin)%Z with tileSize by lia.
  apply fold_left_pointwise. intros st'' ox.
  pose proof (accumHorizontal_taps sample filter ratio offset ox oy) as Hacc.
  destruct (floorfrac (pixelCentre ox _ _)) as [iXF iXI].
  cbn [fst snd].
  change (tapsOf Horizontal filter ratio offset ox oy) with (tapsHorizontal filter ratio offset ox oy).
  rewrite <- Hacc. reflexivity.
Qed.

Lemma loopVertical_storeAll (st : TileState F) :
  loopVertical filter ratio offset sample (filterRadiusOf filter ratio) tileBound st
  = storeAll (map (pixelAccum Vertical) (tilePixels tileSize tileOrigin)) st.
Proof.
  unfold loopVertical, storeAll, tilePixels. cbn [bmin bmax vx vy].
  rewrite forLt_fold, fold_left_map, fold_left_flat_map.
  replace (vy tileOrigin + tileSize - vy tileOrigin)%Z with tileSize by lia.
  apply fold_left_pointwise. intros st' oy.
  pose proof (fun ox => accumVertical_taps sample filter ratio offset ox oy) as Hacc.
  destruct (floorfrac (pixelCentre oy _ _)) as [iYF iYI].
  rewrite forLt_fold, fold_left_map.
  replace (vx tileOrigin + tileSize - vx tileOrigin)%Z with tileSize by lia.
  apply fold_left_pointwise. intros st'' ox. specialize (Hacc ox).
  cbn [fst snd].
  change (tapsOf Vertical filter ratio offset ox oy) with (tapsVertical filter ratio offset ox oy).
  rewrite <- Hacc. reflexivity.
Qed.

Lemma computeTile_storeAll (passes : Z) :
  validPasses passes ->
  computeTile tileSize filter passes ratio offset sample tileOrigin
  = storeAll (map (pixelAccum passes) (tilePixels tileSize tileOrigin)) (emptyTile tileSize).
Proof.
  intros [-> | [-> | ->]]; unfold computeTile; cbn [Z.eqb Both Horizontal Vertical Z.lor Pos.eqb Pos.lor].
  - apply loopBoth_storeAll.
  - apply loopHorizontal_storeAll.
  - apply loopVertical_storeAll.
Qed.

Lemma computeTile_other (passes : Z) :
  ~ validPasses passes ->
  computeTile tileSize filter passes ratio offset sample tileOrigin = emptyTile tileSize.
Proof.
  intros Hn. unfold computeTile.
  destruct (passes =? Both)%Z eqn:E1; [apply Z.eqb_eq in E1; exfalso; apply Hn; left; exact E1|].
  destruct (passes =? Horizontal)%Z eqn:E2;
    [apply Z.eqb_eq in E2; exfalso; apply Hn; right; left; exact E2|].
  destruct (passes =? Vertical)%Z eqn:E3;
    [apply Z.eqb_eq in E3; exfalso; apply Hn; right; right; exact E3|].
  reflexivity.
Qed.

Lemma tilePixels_length :
  (0 <= tileSize)%Z ->
  length (tilePixels tileSize tileOrigin) = Z.to_nat (tileSize * tileSize).
Proof.
  intros Hpos. unfold tilePixels.
  rewrite (flat_map_length_const _ (Z.to_nat tileSize))
    by (intros; rewrite length_map, length_seqZ; reflexivity).
  rewrite length_seqZ, Z2Nat.inj_mul by lia. reflexivity.
Qed.

Lemma tilePixels_length_le :
  (length (tilePixels tileSize tileOrigin) <= Z.to_nat (tileSize * tileSize))%nat.
Proof.
  destruct (Z.le_gt_cases 0 tileSize) as [Hpos|Hneg].
  - rewrite tilePixels_length by assumption. lia.
  - unfold tilePixels. rewrite (seqZ_nil (vy tileOrigin)) by lia.
    cbn [flat_map length]. lia.
Qed.

Lemma tilePixels_lookup (ox oy : Z) :
  inTile tileSize tileOrigin ox oy ->
  tilePixels tileSize tileOrigin !! bufferIndex tileSize tileOrigin ox oy = Some (ox, oy).
Proof.
  intros [Hx Hy]. unfold tilePixels, bufferIndex.
  replace (Z.to_nat ((oy - vy tileOrigin) * tileSize + (ox - vx tileOrigin)))
    with (Z.to_nat (oy - vy tileOrigin) * Z.to_nat tileSize + Z.to_nat (ox - vx tileOrigin))%nat
    by (rewrite Z2Nat.inj_add, Z2Nat.inj_mul by nia; reflexivity).
  rewrite (flat_map_lookup _ (Z.to_nat tileSize) _ _ _ oy).
  - rewrite list_lookup_fmap, lookup_seqZ_lt by lia. cbn. do 2 f_equal. lia.
  - intros. rewrite length_map, length_seqZ. reflexivity.
  - rewrite lookup_seqZ_lt by lia. f_equal. lia.
  - lia.
Qed.

Lemma bufferIndex_lt (ox oy : Z) :
  inTile tileSize tileOrigin ox oy ->
  (bufferIndex tileSize tileOrigin ox oy < Z.to_nat (tileSize * tileSize))%nat.
Proof.
  intros Hin. rewrite <- tilePixels_length by (destruct Hin; lia).
  eapply lookup_lt_Some. apply tilePixels_lookup. exact Hin.
Qed.

(** The buffer entry of a destination pixel. *)
Lemma computeTile_lookup (passes : Z) (ox oy : Z) :
  validPasses passes ->
  inTile tileSize tileOrigin ox oy ->
  data (computeTile tileSize filter passes ratio offset sample tileOrigin)
    !! bufferIndex tileSize tileOrigin ox oy
  = Some (weightedAverage sample (tapsOf passes filter ratio offset ox oy)).
Proof.
  intros Hp Hin. rewrite computeTile_storeAll by assumption.
  pose proof (storeAll_lookup
                (map (pixelAccum passes) (tilePixels tileSize tileOrigin))
                (emptyTile tileSize)
                (bufferIndex tileSize tileOrigin ox oy)
                (pixelAccum passes (ox, oy))) as Hl.
  cbn [pIt emptyTile data Nat.add] in Hl. rewrite Hl.
  - cbn [fst snd]. rewrite accumTaps_totalW, accumTaps_v. unfold weightedAverage.
    destruct (f0 <? weightSum _); [reflexivity|].
    apply lookup_replicate_2. apply bufferIndex_lt. exact Hin.
  - rewrite list_lookup_fmap, tilePixels_lookup by assumption. reflexivity.
  - rewrite length_map, length_replicate. apply tilePixels_length_le.
Qed.

(** Every tap of non-zero weight of a pixel of the tile is passed to
    the sampler. *)
Lemma computeTile_sampled (passes : Z) (ox oy : Z) (t : @Tap F) :
  validPasses passes ->
  inTile tileSize tileOrigin ox oy ->
  In t (nonZero (tapsOf passes filter ratio offset ox oy)) ->
  In (snd t) (sampled (computeTile tileSize filter passes ratio offset sample tileOrigin)).
Proof.
  intros Hp Hin Ht. rewrite computeTile_storeAll by assumption.
  rewrite storeAll_sampled. cbn [sampled emptyTile app].
  apply in_flat_map.
  exists (accumTaps sample (tapsOf passes filter ratio offset ox oy) accum0). split.
  - apply in_map_iff. exists (ox, oy). split; [reflexivity|].
    apply list_elem_of_In. eapply list_elem_of_lookup_2.
    apply tilePixels_lookup. exact Hin.
  - rewrite accumTaps_taps. apply in_map. exact Ht.
Qed.

End Tile.

(** ** Planning the passes and creating the filter *)

Section Planning.

Context {F : Type} `{FloatOps F}.
Local Open Scope float_scope.

Variable filterTable : list (FilterDesc F).
Variable Filter2D_create : string -> F -> F -> Filter2D F.

(** C7.  requiredPasses answers Horizontal in the HorizontalPass debug
    mode and Both in the SinglePass debug mode; in every other debug
    mode it answers, for the main output plug, Vertical when the
    filter is separable and Both when it is not, and Horizontal for
    the intermediate horizontal-pass plug. *)
Theorem requiredPasses_cases (debug : Z) (image : PlugId) (filter : Filter2D F) :
  (debug = HorizontalPass -> requiredPasses debug image filter = Horizontal) /\
  (debug = SinglePass -> requiredPasses debug image filter = Both) /\
  (debug <> HorizontalPass -> debug <> SinglePass ->
     requiredPasses debug image filter =
       match image with
       | OutPlug => if separable filter then Vertical else Both
       | HorizontalPassPlug => Horizontal
       end).
Proof.
  unfold requiredPasses. repeat split.
  - intros ->. reflexivity.
  - intros ->. reflexivity.
  - intros Hh Hs.
    destruct (Z.eqb_spec debug HorizontalPass) as [E|_]; [contradiction|].
    destruct (Z.eqb_spec debug SinglePass) as [E|_]; [contradiction|].
    destruct image; reflexivity.
Qed.

Lemma requiredPasses_valid (debug : Z) (image : PlugId) (filter : Filter2D F) :
  validPasses (requiredPasses debug image filter).
Proof.
  unfold requiredPasses, validPasses.
  destruct (debug =? HorizontalPass)%Z; [auto|].
  destruct (debug =? SinglePass)%Z; [auto|].
  destruct image; [destruct (separable filter)|]; auto.
Qed.

Lemma createFromTable_find (table : list (FilterDesc F)) (filterName : string)
    (filterWidth ratio : V2 F) (fd : FilterDesc F) :
  List.find (fun fd => String.eqb (fd_name fd) filterName) table = Some fd ->
  createFromTable Filter2D_create table filterName filterWidth ratio =
    Ok (Filter2D_create filterName
          (if f0 <? vx filterWidth then vx filterWidth
           else fd_width fd * fmax f1 (vx ratio))
          (if f0 <? vy filterWidth then vy filterWidth
           else fd_width fd * fmax f1 (vy ratio))).
Proof.
  induction table as [|fd' table IH]; cbn [List.find createFromTable].
  - discriminate.
  - destruct (String.eqb (fd_name fd') filterName).
    + intros [= ->]. reflexivity.
    + exact IH.
Qed.

Lemma createFromTable_unknown (table : list (FilterDesc F)) (filterName : string)
    (filterWidth ratio : V2 F) (what : string) :
  createFromTable Filter2D_create table filterName filterWidth ratio = Throw what ->
  what = ("Unknown filter " ++ dquote ++ filterName ++ dquote)%string /\
  ~ In filterName (map fd_name table).
Proof.
  induction table as [|fd' table IH]; cbn [createFromTable map In].
  - intros [= <-]. auto.
  - destruct (String.eqb_spec (fd_name fd') filterName) as [E|E].
    + discriminate.
    + intros Hthrow. destruct (IH Hthrow) as [-> Hnot]. split; [reflexivity|].
      intros [C|C]; [exact (E C) | exact (Hnot C)].
Qed.


End Planning.

(** ** The default kernel *)

Section DefaultKernel.

Import Binary32.
Local Open Scope float_scope.

(** What the loop over the table answers for a filter name: the
    kernel the factory makes for the first entry of that name, or the
    error for an unknown name. *)
Local Abbreviation selected table factory filterName filterWidth ratio :=
  (match List.find (fun fd => String.eqb (fd_name fd) filterName) table with
   | Some fd =>
       Ok (factory filterName%string
             (if fltb f0 (vx filterWidth) then vx filterWidth
              else fmul (fd_width fd) (fmax f1 (vx ratio)))
             (if fltb f0 (vy filterWidth) then vy filterWidth
              else fmul (fd_width fd) (fmax f1 (vy ratio))))
   | None =>
       Throw (String.append "Unknown filter "
                (String.append dquote (String.append filterName dquote)))
   end).

Lemma createFromTable_selected {F : Type} `{FloatOps F} (table : list (FilterDesc F))
    (factory : string -> F -> F -> Filter2D F) (filterName : string)
    (filterWidth ratio : V2 F) :
  createFromTable factory table filterName filterWidth ratio
  = selected table factory filterName filterWidth ratio.
Proof.
  induction table as [|fd table IH]; cbn [createFromTable List.find]; [reflexivity|].
  destruct (String.eqb (fd_name fd) filterName); [reflexivity | exact IH].
Qed.

Lemma createFilter_empty_name {F : Type} `{FloatOps F} (table : list (FilterDesc F))
    (factory : string -> F -> F -> Filter2D F) (filterWidth ratio : V2 F) :
  ((f1 <? vx ratio) = true \/ (f1 <? vy ratio) = true ->
     createFilter table factory EmptyString filterWidth ratio
     = selected table factory "blackman-harris"%string filterWidth ratio) /\
  ((f1 <? vx ratio) = false -> (f1 <? vy ratio) = false ->
     createFilter table factory EmptyString filterWidth ratio
     = selected table factory "lanczos3"%string filterWidth ratio).
Proof.
  unfold createFilter, defaultFilterName. cbn [String.eqb].
  rewrite <- !createFromTable_selected. split.
  - intros [-> | ->]; [|rewrite orb_true_r]; reflexivity.
  - intros -> ->. reflexivity.
Qed.

(** C9, as amended.  With an empty filter name createFilter makes
    the kernel named blackman-harris, the default for upsizing, when
    the ratio exceeds 1 on either axis, and the kernel named lanczos3,
    the default for downsizing, when it exceeds 1 on neither: the
    factory is given that name, with the widths of the first table
    entry of that name, and the error names it when the table has no
    such entry.  In binary32 a horizontal ratio of 2.0 selects
    blackman-harris whatever the vertical ratio; a horizontal ratio of
    0.5 selects lanczos3 when the vertical ratio does not exceed 1,
    and blackman-harris when it does. *)
Theorem createFilter_default :
  (forall (F : Type) (ops : FloatOps F) (table : list (FilterDesc F))
          (factory : string -> F -> F -> Filter2D F) (filterWidth ratio : V2 F),
     ((f1 <? vx ratio) = true \/ (f1 <? vy ratio) = true ->
        createFilter table factory EmptyString filterWidth ratio
        = selected table factory "blackman-harris"%string filterWidth ratio) /\
     ((f1 <? vx ratio) = false -> (f1 <? vy ratio) = false ->
        createFilter table factory EmptyString filterWidth ratio
        = selected table factory "lanczos3"%string filterWidth ratio)) /\
  (forall (table : list (FilterDesc float))
          (factory : string -> float -> float -> Filter2D float)
          (filterWidth : V2 float) (ry : float),
     createFilter table factory EmptyString filterWidth (mkV2 (make 2 0) ry)
     = selected table factory "blackman-harris"%string filterWidth (mkV2 (make 2 0) ry) /\
     ((f1 <? ry) = false ->
        createFilter table factory EmptyString filterWidth (mkV2 (make 1 (-1)) ry)
        = selected table factory "lanczos3"%string filterWidth (mkV2 (make 1 (-1)) ry)) /\
     ((f1 <? ry) = true ->
        createFilter table factory EmptyString filterWidth (mkV2 (make 1 (-1)) ry)
        = selected table factory "blackman-harris"%string filterWidth
            (mkV2 (make 1 (-1)) ry))).
Proof.
  split.
  - intros F ops table factory filterWidth ratio.
    exact (createFilter_empty_name table factory filterWidth ratio).
  - intros table factory filterWidth ry. split; [|split].
    + apply createFilter_empty_name. left. reflexivity.
    + intros Hry. apply createFilter_empty_name; [reflexivity | exact Hry].
    + intros Hry. apply createFilter_empty_name. right. exact Hry.
Qed.

End DefaultKernel.

(** ** The pixels of a computed tile *)

Section TileTheorems.

Context {F : Type} `{FloatOps F}.
Local Open Scope float_scope.

Variable tileSize : Z.

(** C1.  In each of the three evaluation strategies, the buffer entry
    of a destination pixel of the tile is the sum of weight times
    sample over the kernel taps of non-zero weight divided by the sum
    of those weights when that sum is strictly positive, and zero,
    the value the buffer is filled with, when it is not. *)
Theorem pixel_is_weighted_average (filter : Filter2D F) (ratio offset : V2 F)
    (sample : Z -> Z -> F) (tileOrigin : V2i) (ox oy : Z) :
  inTile tileSize tileOrigin ox oy ->
  data (computeTile tileSize filter Both ratio offset sample tileOrigin)
    !! bufferIndex tileSize tileOrigin ox oy
    = Some (weightedAverage sample (tapsBoth filter ratio offset ox oy)) /\
  data (computeTile tileSize filter Horizontal ratio offset sample tileOrigin)
    !! bufferIndex tileSize tileOrigin ox oy
    = Some (weightedAverage sample (tapsHorizontal filter ratio offset ox oy)) /\
  data (computeTile tileSize filter Vertical ratio offset sample tileOrigin)
    !! bufferIndex tileSize tileOrigin ox oy
    = Some (weightedAverage sample (tapsVertical filter ratio offset ox oy)).
Proof.
  intros Hin. repeat split.
  - apply (computeTile_lookup tileSize filter ratio offset sample tileOrigin Both);
      [left; reflexivity | exact Hin].
  - apply (computeTile_lookup tileSize filter ratio offset sample tileOrigin Horizontal);
      [right; left; reflexivity | exact Hin].
  - apply (computeTile_lookup tileSize filter ratio offset sample tileOrigin Vertical);
      [right; right; reflexivity | exact Hin].
Qed.

(** C10, as amended.  The result buffer has tileSize × tileSize
    entries, zero-filled at the start; each of the three loops
    advances the output iterator once per destination pixel in
    row-major order, so that it ends at tileSize × tileSize; a pixel
    is written, at its row-major index, exactly when its weight sum
    is strictly positive, so that at most tileSize × tileSize writes
    occur, each at a different index inside the buffer; and for any
    other value of [passes] the zero-filled buffer is returned with
    no write. *)
Theorem tile_buffer_writes (filter : Filter2D F) (passes : Z) (ratio offset : V2 F)
    (sample : Z -> Z -> F) (tileOrigin : V2i) :
  (0 <= tileSize)%Z ->
  let st := computeTile tileSize filter passes ratio offset sample tileOrigin in
  length (data st) = Z.to_nat (tileSize * tileSize) /\
  (validPasses passes -> pIt st = Z.to_nat (tileSize * tileSize)) /\
  Forall (fun i => (i < length (data st))%nat) (written st) /\
  StronglySorted lt (written st) /\
  (length (written st) <= Z.to_nat (tileSize * tileSize))%nat /\
  (validPasses passes ->
   forall ox oy, inTile tileSize tileOrigin ox oy ->
     (bufferIndex tileSize tileOrigin ox oy ∈ written st <->
      (f0 <? weightSum (nonZero (tapsOf passes filter ratio offset ox oy))) = true)) /\
  (~ validPasses passes ->
     data st = replicate (Z.to_nat (tileSize * tileSize)) f0 /\ written st = []).
Proof.
  intros Hpos st.
  assert (Hdec : validPasses passes \/ ~ validPasses passes).
  { unfold validPasses.
    destruct (Z.eq_dec passes Both), (Z.eq_dec passes Horizontal),
      (Z.eq_dec passes Vertical); tauto. }
  destruct Hdec as [Hp|Hn].
  - subst st. rewrite computeTile_storeAll by assumption.
    set (accs := map _ (tilePixels tileSize tileOrigin)).
    assert (Hlen : length accs = Z.to_nat (tileSize * tileSize)).
    { unfold accs. rewrite length_map. apply tilePixels_length. exact Hpos. }
    rewrite storeAll_length, storeAll_pIt, storeAll_written.
    cbn [emptyTile data pIt written app Nat.add]. rewrite length_replicate.
    split; [reflexivity|]. split; [intros _; exact Hlen|].
    split.
    { eapply Forall_impl; [apply writtenFrom_bounds|]. cbn. intros i Hi. lia. }
    split; [apply writtenFrom_increasing|].
    split; [rewrite <- Hlen; apply writtenFrom_length|].
    split; [|intros Hc; contradiction].
    intros _ ox oy Hin. rewrite writtenFrom_elem. cbn [Nat.add].
    assert (Hlk : accs !! bufferIndex tileSize tileOrigin ox oy
                  = Some (accumTaps sample (tapsOf passes filter ratio offset ox oy) accum0)).
    { unfold accs. rewrite list_lookup_fmap, tilePixels_lookup by assumption. reflexivity. }
    split.
    + intros (k & a & Hidx & Hk & Hw). cbn [Nat.add] in Hidx. subst k.
      rewrite Hlk in Hk. injection Hk as <-.
      rewrite accumTaps_totalW in Hw. exact Hw.
    + intros Hw. eexists _, _. split; [reflexivity|]. split; [exact Hlk|].
      rewrite accumTaps_totalW. exact Hw.
  - subst st. rewrite computeTile_other by assumption.
    cbn [emptyTile data pIt written]. rewrite length_replicate.
    split; [reflexivity|]. split; [intros Hc; contradiction|].
    split; [constructor|]. split; [constructor|].
    split; [cbn; lia|]. split; [intros Hc; contradiction|]. auto.
Qed.

End TileTheorems.

(** ** Hashes and errors of a tile request *)

Section Requests.

Context {F : Type} `{FloatOps F}.
Local Open Scope float_scope.

Variable filterTable : list (FilterDesc F).
Variable Filter2D_create : string -> F -> F -> Filter2D F.
Variable tileSize : Z.
Variable ImageProcessor_hashChannelData :
  PlugId -> Context -> MurmurHash F -> MurmurHash F.
Variable Sampler_hash : Sampler F -> list (HashItem F).

Local Abbreviation createFilter' := (createFilter filterTable Filter2D_create).
Local Abbreviation horizontalPassPlug' :=
  (horizontalPassPlug filterTable Filter2D_create tileSize).
Local Abbreviation computeChannelData' :=
  (computeChannelData filterTable Filter2D_create tileSize).
Local Abbreviation hashChannelData' :=
  (hashChannelData filterTable Filter2D_create tileSize
     ImageProcessor_hashChannelData Sampler_hash).

(** The ratio and the offset of a node. *)
Local Abbreviation ratioOf node :=
  (fst (ratioAndOffset (dataWindowPlug node) (dataWindow (inPlug node)))).
Local Abbreviation offsetOf node :=
  (snd (ratioAndOffset (dataWindowPlug node) (dataWindow (inPlug node)))).

Lemma runChannelData_ok (horizontalPass : ImagePlug F) (node : ResampleNode F)
    (channelName : string) (tileOrigin : V2i) (parent : PlugId) (filter : Filter2D F) :
  createFilter' (filterPlug node) (filterWidthPlug node) (ratioOf node) = Ok filter ->
  let passes := requiredPasses (debugPlug node) parent filter in
  runChannelData filterTable Filter2D_create tileSize horizontalPass node channelName
    tileOrigin parent
  = Ok (computeTile tileSize filter passes (ratioOf node) (offsetOf node)
          (Sampler_sample tileSize
             (samplerFor node horizontalPass passes channelName
                (inputRegion tileSize tileOrigin passes (ratioOf node) (offsetOf node) filter)))
          tileOrigin).
Proof.
  intros Hf passes. unfold runChannelData.
  destruct (ratioAndOffset _ _) as [ratio offset]. cbn [fst snd] in *.
  rewrite Hf. reflexivity.
Qed.

Lemma computeChannelData_ok (node : ResampleNode F) (channelName : string)
    (tileOrigin : V2i) (parent : PlugId) (filter : Filter2D F) :
  createFilter' (filterPlug node) (filterWidthPlug node) (ratioOf node) = Ok filter ->
  let passes := requiredPasses (debugPlug node) parent filter in
  computeChannelData' node channelName tileOrigin parent
  = Ok (data (computeTile tileSize filter passes (ratioOf node) (offsetOf node)
                (Sampler_sample tileSize
                   (samplerFor node (horizontalPassPlug' node) passes channelName
                      (inputRegion tileSize tileOrigin passes (ratioOf node) (offsetOf node)
                         filter)))
                tileOrigin)).
Proof.
  intros Hf passes. unfold computeChannelData.
  rewrite (runChannelData_ok _ _ _ _ _ _ Hf). reflexivity.
Qed.

Lemma computeChannelData_throw (node : ResampleNode F) (channelName : string)
    (tileOrigin : V2i) (parent : PlugId) (what : string) :
  createFilter' (filterPlug node) (filterWidthPlug node) (ratioOf node) = Throw what ->
  computeChannelData' node channelName tileOrigin parent = Throw what.
Proof.
  intros Hf. unfold computeChannelData, runChannelData.
  destruct (ratioAndOffset _ _) as [ratio offset]. cbn [fst snd] in *.
  rewrite Hf. reflexivity.
Qed.

Lemma hashChannelData_ok (node : ResampleNode F) (parent : PlugId) (context : Context)
    (h : MurmurHash F) (filter : Filter2D F) :
  createFilter' (filterPlug node) (filterWidthPlug node) (ratioOf node) = Ok filter ->
  let passes := requiredPasses (debugPlug node) parent filter in
  hashChannelData' node parent context h
  = Ok (ImageProcessor_hashChannelData parent context h
        ++ hashSequence filter passes (ratioOf node) (offsetOf node)
             (Sampler_hash
                (samplerFor node (horizontalPassPlug' node) passes
                   (channelNameContext context)
                   (inputRegion tileSize (tileOriginContext context) passes
                      (ratioOf node) (offsetOf node) filter)))
             (tileOriginContext context)).
Proof.
  intros Hf passes. unfold hashChannelData.
  destruct (ratioAndOffset _ _) as [ratio offset]. cbn [fst snd] in *.
  rewrite Hf. cbn [bind]. fold passes. f_equal.
  unfold hashSequence, axisItems, append, samplerFor.
  destruct (hasPass passes Horizontal), (hasPass passes Vertical);
    cbn [app]; rewrite <- ?app_assoc; reflexivity.
Qed.

Lemma hashChannelData_throw (node : ResampleNode F) (parent : PlugId) (context : Context)
    (h : MurmurHash F) (what : string) :
  createFilter' (filterPlug node) (filterWidthPlug node) (ratioOf node) = Throw what ->
  hashChannelData' node parent context h = Throw what.
Proof.
  intros Hf. unfold hashChannelData.
  destruct (ratioAndOffset _ _) as [ratio offset]. cbn [fst snd] in *.
  rewrite Hf. reflexivity.
Qed.

(** Requests with the same pass set whose sequences agree after a
    common prefix agree on every value appended. *)
Lemma hashSequence_inj (base : list (HashItem F)) (passes : Z)
    (filter filter' : Filter2D F) (ratio offset ratio' offset' : V2 F)
    (items items' : list (HashItem F)) (tileOrigin tileOrigin' : V2i) :
  base ++ hashSequence filter passes ratio offset items tileOrigin
    = base ++ hashSequence filter' passes ratio' offset' items' tileOrigin' ->
  name filter = name filter' /\
  (hasPass passes Horizontal = true ->
     width filter = width filter' /\ vx ratio = vx ratio' /\ vx offset = vx offset') /\
  (hasPass passes Vertical = true ->
     height filter = height filter' /\ vy ratio = vy ratio' /\ vy offset = vy offset') /\
  items = items' /\
  tileOrigin = tileOrigin'.
Proof.
  intros Heq. apply app_inv_head in Heq. unfold hashSequence, axisItems in Heq.
  destruct (hasPass passes Horizontal), (hasPass passes Vertical);
    cbn [app] in Heq;
    repeat match goal with
           | E : _ :: _ = _ :: _ |- _ => injection E; clear E; intros
           end;
    match goal with
    | E : _ ++ [_] = _ ++ [_] |- _ => apply app_inj_tail in E; destruct E as [Hitems Ho]
    end;
    repeat split; intros; try discriminate; congruence.
Qed.

(** C4, as amended.  For a tile request whose filter is known, the
    channel-data hash is the base identity of the operation followed,
    in this order, by the filter's name, then — only for each axis
    whose pass is active — the kernel's support size, the ratio and
    the offset on that axis, then what the sampler appends for the
    computed input region, then the tile origin.  The hash is a
    function of the request, and two requests with the same base
    identity and pass set and the same hash agree on the filter name,
    on the support size, ratio and offset of each active axis, on what
    the sampler appends and on the tile origin. *)
Theorem hashChannelData_sequence (node : ResampleNode F) (parent : PlugId)
    (context : Context) (h : MurmurHash F) (filter : Filter2D F) :
  createFilter' (filterPlug node) (filterWidthPlug node) (ratioOf node) = Ok filter ->
  let passes := requiredPasses (debugPlug node) parent filter in
  let items :=
    Sampler_hash
      (samplerFor node (horizontalPassPlug' node) passes (channelNameContext context)
         (inputRegion tileSize (tileOriginContext context) passes
            (ratioOf node) (offsetOf node) filter)) in
  hashChannelData' node parent context h
    = Ok (ImageProcessor_hashChannelData parent context h
          ++ [HString (name filter)]
          ++ (if hasPass passes Horizontal
              then [HFloat (width filter); HFloat (vx (ratioOf node));
                    HFloat (vx (offsetOf node))]
              else [])
          ++ (if hasPass passes Vertical
              then [HFloat (height filter); HFloat (vy (ratioOf node));
                    HFloat (vy (offsetOf node))]
              else [])
          ++ items
          ++ [HV2i (tileOriginContext context)])
  /\ forall (filter' : Filter2D F) (ratio' offset' : V2 F)
       (items' : list (HashItem F)) (tileOrigin' : V2i),
       hashChannelData' node parent context h
         = Ok (ImageProcessor_hashChannelData parent context h
               ++ hashSequence filter' passes ratio' offset' items' tileOrigin') ->
       name filter = name filter' /\
       (hasPass passes Horizontal = true ->
          width filter = width filter' /\ vx (ratioOf node) = vx ratio' /\
          vx (offsetOf node) = vx offset') /\
       (hasPass passes Vertical = true ->
          height filter = height filter' /\ vy (ratioOf node) = vy ratio' /\
          vy (offsetOf node) = vy offset') /\
       items = items' /\
       tileOriginContext context = tileOrigin'.
Proof.
  intros Hf passes items. split.
  - rewrite (hashChannelData_ok _ _ _ _ _ Hf). reflexivity.
  - intros filter' ratio' offset' items' tileOrigin'.
    rewrite (hashChannelData_ok _ _ _ _ _ Hf). intros [= Heq].
    apply hashSequence_inj in Heq. exact Heq.
Qed.

(** C5, as amended.  Neither data window is validated: whatever the
    windows, a tile request fails exactly when createFilter fails,
    and then with createFilter's error, which names a filter absent
    from the table. *)
Theorem windows_not_validated (node : ResampleNode F) (parent : PlugId)
    (context : Context) (h : MurmurHash F) :
  match createFilter' (filterPlug node) (filterWidthPlug node) (ratioOf node) with
  | Ok filter =>
      (exists buffer,
         computeChannelData' node (channelNameContext context)
           (tileOriginContext context) parent = Ok buffer) /\
      (exists h', hashChannelData' node parent context h = Ok h')
  | Throw what =>
      computeChannelData' node (channelNameContext context)
        (tileOriginContext context) parent = Throw what /\
      hashChannelData' node parent context h = Throw what /\
      exists filterName,
        what = ("Unknown filter " ++ dquote ++ filterName ++ dquote)%string /\
        ~ In filterName (map fd_name filterTable)
  end.
Proof.
  destruct (createFilter' _ _ _) as [filter|what] eqn:Hf.
  - split.
    + eexists. apply (computeChannelData_ok _ _ _ _ _ Hf).
    + eexists. apply (hashChannelData_ok _ _ _ _ _ Hf).
  - split; [apply computeChannelData_throw; exact Hf|].
    split; [apply hashChannelData_throw; exact Hf|].
    unfold createFilter in Hf. eexists.
    eapply createFromTable_unknown. exact Hf.
Qed.

End Requests.

(** ** The horizontal pass *)

Section HorizontalPass.

Context {F : Type} `{FloatOps F}.
Local Open Scope float_scope.

Variable filterTable : list (FilterDesc F).
Variable Filter2D_create : string -> F -> F -> Filter2D F.
Variable tileSize : Z.
Variable ImageProcessor_hashChannelData :
  PlugId -> Context -> MurmurHash F -> MurmurHash F.
Variable Sampler_hash : Sampler F -> list (HashItem F).

Local Abbreviation createFilter' := (createFilter filterTable Filter2D_create).
Local Abbreviation horizontalPassPlug' :=
  (horizontalPassPlug filterTable Filter2D_create tileSize).
Local Abbreviation computeChannelData' :=
  (computeChannelData filterTable Filter2D_create tileSize).
Local Abbreviation hashChannelData' :=
  (hashChannelData filterTable Filter2D_create tileSize
     ImageProcessor_hashChannelData Sampler_hash).
Local Abbreviation ratioOf node :=
  (fst (ratioAndOffset (dataWindowPlug node) (dataWindow (inPlug node)))).
Local Abbreviation offsetOf node :=
  (snd (ratioAndOffset (dataWindowPlug node) (dataWindow (inPlug node)))).

Lemma requiredPasses_horizontalPassPlug (debug : Z) (filter : Filter2D F) :
  debug <> SinglePass ->
  requiredPasses debug HorizontalPassPlug filter = Horizontal.
Proof.
  intros Hd. unfold requiredPasses.
  destruct (debug =? HorizontalPass)%Z; [reflexivity|].
  destruct (Z.eqb_spec debug SinglePass); [contradiction | reflexivity].
Qed.

Lemma requiredPasses_outPlug (debug : Z) (filter : Filter2D F) :
  debug <> HorizontalPass -> debug <> SinglePass ->
  requiredPasses debug OutPlug filter = if separable filter then Vertical else Both.
Proof.
  intros Hh Hs. unfold requiredPasses.
  destruct (Z.eqb_spec debug HorizontalPass); [contradiction|].
  destruct (Z.eqb_spec debug SinglePass); [contradiction|]. reflexivity.
Qed.

Lemma requiredPasses_not_vertical (debug : Z) (filter : Filter2D F) :
  requiredPasses debug HorizontalPassPlug filter <> Vertical.
Proof.
  unfold requiredPasses.
  destruct (debug =? HorizontalPass)%Z; [discriminate|].
  destruct (debug =? SinglePass)%Z; discriminate.
Qed.

Lemma inputRegion_horizontal (tileOrigin : V2i) (ratio offset ratio' offset' : V2 F)
    (filter filter' : Filter2D F) :
  width filter = width filter' ->
  vx ratio = vx ratio' -> vx offset = vx offset' ->
  inputRegion tileSize tileOrigin Horizontal ratio offset filter
  = inputRegion tileSize tileOrigin Horizontal ratio' offset' filter'.
Proof.
  intros Hw Hr Ho. unfold inputRegion.
  change (hasPass Horizontal Horizontal) with true.
  change (hasPass Horizontal Vertical) with false.
  cbn [bmin bmax vx vy]. rewrite Hw, Hr, Ho. reflexivity.
Qed.

Lemma tapsHorizontal_ext (ratio offset ratio' offset' : V2 F)
    (filter filter' : Filter2D F) (ox oy : Z) :
  width filter = width filter' ->
  (forall a, xfilt filter a = xfilt filter' a) ->
  vx ratio = vx ratio' -> vx offset = vx offset' ->
  tapsHorizontal filter ratio offset ox oy = tapsHorizontal filter' ratio' offset' ox oy.
Proof.
  intros Hw Hx Hr Ho. unfold tapsHorizontal, filterRadiusOf. cbn [vx].
  rewrite Hw, Hr, Ho. destruct (floorfrac _) as [iXF iXI].
  apply map_ext. intros fX. rewrite Hx. reflexivity.
Qed.

Lemma computeTile_horizontal_ext (ratio offset ratio' offset' : V2 F)
    (filter filter' : Filter2D F) (sample : Z -> Z -> F) (tileOrigin : V2i) :
  width filter = width filter' ->
  (forall a, xfilt filter a = xfilt filter' a) ->
  vx ratio = vx ratio' -> vx offset = vx offset' ->
  computeTile tileSize filter Horizontal ratio offset sample tileOrigin
  = computeTile tileSize filter' Horizontal ratio' offset' sample tileOrigin.
Proof.
  intros Hw Hx Hr Ho.
  rewrite !computeTile_storeAll by (right; left; reflexivity).
  f_equal. apply map_ext. intros [ox oy]. cbn [fst snd].
  change (tapsOf Horizontal ?f ?r ?o ox oy) with (tapsHorizontal f r o ox oy).
  rewrite (tapsHorizontal_ext ratio offset ratio' offset' filter filter') by assumption.
  reflexivity.
Qed.

Section SameHorizontalInputs.

Variables node node' : ResampleNode F.
Variables filter filter' : Filter2D F.

Hypothesis Hfilter :
  createFilter' (filterPlug node) (filterWidthPlug node) (ratioOf node) = Ok filter.
Hypothesis Hfilter' :
  createFilter' (filterPlug node') (filterWidthPlug node') (ratioOf node') = Ok filter'.
Hypothesis Hdebug : debugPlug node <> SinglePass.
Hypothesis Hdebug' : debugPlug node' <> SinglePass.
Hypothesis Hwidth : width filter = width filter'.
Hypothesis Hratio : vx (ratioOf node) = vx (ratioOf node').
Hypothesis Hoffset : vx (offsetOf node) = vx (offsetOf node').
Hypothesis Hin : inPlug node = inPlug node'.
Hypothesis Hmode : boundingModePlug node = boundingModePlug node'.

Lemma hashChannelData_horizontal_ext (context : Context) (h : MurmurHash F) :
  name filter = name filter' ->
  hashChannelData' node HorizontalPassPlug context h
  = hashChannelData' node' HorizontalPassPlug context h.
Proof.
  intros Hn.
  rewrite (hashChannelData_ok _ _ _ _ _ _ _ _ _ _ Hfilter).
  rewrite (hashChannelData_ok _ _ _ _ _ _ _ _ _ _ Hfilter').
  rewrite (requiredPasses_horizontalPassPlug _ _ Hdebug).
  rewrite (requiredPasses_horizontalPassPlug _ _ Hdebug').
  unfold hashSequence, samplerFor.
  change (hasPass Horizontal Horizontal) with true.
  change (hasPass Horizontal Vertical) with false.
  change (Horizontal =? Vertical)%Z with false. cbn iota.
  rewrite (inputRegion_horizontal _ _ _ _ _ _ _ Hwidth Hratio Hoffset).
  rewrite Hn, Hwidth, Hratio, Hoffset, Hin, Hmode. reflexivity.
Qed.

Lemma computeChannelData_horizontal_ext (channelName : string) (tileOrigin : V2i) :
  (forall a, xfilt filter a = xfilt filter' a) ->
  computeChannelData' node channelName tileOrigin HorizontalPassPlug
  = computeChannelData' node' channelName tileOrigin HorizontalPassPlug.
Proof.
  intros Hx.
  rewrite (computeChannelData_ok _ _ _ _ _ _ _ _ Hfilter).
  rewrite (computeChannelData_ok _ _ _ _ _ _ _ _ Hfilter').
  rewrite (requiredPasses_horizontalPassPlug _ _ Hdebug).
  rewrite (requiredPasses_horizontalPassPlug _ _ Hdebug').
  unfold samplerFor.
  change (Horizontal =? Vertical)%Z with false. cbn iota.
  rewrite (inputRegion_horizontal _ _ _ _ _ _ _ Hwidth Hratio Hoffset).
  rewrite (computeTile_horizontal_ext _ _ _ _ _ _ _ _ Hwidth Hx Hratio Hoffset).
  rewrite Hin, Hmode. reflexivity.
Qed.

End SameHorizontalInputs.

(** C6, as amended.  For two configurations that resolve to kernels
    of the same name, horizontal support and horizontal weights, that
    have the same horizontal ratio and offset, source image and
    bounding mode, and neither of which is in the SinglePass debug
    mode, the hash and the pixel data of every tile of the
    intermediate horizontal-pass raster are identical: they do not
    depend on the vertical ratio, the vertical offset or the kernel's
    support height. *)
Theorem horizontal_pass_independent (node node' : ResampleNode F)
    (filter filter' : Filter2D F) (context : Context) (h : MurmurHash F) :
  createFilter' (filterPlug node) (filterWidthPlug node) (ratioOf node) = Ok filter ->
  createFilter' (filterPlug node') (filterWidthPlug node') (ratioOf node') = Ok filter' ->
  debugPlug node <> SinglePass ->
  debugPlug node' <> SinglePass ->
  name filter = name filter' ->
  width filter = width filter' ->
  (forall a, xfilt filter a = xfilt filter' a) ->
  vx (ratioOf node) = vx (ratioOf node') ->
  vx (offsetOf node) = vx (offsetOf node') ->
  inPlug node = inPlug node' ->
  boundingModePlug node = boundingModePlug node' ->
  hashChannelData' node HorizontalPassPlug context h
    = hashChannelData' node' HorizontalPassPlug context h /\
  computeChannelData' node (channelNameContext context) (tileOriginContext context)
      HorizontalPassPlug
    = computeChannelData' node' (channelNameContext context) (tileOriginContext context)
        HorizontalPassPlug.
Proof.
  intros Hf Hf' Hd Hd' Hn Hw Hx Hr Ho Hin Hb. split.
  - apply (hashChannelData_horizontal_ext node node' filter filter'); assumption.
  - apply (computeChannelData_horizontal_ext node node' filter filter'); assumption.
Qed.

End HorizontalPass.

(** ** Reading the horizontal pass through a sampler *)

Section ReadingHorizontalPass.

Context {F : Type} `{FloatOps F}.
Local Open Scope float_scope.

Variable filterTable : list (FilterDesc F).
Variable Filter2D_create : string -> F -> F -> Filter2D F.
Variable tileSize : Z.

Local Abbreviation createFilter' := (createFilter filterTable Filter2D_create).
Local Abbreviation horizontalPassPlug' :=
  (horizontalPassPlug filterTable Filter2D_create tileSize).
Local Abbreviation ratioOf node :=
  (fst (ratioAndOffset (dataWindowPlug node) (dataWindow (inPlug node)))).
Local Abbreviation offsetOf node :=
  (snd (ratioAndOffset (dataWindowPlug node) (dataWindow (inPlug node)))).

Lemma Sampler_sample_readPlug (s : Sampler F) (px py : Z) :
  Sampler_sample tileSize s px py
  = readPlug tileSize (samplerPlug s) (samplerChannelName s) (boundingMode s) px py.
Proof. reflexivity. Qed.

Lemma tileOriginOf_bounds (p : Z) :
  (0 < tileSize)%Z ->
  (tileOriginOf tileSize p <= p < tileOriginOf tileSize p + tileSize)%Z.
Proof.
  intros Hpos. unfold tileOriginOf.
  pose proof (Z.div_mod p tileSize ltac:(lia)) as Hdm.
  pose proof (Z.mod_pos_bound p tileSize Hpos) as Hmod. lia.
Qed.

(** A pixel of the horizontal-pass raster is the weighted average of
    the horizontal taps, read from the input image. *)
Lemma pixel_horizontalPassPlug (node : ResampleNode F) (filter : Filter2D F)
    (channelName : string) (px py : Z) :
  (0 < tileSize)%Z ->
  createFilter' (filterPlug node) (filterWidthPlug node) (ratioOf node) = Ok filter ->
  debugPlug node <> SinglePass ->
  pixel tileSize (horizontalPassPlug' node) channelName px py
  = weightedAverage
      (readPlug tileSize (inPlug node) channelName (boundingModePlug node))
      (tapsHorizontal filter (ratioOf node) (offsetOf node) px py).
Proof.
  intros Hpos Hf Hd. unfold pixel, horizontalPassPlug. cbn [channelData].
  rewrite (runChannelData_ok _ _ _ _ _ _ _ _ _ Hf).
  rewrite (requiredPasses_horizontalPassPlug _ _ Hd).
  set (origin := mkV2 (tileOriginOf tileSize px) (tileOriginOf tileSize py)).
  assert (Hin : inTile tileSize origin px py).
  { split; apply tileOriginOf_bounds; exact Hpos. }
  pose proof (computeTile_lookup tileSize filter (ratioOf node) (offsetOf node)
                (Sampler_sample tileSize
                   (samplerFor node (inPlug node) Horizontal channelName
                      (inputRegion tileSize origin Horizontal (ratioOf node)
                         (offsetOf node) filter)))
                origin Horizontal px py ltac:(right; left; reflexivity) Hin) as Hl.
  unfold bufferIndex in Hl. cbn [vx vy origin] in Hl.
  apply (nth_lookup_Some _ _ f0) in Hl. exact Hl.
Qed.

(** What the sampler of the vertical pass reads. *)
Lemma Sampler_sample_horizontalPass (node : ResampleNode F) (filter : Filter2D F)
    (channelName : string) (region : Box2i) (px py : Z) :
  (0 < tileSize)%Z ->
  createFilter' (filterPlug node) (filterWidthPlug node) (ratioOf node) = Ok filter ->
  debugPlug node <> SinglePass ->
  let horizontal := fun qx qy =>
    weightedAverage
      (readPlug tileSize (inPlug node) channelName (boundingModePlug node))
      (tapsHorizontal filter (ratioOf node) (offsetOf node) qx qy) in
  let w := computeDataWindow node HorizontalPassPlug in
  Sampler_sample tileSize
    (samplerFor node (horizontalPassPlug' node) Vertical channelName region) px py
  = if contains w px py then horizontal px py
    else if (boundingModePlug node =? Clamp)%Z then
      horizontal (clampTo (vx (bmin w)) (vx (bmax w)) px)
                 (clampTo (vy (bmin w)) (vy (bmax w)) py)
    else f0.
Proof.
  intros Hpos Hf Hd horizontal w.
  unfold Sampler_sample, samplerFor.
  cbn [samplerPlug samplerChannelName boundingMode].
  change (Vertical =? Vertical)%Z with true. cbn iota.
  change (dataWindow (horizontalPassPlug' node)) with w.
  rewrite !(pixel_horizontalPassPlug node filter) by assumption.
  reflexivity.
Qed.

End ReadingHorizontalPass.

(** ** Exact arithmetic: the two passes against the single pass *)

Section ExactArithmetic.

Import Exact.
Local Open Scope Qc_scope.

Ltac exact_ops :=
  cbn [fadd fsub fmul fdiv f0 f1 feqb fltb Exact.ops] in *; unfold Exact.ofQ, Tap in *.

Lemma exact_eqb (a b : Qc) : feqb a b = true <-> a = b.
Proof.
  exact_ops. destruct (Qc_eq_dec a b); split; intros; congruence.
Qed.

Lemma exact_ltb (a b : Qc) : fltb a b = true <-> a < b.
Proof.
  exact_ops. rewrite Qclt_alt. destruct (a ?= b); split; intros; congruence.
Qed.

Lemma exact_pos (a : Qc) : fltb f0 a = true <-> 0 < a.
Proof. apply exact_ltb. Qed.

Lemma exact_neg (a : Qc) : fltb a f0 = true <-> a < 0.
Proof. apply exact_ltb. Qed.

Lemma fold_left_total {A : Type} (g : A -> Qc) (l : list A) (s : Qc) :
  fold_left (fun s a => fadd s (g a)) l s = s + total g l.
Proof.
  revert s. induction l as [|a l IH]; intros s; cbn [fold_left total].
  - ring.
  - rewrite IH. exact_ops. ring.
Qed.

Lemma total_ext {A : Type} (g g' : A -> Qc) (l : list A) :
  (forall a, In a l -> g a = g' a) -> total g l = total g' l.
Proof.
  induction l as [|a l IH]; intros Hg; cbn [total]; [reflexivity|].
  rewrite Hg by (left; reflexivity). f_equal. apply IH. intros; apply Hg; right; assumption.
Qed.

Lemma total_map {A B : Type} (g : B -> Qc) (f : A -> B) (l : list A) :
  total g (map f l) = total (fun a => g (f a)) l.
Proof. induction l as [|a l IH]; cbn [map total]; [reflexivity | by rewrite <- IH]. Qed.

Lemma total_app {A : Type} (g : A -> Qc) (l1 l2 : list A) :
  total g (l1 ++ l2) = total g l1 + total g l2.
Proof.
  induction l1 as [|a l IH]; cbn [app total]; [ring|].
  rewrite IH. ring.
Qed.

Lemma total_flat_map {A B : Type} (g : B -> Qc) (f : A -> list B) (l : list A) :
  total g (flat_map f l) = total (fun a => total g (f a)) l.
Proof.
  induction l as [|a l IH]; cbn [flat_map total]; [reflexivity|].
  rewrite total_app, IH. reflexivity.
Qed.

Lemma total_scale_l {A : Type} (c : Qc) (g : A -> Qc) (l : list A) :
  total (fun a => c * g a) l = c * total g l.
Proof.
  induction l as [|a l IH]; cbn [total]; [ring|].
  rewrite IH. ring.
Qed.

Lemma total_scale_r {A : Type} (c : Qc) (g : A -> Qc) (l : list A) :
  total (fun a => g a * c) l = total g l * c.
Proof.
  induction l as [|a l IH]; cbn [total]; [ring|].
  rewrite IH. ring.
Qed.

Lemma total_zero {A : Type} (g : A -> Qc) (l : list A) :
  (forall a, In a l -> g a = 0) -> total g l = 0.
Proof.
  induction l as [|a l IH]; intros Hg; cbn [total]; [reflexivity|].
  rewrite Hg by (left; reflexivity). rewrite IH; [ring|].
  intros; apply Hg; right; assumption.
Qed.

(** Dropping the taps of weight zero does not change an exact sum
    whose terms vanish with the weight. *)
Lemma total_nonZero (g : @Tap Qc -> Qc) (l : list (@Tap Qc)) :
  (forall t, fst t = 0 -> g t = 0) -> total g (nonZero l) = total g l.
Proof.
  intros Hg. induction l as [|t l IH]; cbn [nonZero List.filter]; [reflexivity|].
  fold (nonZero l). destruct (feqb t.1 f0) eqn:Hz; cbn [negb total].
  - apply exact_eqb in Hz. rewrite IH, (Hg _ Hz). ring.
  - rewrite IH. reflexivity.
Qed.

Lemma weightSum_total (l : list (@Tap Qc)) :
  weightSum (nonZero l) = total fst l.
Proof.
  unfold weightSum. rewrite fold_left_total, total_nonZero by auto.
  exact_ops. ring.
Qed.

Lemma weightedSum_total (sample : Z -> Z -> Qc) (l : list (@Tap Qc)) :
  weightedSum sample (nonZero l) = total (fun t => fst t * sample t.2.1 t.2.2) l.
Proof.
  unfold weightedSum.
  rewrite (fold_left_total (fun t => fmul t.1 (sample t.2.1 t.2.2))).
  rewrite total_nonZero.
  - exact_ops. ring.
  - intros t Ht. exact_ops. rewrite Ht. ring.
Qed.

Lemma weightedAverage_total (sample : Z -> Z -> Qc) (l : list (@Tap Qc)) :
  weightedAverage sample l =
    if fltb f0 (total fst l)
    then total (fun t => fst t * sample t.2.1 t.2.2) l / total fst l
    else 0.
Proof.
  unfold weightedAverage. rewrite weightSum_total, weightedSum_total. reflexivity.
Qed.


(** *** Reading rows outside the data window *)

Lemma contains_spec (b : Box2i) (px py : Z) :
  contains b px py = true <->
  (vx (bmin b) <= px <= vx (bmax b))%Z /\ (vy (bmin b) <= py <= vy (bmax b))%Z.
Proof.
  unfold contains. rewrite !andb_true_iff, !Z.leb_le. tauto.
Qed.

Lemma clampTo_idempotent (lo hi p : Z) :
  clampTo lo hi (clampTo lo hi p) = clampTo lo hi p.
Proof. unfold clampTo. lia. Qed.

Lemma clampTo_inside (lo hi p : Z) : (lo <= p <= hi)%Z -> clampTo lo hi p = p.
Proof. unfold clampTo. lia. Qed.

Lemma clampTo_outside (lo hi p : Z) :
  ~ (lo <= p <= hi)%Z -> ~ (lo <= clampTo lo hi p <= hi)%Z \/ clampTo lo hi p <> p.
Proof. unfold clampTo. lia. Qed.

Section Rows.

Variable tileSize : Z.
Variable plug : ImagePlug Qc.
Variable channelName : string.
Variable mode : Z.

Local Abbreviation read := (readPlug tileSize plug channelName mode).
Local Abbreviation lowY := (vy (bmin (dataWindow plug))).
Local Abbreviation highY := (vy (bmax (dataWindow plug))).

(** In mode Black a row outside the window reads as zero. *)
Lemma read_row_black (px py : Z) :
  ~ (lowY <= py <= highY)%Z -> mode <> Clamp -> read px py = 0.
Proof.
  intros Hout Hm. unfold readPlug.
  destruct (contains _ px py) eqn:Hc.
  - apply contains_spec in Hc. tauto.
  - destruct (Z.eqb_spec mode Clamp); [contradiction | reflexivity].
Qed.

(** In mode Clamp a row outside the window reads as the nearest
    row of the window. *)
Lemma read_row_clamp (px py : Z) :
  ~ (lowY <= py <= highY)%Z -> mode = Clamp ->
  read px (clampTo lowY highY py) = read px py.
Proof.
  intros Hout ->. unfold readPlug. change (Clamp =? Clamp)%Z with true. cbn iota.
  destruct (contains _ px py) eqn:Hc; [apply contains_spec in Hc; tauto|].
  destruct (contains _ px (clampTo _ _ py)) eqn:Hc'.
  - apply contains_spec in Hc' as [Hx _].
    rewrite (clampTo_inside _ _ px) by exact Hx. reflexivity.
  - rewrite clampTo_idempotent. reflexivity.
Qed.

End Rows.


(** *** The two passes against the single pass *)

Section TwoPasses.

Variable filterTable : list (FilterDesc Qc).
Variable Filter2D_create : string -> Qc -> Qc -> Filter2D Qc.
Variable tileSize : Z.

Local Abbreviation createFilter' := (createFilter filterTable Filter2D_create).
Local Abbreviation horizontalPassPlug' :=
  (horizontalPassPlug filterTable Filter2D_create tileSize).
Local Abbreviation computeChannelData' :=
  (computeChannelData filterTable Filter2D_create tileSize).
Local Abbreviation ratioOf node :=
  (fst (ratioAndOffset (dataWindowPlug node) (dataWindow (inPlug node)))).
Local Abbreviation offsetOf node :=
  (snd (ratioAndOffset (dataWindowPlug node) (dataWindow (inPlug node)))).

Variable filter : Filter2D Qc.
Variables ratio offset : V2 Qc.
Variable sample : Z -> Z -> Qc.

(** The weighted sample of a tap. *)
Local Abbreviation term := (fun t : Qc * (Z * Z) => fst t * sample t.2.1 t.2.2).

Lemma tapsHorizontal_weight_row (ox oy oy' : Z) :
  total fst (tapsHorizontal filter ratio offset ox oy)
  = total fst (tapsHorizontal filter ratio offset ox oy').
Proof.
  unfold tapsHorizontal. destruct (floorfrac _) as [iXF iXI].
  rewrite !total_map. reflexivity.
Qed.

Lemma tapsBoth_weight (ox oy : Z) :
  Separable filter ->
  total fst (tapsBoth filter ratio offset ox oy)
  = total fst (tapsHorizontal filter ratio offset ox oy)
    * total fst (tapsVertical filter ratio offset ox oy).
Proof.
  intros [_ Hsep]. unfold tapsBoth, tapsHorizontal, tapsVertical.
  destruct (floorfrac (pixelCentre ox _ _)) as [iXF iXI].
  destruct (floorfrac (pixelCentre oy _ _)) as [iYF iYI].
  rewrite total_flat_map, !total_map. cbn [fst].
  rewrite <- total_scale_l. apply total_ext. intros fY _.
  rewrite total_map. cbn [fst]. rewrite <- total_scale_r.
  apply total_ext. intros fX _. rewrite Hsep. reflexivity.
Qed.

Lemma tapsBoth_weighted (ox oy : Z) :
  Separable filter ->
  total term (tapsBoth filter ratio offset ox oy)
  = total (fun t => fst t * total term (tapsHorizontal filter ratio offset ox t.2.2))
          (tapsVertical filter ratio offset ox oy).
Proof.
  intros [_ Hsep]. unfold tapsBoth, tapsHorizontal, tapsVertical.
  destruct (floorfrac (pixelCentre ox _ _)) as [iXF iXI].
  destruct (floorfrac (pixelCentre oy _ _)) as [iYF iYI].
  rewrite total_flat_map, !total_map. cbn [fst snd].
  apply total_ext. intros fY _.
  rewrite !total_map. cbn [fst snd]. rewrite <- total_scale_l.
  apply total_ext. intros fX _. rewrite Hsep. exact_ops. ring.
Qed.


Lemma exact_mult_pos (a b : Qc) : 0 < a -> 0 < b -> 0 < a * b.
Proof.
  intros Ha Hb. rewrite <- (Qcmult_0_l b). apply Qcmult_lt_compat_r; assumption.
Qed.

Variable node : ResampleNode Qc.
Variable channelName : string.

Hypothesis Hfilter :
  createFilter' (filterPlug node) (filterWidthPlug node) (ratioOf node) = Ok filter.
Hypothesis Hratio : ratio = ratioOf node.
Hypothesis Hoffset : offset = offsetOf node.
Hypothesis Hsample :
  sample = readPlug tileSize (inPlug node) channelName (boundingModePlug node).
Hypothesis Htile : (0 < tileSize)%Z.
Hypothesis Hdebug : debugPlug node <> SinglePass.

Lemma exact_mult_not_pos (a b : Qc) :
  ~ (a < 0 /\ b < 0) -> ~ (0 < a /\ 0 < b) -> ~ 0 < a * b.
Proof.
  intros Hneg Hpos Hprod.
  destruct (Qclt_le_dec 0 a) as [Ha|Ha]; destruct (Qclt_le_dec 0 b) as [Hb|Hb].
  - apply Hpos. split; assumption.
  - pose proof (Qcmult_le_compat_r b 0 a Hb (Qclt_le_weak _ _ Ha)) as Hle.
    rewrite Qcmult_0_l, Qcmult_comm in Hle. exact (Qcle_not_lt _ _ Hle Hprod).
  - pose proof (Qcmult_le_compat_r a 0 b Ha (Qclt_le_weak _ _ Hb)) as Hle.
    rewrite Qcmult_0_l in Hle. exact (Qcle_not_lt _ _ Hle Hprod).
  - destruct (Qcle_lt_or_eq _ _ Ha) as [Ha'|Ha'].
    + destruct (Qcle_lt_or_eq _ _ Hb) as [Hb'|Hb'].
      * apply Hneg. split; assumption.
      * subst b. rewrite Qcmult_0_r in Hprod. exact (Qcle_not_lt _ _ (Qcle_refl 0) Hprod).
    + subst a. rewrite Qcmult_0_l in Hprod. exact (Qcle_not_lt _ _ (Qcle_refl 0) Hprod).
Qed.

(** At a column of the destination window, the sampler of the
    vertical pass reads, on every row, the horizontal weighted sum of
    that row over the horizontal weight sum when that sum is positive,
    and zero when it is not. *)
Lemma vertical_pass_reads (region : Box2i) (ox oy py : Z) :
  (vx (bmin (box2fToBox2i (dataWindowPlug node))) <= ox
   <= vx (bmax (box2fToBox2i (dataWindowPlug node))))%Z ->
  Sampler_sample tileSize
    (samplerFor node (horizontalPassPlug' node) Vertical channelName region) ox py
  = if fltb f0 (total fst (tapsHorizontal filter ratio offset ox oy))
    then total term (tapsHorizontal filter ratio offset ox py)
         / total fst (tapsHorizontal filter ratio offset ox oy)
    else 0.
Proof.
  intros Hox.
  rewrite (Sampler_sample_horizontalPass filterTable Filter2D_create tileSize
             node filter channelName region ox py Htile Hfilter Hdebug).
  rewrite <- Hratio, <- Hoffset, <- Hsample.
  assert (Hrow : forall qy,
             weightedAverage sample (tapsHorizontal filter ratio offset ox qy)
             = if fltb f0 (total fst (tapsHorizontal filter ratio offset ox oy))
               then total term (tapsHorizontal filter ratio offset ox qy)
                    / total fst (tapsHorizontal filter ratio offset ox oy)
               else 0).
  { intros qy. rewrite weightedAverage_total.
    rewrite (tapsHorizontal_weight_row ox qy oy). reflexivity. }
  unfold computeDataWindow. cbn [isOutPlug negb orb bmin bmax vx vy].
  destruct (contains _ ox py) eqn:Hc; [apply Hrow|].
  assert (Hout : ~ (vy (bmin (dataWindow (inPlug node))) <= py
                    <= vy (bmax (dataWindow (inPlug node))))%Z).
  { intros Hy. apply not_true_iff_false in Hc. apply Hc.
    apply contains_spec. cbn [bmin bmax vx vy]. auto. }
  destruct (Z.eqb_spec (boundingModePlug node) Clamp) as [Hm|Hm].
  - rewrite clampTo_inside by exact Hox. rewrite Hrow.
    destruct (fltb f0 _); [|reflexivity]. f_equal.
    unfold tapsHorizontal. destruct (floorfrac _) as [iXF iXI].
    rewrite !total_map. apply total_ext. intros fX _. cbn [fst snd].
    rewrite Hsample, read_row_clamp by assumption. reflexivity.
  - destruct (fltb f0 _); [|reflexivity].
    rewrite (total_zero term).
    + exact_ops. unfold Qcdiv. ring.
    + intros t Ht. unfold tapsHorizontal in Ht.
      destruct (floorfrac _) as [iXF iXI]. apply in_map_iff in Ht as (fX & <- & _).
      cbn [fst snd]. rewrite Hsample, read_row_black by assumption. ring.
Qed.

(** The pixel of the vertical pass over the horizontal-pass raster
    is the pixel of the single pass, unless both weight sums are
    negative. *)
Lemma two_pass_average (region : Box2i) (ox oy : Z) :
  Separable filter ->
  (vx (bmin (box2fToBox2i (dataWindowPlug node))) <= ox
   <= vx (bmax (box2fToBox2i (dataWindowPlug node))))%Z ->
  fltb (weightSum (nonZero (tapsHorizontal filter ratio offset ox oy))) f0
  && fltb (weightSum (nonZero (tapsVertical filter ratio offset ox oy))) f0 = false ->
  weightedAverage
    (Sampler_sample tileSize
       (samplerFor node (horizontalPassPlug' node) Vertical channelName region))
    (tapsVertical filter ratio offset ox oy)
  = weightedAverage sample (tapsBoth filter ratio offset ox oy).
Proof.
  intros Hsep Hox Hsign.
  rewrite !weightSum_total in Hsign.
  rewrite !weightedAverage_total.
  rewrite (tapsBoth_weight ox oy Hsep), (tapsBoth_weighted ox oy Hsep).
  set (Wx := total fst (tapsHorizontal filter ratio offset ox oy)) in *.
  set (Wy := total fst (tapsVertical filter ratio offset ox oy)) in *.
  assert (Hneg : ~ (Wx < 0 /\ Wy < 0)).
  { intros [Hx Hy]. apply exact_neg in Hx, Hy. rewrite Hx, Hy in Hsign. discriminate. }
  assert (Hreads :
    total (fun t : Qc * (Z * Z) =>
             t.1 * Sampler_sample tileSize
                     (samplerFor node (horizontalPassPlug' node) Vertical
                        channelName region) t.2.1 t.2.2)
          (tapsVertical filter ratio offset ox oy)
    = if fltb f0 Wx
      then total (fun t => fst t * total term (tapsHorizontal filter ratio offset ox t.2.2))
                 (tapsVertical filter ratio offset ox oy) / Wx
      else 0).
  { destruct (fltb f0 Wx) eqn:Hx.
    - unfold Qcdiv. rewrite <- total_scale_r. apply total_ext. intros t Ht.
      unfold tapsVertical in Ht. destruct (floorfrac _) as [iYF iYI].
      apply in_map_iff in Ht as (fY & <- & _). cbn [fst snd].
      rewrite (vertical_pass_reads region ox oy) by assumption.
      fold Wx. rewrite Hx. unfold Qcdiv. ring.
    - apply total_zero. intros t Ht.
      unfold tapsVertical in Ht. destruct (floorfrac _) as [iYF iYI].
      apply in_map_iff in Ht as (fY & <- & _). cbn [fst snd].
      rewrite (vertical_pass_reads region ox oy) by assumption.
      fold Wx. rewrite Hx. ring. }
  rewrite Hreads.
  destruct (fltb f0 Wy) eqn:Hy; destruct (fltb f0 Wx) eqn:Hx.
  - apply exact_pos in Hx, Hy.
    pose proof (exact_mult_pos _ _ Hx Hy) as Hprod.
    apply exact_pos in Hprod. rewrite Hprod.
    apply Qclt_not_eq in Hx, Hy. exact_ops. field. split; congruence.
  - assert (Hprod : fltb f0 (Wx * Wy) = false).
    { apply not_true_iff_false. rewrite exact_pos. apply exact_mult_not_pos; [exact Hneg|].
      intros [Hx' _]. apply exact_pos in Hx'. congruence. }
    rewrite Hprod. exact_ops. unfold Qcdiv. ring.
  - assert (Hprod : fltb f0 (Wx * Wy) = false).
    { apply not_true_iff_false. rewrite exact_pos. apply exact_mult_not_pos; [exact Hneg|].
      intros [_ Hy']. apply exact_pos in Hy'. congruence. }
    rewrite Hprod. reflexivity.
  - assert (Hprod : fltb f0 (Wx * Wy) = false).
    { apply not_true_iff_false. rewrite exact_pos. apply exact_mult_not_pos; [exact Hneg|].
      intros [_ Hy']. apply exact_pos in Hy'. congruence. }
    rewrite Hprod. reflexivity.
Qed.

End TwoPasses.


(** X19.  The two passes compute the single pass.  In exact
    arithmetic, for a separable kernel (one whose 2D weight is the
    product of its 1D weights) and a node outside the debug modes,
    the tile computed for the main output by the vertical pass over
    the horizontal-pass raster and the tile computed by the single
    pass agree exactly at every pixel of the tile that lies within
    the horizontal extent of the destination data window and whose
    horizontal and vertical weight sums are not both negative. *)
Theorem two_pass_equals_single_pass
    (filterTable : list (FilterDesc Qc))
    (Filter2D_create : string -> Qc -> Qc -> Filter2D Qc) (tileSize : Z)
    (node : ResampleNode Qc) (filter : Filter2D Qc) (channelName : string)
    (tileOrigin : V2i) (ox oy : Z) :
  let ratio := fst (ratioAndOffset (dataWindowPlug node) (dataWindow (inPlug node))) in
  let offset := snd (ratioAndOffset (dataWindowPlug node) (dataWindow (inPlug node))) in
  debugPlug node <> HorizontalPass ->
  debugPlug node <> SinglePass ->
  createFilter filterTable Filter2D_create (filterPlug node) (filterWidthPlug node) ratio
    = Ok filter ->
  Separable filter ->
  inTile tileSize tileOrigin ox oy ->
  (vx (bmin (box2fToBox2i (dataWindowPlug node))) <= ox
   <= vx (bmax (box2fToBox2i (dataWindowPlug node))))%Z ->
  fltb (weightSum (nonZero (tapsHorizontal filter ratio offset ox oy))) f0
  && fltb (weightSum (nonZero (tapsVertical filter ratio offset ox oy))) f0 = false ->
  exists (twoPass singlePass : list Qc) (value : Qc),
    computeChannelData filterTable Filter2D_create tileSize node channelName tileOrigin
      OutPlug = Ok twoPass /\
    computeChannelData filterTable Filter2D_create tileSize (withDebug SinglePass node)
      channelName tileOrigin OutPlug = Ok singlePass /\
    twoPass !! bufferIndex tileSize tileOrigin ox oy = Some value /\
    singlePass !! bufferIndex tileSize tileOrigin ox oy = Some value.
Proof.
  intros ratio offset Hh Hs Hf Hsep Hin Hox Hsign.
  assert (Htile : (0 < tileSize)%Z) by (destruct Hin; lia).
  pose proof (computeChannelData_ok filterTable Filter2D_create tileSize node
                channelName tileOrigin OutPlug filter Hf) as Htwo.
  pose proof (computeChannelData_ok filterTable Filter2D_create tileSize
                (withDebug SinglePass node) channelName tileOrigin OutPlug filter Hf)
    as Hone.
  cbv zeta in Htwo, Hone.
  rewrite (requiredPasses_outPlug _ _ Hh Hs) in Htwo. destruct Hsep as [Hsepb Hsepw].
  rewrite Hsepb in Htwo.
  change (requiredPasses (debugPlug (withDebug SinglePass node)) OutPlug filter)
    with Both in Hone.
  eexists _, _, _. split; [exact Htwo|]. split; [exact Hone|].
  split.
  - apply (computeTile_lookup tileSize filter _ _ _ tileOrigin Vertical ox oy);
      [right; right; reflexivity | exact Hin].
  - rewrite (computeTile_lookup tileSize filter _ _ _ tileOrigin Both ox oy)
      by (first [left; reflexivity | exact Hin]).
    f_equal.
    change (tapsOf Both ?f ?r ?o ox oy) with (tapsBoth f r o ox oy).
    change (tapsOf Vertical ?f ?r ?o ox oy) with (tapsVertical f r o ox oy).
    symmetry.
    apply (two_pass_average filterTable Filter2D_create tileSize filter ratio offset
             _ node channelName Hf eq_refl eq_refl eq_refl Htile Hs);
      [split; assumption | exact Hox | exact Hsign].
Qed.

End ExactArithmetic.

(** ** The theorems at concrete nodes, in binary32 arithmetic *)

Section Float32Cases.

Import Binary32 Float32.
Local Open Scope string_scope.

(** C7 at the box kernel, which is separable: Horizontal in the
    HorizontalPass mode, Both in the SinglePass mode, Vertical for the
    main output with debugging off. *)
Lemma requiredPasses_cases_witness :
  requiredPasses HorizontalPass OutPlug boxKernel = Horizontal /\
  requiredPasses SinglePass HorizontalPassPlug boxKernel = Both /\
  Off <> HorizontalPass /\ Off <> SinglePass /\
  requiredPasses Off OutPlug boxKernel = Vertical.
Proof.
  split; [apply (requiredPasses_cases HorizontalPass OutPlug boxKernel); reflexivity|].
  split; [apply (requiredPasses_cases SinglePass HorizontalPassPlug boxKernel); reflexivity|].
  split; [discriminate|]. split; [discriminate|].
  apply (requiredPasses_cases Off OutPlug boxKernel); discriminate.
Defined.


(** C1 at the pixel (3, 5) of the tile at the origin, for the box
    kernel at ratio 1. *)
Lemma pixel_is_weighted_average_witness :
  inTile tile (mkV2 0 0) 3 5 /\
  data (computeTile tile boxKernel Both unit zero ramp (mkV2 0 0))
    !! bufferIndex tile (mkV2 0 0) 3 5
    = Some (weightedAverage ramp (tapsBoth boxKernel unit zero 3 5)) /\
  data (computeTile tile boxKernel Horizontal unit zero ramp (mkV2 0 0))
    !! bufferIndex tile (mkV2 0 0) 3 5
    = Some (weightedAverage ramp (tapsHorizontal boxKernel unit zero 3 5)) /\
  data (computeTile tile boxKernel Vertical unit zero ramp (mkV2 0 0))
    !! bufferIndex tile (mkV2 0 0) 3 5
    = Some (weightedAverage ramp (tapsVertical boxKernel unit zero 3 5)).
Proof.
  assert (Hin : inTile tile (mkV2 0 0) 3 5) by (unfold inTile, tile; cbn; lia).
  split; [exact Hin|].
  exact (pixel_is_weighted_average tile boxKernel unit zero ramp (mkV2 0 0) 3 5 Hin).
Defined.

(** C10 at the tile size 64. *)
Lemma tile_buffer_writes_witness :
  (0 <= tile)%Z /\
  length (data (computeTile tile boxKernel Horizontal unit zero ramp (mkV2 0 0)))
    = Z.to_nat (tile * tile).
Proof.
  assert (Hpos : (0 <= tile)%Z) by (unfold tile; lia).
  split; [exact Hpos|].
  exact (proj1 (tile_buffer_writes tile boxKernel Horizontal unit zero ramp (mkV2 0 0) Hpos)).
Defined.

(** C10, counterexample.  With a box kernel of requested width 1/2
    at ratio 2 every tap of every pixel has weight zero: the
    iterator is advanced 64 × 64 times and nothing is written. *)
Lemma exactly_tile_writes_counterexample :
  exists st,
    runChannelData boxTable FilterBox2D tile
      (horizontalPassPlug boxTable FilterBox2D tile doubleNode) doubleNode "R"
      (mkV2 0 0) OutPlug = Ok st /\
    pIt st = Z.to_nat (tile * tile) /\
    written st = [].
Proof.
  eexists. split; [vm_compute; reflexivity|]. split; reflexivity.
Qed.


Local Abbreviation ratioOf node :=
  (fst (ratioAndOffset (dataWindowPlug node) (dataWindow (inPlug node)))).
Local Abbreviation offsetOf node :=
  (snd (ratioAndOffset (dataWindowPlug node) (dataWindow (inPlug node)))).

Lemma quarterNode_filter :
  createFilter boxTable FilterBox2D (filterPlug quarterNode) (filterWidthPlug quarterNode)
    (ratioOf quarterNode)
  = Ok (FilterBox2D "box" (fl 4 0) (fl 4 0)).
Proof. vm_compute. reflexivity. Qed.

(** C3, at a failing input.  Downsizing a 256 × 256 image to 64 × 64
    (ratio 1/4) with a box kernel of width 4, the input region of the
    tile at the origin starts at column -2, and the horizontal loop
    passes the source pixel (-6, 0), whose weight is not zero, to the
    sampler. *)
Theorem inputRegion_misses_sampled_pixel :
  exists st,
    runChannelData boxTable FilterBox2D tile (inPlug quarterNode) quarterNode "R"
      (mkV2 0 0) HorizontalPassPlug = Ok st /\
    inputRegion tile (mkV2 0 0) Horizontal (ratioOf quarterNode) (offsetOf quarterNode)
      (FilterBox2D "box" (fl 4 0) (fl 4 0)) = window (-2) 0 258 64 /\
    In (-6, 0) (sampled st) /\
    contains (window (-2) 0 258 64) (-6) 0 = false.
Proof.
  eexists. split; [exact (runChannelData_ok _ _ _ _ _ _ _ _ _ quarterNode_filter)|].
  split; [vm_compute; reflexivity|]. split; [|reflexivity].
  apply (computeTile_sampled tile _ _ _ _ (mkV2 0 0) Horizontal 0 0 (fl 1 0, (-6, 0))).
  - right; left; reflexivity.
  - unfold inTile, tile; cbn; lia.
  - vm_compute. left. reflexivity.
Qed.



Lemma stretchNode_filter (rows : Z) (h : float) :
  (rows = 2 /\ h = fl 1 0) \/ (rows = 4 /\ h = fl 2 0) ->
  createFilter boxTable FilterBox2D (filterPlug (stretchNode rows "box" zero Off))
    (filterWidthPlug (stretchNode rows "box" zero Off))
    (ratioOf (stretchNode rows "box" zero Off))
  = Ok (FilterBox2D "box" (fl 1 0) h).
Proof. intros [[-> ->] | [-> ->]]; vm_compute; reflexivity. Qed.

(** C4 for the main output of the block stretched to 4 rows: the
    pass is Vertical, and the hash is the operation identity, the
    name box, the height 2, the vertical ratio 2 and offset 0, the
    sampler's values and the tile origin. *)
Lemma hashChannelData_sequence_witness :
  createFilter boxTable FilterBox2D (filterPlug (stretchNode 4 "box" zero Off))
    (filterWidthPlug (stretchNode 4 "box" zero Off))
    (ratioOf (stretchNode 4 "box" zero Off))
  = Ok (FilterBox2D "box" (fl 1 0) (fl 2 0)) /\
  hashChannelData boxTable FilterBox2D tile baseHash windowHash
    (stretchNode 4 "box" zero Off) OutPlug (request 0 0 "R") []
  = Ok [HString "Resample"; HString "box";
        HFloat (fl 2 0); HFloat (fl 2 0); HFloat (fl 0 0);
        HBox2i (window 0 (-1) 64 33); HInt Black; HV2i (mkV2 0 0)].
Proof.
  assert (Hf := stretchNode_filter 4 (fl 2 0) ltac:(right; split; reflexivity)).
  split; [exact Hf|].
  pose proof (proj1 (hashChannelData_sequence boxTable FilterBox2D tile baseHash windowHash
                (stretchNode 4 "box" zero Off) OutPlug (request 0 0 "R") [] _ Hf)) as Hs.
  vm_compute in Hs |- *. exact Hs.
Defined.

(** C4, counterexample.  Two requests for the same tile of the
    horizontal-pass raster whose destination data windows differ (2
    rows against 4) have the same hash, whatever the operation
    identity and the sampler append. *)
Lemma destination_window_counterexample :
  dataWindowPlug (stretchNode 2 "box" zero Off)
    <> dataWindowPlug (stretchNode 4 "box" zero Off) /\
  forall base samplerHash h,
    hashChannelData boxTable FilterBox2D tile base samplerHash
      (stretchNode 2 "box" zero Off) HorizontalPassPlug (request 0 0 "R") h
    = hashChannelData boxTable FilterBox2D tile base samplerHash
        (stretchNode 4 "box" zero Off) HorizontalPassPlug (request 0 0 "R") h.
Proof.
  split; [discriminate|]. intros base samplerHash h.
  apply (hashChannelData_horizontal_ext boxTable FilterBox2D tile base samplerHash
           (stretchNode 2 "box" zero Off) (stretchNode 4 "box" zero Off)
           (FilterBox2D "box" (fl 1 0) (fl 1 0)) (FilterBox2D "box" (fl 1 0) (fl 2 0))).
  - apply stretchNode_filter. left. split; reflexivity.
  - apply stretchNode_filter. right. split; reflexivity.
  - discriminate.
  - discriminate.
  - reflexivity.
  - vm_compute. reflexivity.
  - vm_compute. reflexivity.
  - reflexivity.
  - reflexivity.
  - reflexivity.
Qed.


Lemma emptyNode_filter :
  createFilter boxTable FilterBox2D (filterPlug emptyNode) (filterWidthPlug emptyNode)
    (ratioOf emptyNode)
  = Ok boxKernel.
Proof. vm_compute. reflexivity. Qed.

(** C5, counterexample.  With a source window and a destination
    window of size zero (max = min - 1 on both axes) no error is
    raised: Box::size() answers zero for the empty boxes, both sizes
    become 1, the ratio is (1, 1), the offset (0, 0), and the tile
    and its hash are computed. *)
Lemma zero_size_window_counterexample :
  (vx (bmax (dataWindow (inPlug emptyNode))) - vx (bmin (dataWindow (inPlug emptyNode)))
     + 1 = 0)%Z /\
  fadd (fsub (vx (bmax (dataWindowPlug emptyNode))) (vx (bmin (dataWindowPlug emptyNode))))
       (fl 1 0) = fl 0 0 /\
  ratioAndOffset (dataWindowPlug emptyNode) (dataWindow (inPlug emptyNode)) = (unit, zero) /\
  (exists buffer,
     computeChannelData boxTable FilterBox2D tile emptyNode "R" (mkV2 0 0) OutPlug
       = Ok buffer) /\
  (exists h,
     hashChannelData boxTable FilterBox2D tile baseHash windowHash emptyNode OutPlug
       (request 0 0 "R") [] = Ok h).
Proof.
  split; [reflexivity|]. split; [vm_compute; reflexivity|].
  split; [vm_compute; reflexivity|]. split.
  - eexists. exact (computeChannelData_ok _ _ _ _ _ _ _ _ emptyNode_filter).
  - eexists. exact (hashChannelData_ok _ _ _ _ _ _ _ _ _ _ emptyNode_filter).
Qed.

Lemma defaultNode_filter (rows : Z) (filter : Filter2D float) :
  (rows = 1 /\ filter = FilterBox2D "lanczos3" (fl 6 0) (fl 6 0)) \/
  (rows = 4 /\ filter = FilterBox2D "blackman-harris" (fl 3 0) (fl 6 0)) ->
  createFilter boxTable FilterBox2D (filterPlug (stretchNode rows EmptyString zero Off))
    (filterWidthPlug (stretchNode rows EmptyString zero Off))
    (ratioOf (stretchNode rows EmptyString zero Off))
  = Ok filter.
Proof. intros [[-> ->] | [-> ->]]; vm_compute; reflexivity. Qed.

Lemma singlePassNode_filter (h : float) :
  h = fl 1 0 \/ h = fl 2 0 ->
  createFilter boxTable FilterBox2D
    (filterPlug (stretchNode 2 "box" (mkV2 (fl 1 0) h) SinglePass))
    (filterWidthPlug (stretchNode 2 "box" (mkV2 (fl 1 0) h) SinglePass))
    (ratioOf (stretchNode 2 "box" (mkV2 (fl 1 0) h) SinglePass))
  = Ok (FilterBox2D "box" (fl 1 0) h).
Proof. intros [-> | ->]; vm_compute; reflexivity. Qed.

(** C6, counterexample.  With the filter name left empty, two
    configurations with the same horizontal ratio (1) and offset (0)
    that differ in the height of the destination window only, so in
    the vertical ratio (1/2 against 2), give the horizontal-pass
    raster different hashes: createFilter resolves the first to
    lanczos3 and the second to blackman-harris.  And in the
    SinglePass debug mode two configurations that differ in the
    requested kernel height only give it different hashes. *)
Lemma horizontal_pass_counterexample :
  (vx (ratioOf (stretchNode 1 EmptyString zero Off))
     = vx (ratioOf (stretchNode 4 EmptyString zero Off)) /\
   vx (offsetOf (stretchNode 1 EmptyString zero Off))
     = vx (offsetOf (stretchNode 4 EmptyString zero Off)) /\
   forall base samplerHash h,
     hashChannelData boxTable FilterBox2D tile base samplerHash
       (stretchNode 1 EmptyString zero Off) HorizontalPassPlug (request 0 0 "R") h
     <> hashChannelData boxTable FilterBox2D tile base samplerHash
          (stretchNode 4 EmptyString zero Off) HorizontalPassPlug (request 0 0 "R") h) /\
  (forall base samplerHash h,
     hashChannelData boxTable FilterBox2D tile base samplerHash
       (stretchNode 2 "box" (mkV2 (fl 1 0) (fl 1 0)) SinglePass) HorizontalPassPlug
       (request 0 0 "R") h
     <> hashChannelData boxTable FilterBox2D tile base samplerHash
          (stretchNode 2 "box" (mkV2 (fl 1 0) (fl 2 0)) SinglePass) HorizontalPassPlug
          (request 0 0 "R") h).
Proof.
  split; [split; [vm_compute; reflexivity | split; [vm_compute; reflexivity|]]|].
  - intros base samplerHash h.
    rewrite (hashChannelData_ok _ _ _ _ _ _ _ _ _ _
               (defaultNode_filter 1 _ ltac:(left; split; reflexivity))).
    rewrite (hashChannelData_ok _ _ _ _ _ _ _ _ _ _
               (defaultNode_filter 4 _ ltac:(right; split; reflexivity))).
    intros Heq. apply Ok_inj in Heq.
    change (requiredPasses _ HorizontalPassPlug _) with Horizontal in Heq.
    apply hashSequence_inj in Heq. destruct Heq as (Hname & _).
    discriminate Hname.
  - intros base samplerHash h.
    rewrite (hashChannelData_ok _ _ _ _ _ _ _ _ _ _
               (singlePassNode_filter (fl 1 0) ltac:(left; reflexivity))).
    rewrite (hashChannelData_ok _ _ _ _ _ _ _ _ _ _
               (singlePassNode_filter (fl 2 0) ltac:(right; reflexivity))).
    intros Heq. apply Ok_inj in Heq.
    change (requiredPasses _ HorizontalPassPlug _) with Both in Heq.
    apply hashSequence_inj in Heq. destruct Heq as (_ & _ & Hv & _).
    destruct (Hv eq_refl) as (Hh & _). vm_compute in Hh. discriminate Hh.
Qed.

(** C6 for the block stretched to 2 rows and to 4 rows: the vertical
    ratios (1 and 2) and the kernel heights (1 and 2) differ, the
    horizontal pass has the same hash and the same pixels. *)
Lemma horizontal_pass_independent_witness :
  vy (ratioOf (stretchNode 2 "box" zero Off)) <> vy (ratioOf (stretchNode 4 "box" zero Off)) /\
  hashChannelData boxTable FilterBox2D tile baseHash windowHash
    (stretchNode 2 "box" zero Off) HorizontalPassPlug (request 0 0 "R") []
  = hashChannelData boxTable FilterBox2D tile baseHash windowHash
      (stretchNode 4 "box" zero Off) HorizontalPassPlug (request 0 0 "R") [] /\
  computeChannelData boxTable FilterBox2D tile (stretchNode 2 "box" zero Off) "R"
    (mkV2 0 0) HorizontalPassPlug
  = computeChannelData boxTable FilterBox2D tile (stretchNode 4 "box" zero Off) "R"
      (mkV2 0 0) HorizontalPassPlug.
Proof.
  split; [vm_compute; discriminate|].
  apply (horizontal_pass_independent boxTable FilterBox2D tile baseHash windowHash
           (stretchNode 2 "box" zero Off) (stretchNode 4 "box" zero Off)
           (FilterBox2D "box" (fl 1 0) (fl 1 0)) (FilterBox2D "box" (fl 1 0) (fl 2 0))
           (request 0 0 "R") []).
  - apply stretchNode_filter. left. split; reflexivity.
  - apply stretchNode_filter. right. split; reflexivity.
  - discriminate.
  - discriminate.
  - reflexivity.
  - reflexivity.
  - intros a. reflexivity.
  - vm_compute. reflexivity.
  - vm_compute. reflexivity.
  - reflexivity.
  - reflexivity.
Defined.

End Float32Cases.

(** ** The default kernel at the table of the examples *)

Section DefaultKernelCases.

Import Binary32 Float32.
Local Open Scope string_scope.

(** C9 at the table of the examples: the ratio (2, 1/2) gives the
    kernel blackman-harris, of recommended width 3, the widths
    3 × max( 1, 2 ) and 3 × max( 1, 1/2 ), and the ratio (1/2, 1/2)
    gives the kernel lanczos3, of recommended width 6, the widths 6. *)
Lemma createFilter_default_witness :
  createFilter boxTable FilterBox2D EmptyString zero (mkV2 (fl 2 0) (fl 1 (-1)))
    = Ok (FilterBox2D "blackman-harris" (fl 6 0) (fl 3 0)) /\
  createFilter boxTable FilterBox2D EmptyString zero (mkV2 (fl 1 (-1)) (fl 1 (-1)))
    = Ok (FilterBox2D "lanczos3" (fl 6 0) (fl 6 0)).
Proof.
  pose proof (proj2 createFilter_default boxTable FilterBox2D zero (fl 1 (-1)))
    as (Hup & Hdown & _).
  specialize (Hdown eq_refl).
  split.
  - etransitivity; [exact Hup | vm_compute; reflexivity].
  - etransitivity; [exact Hdown | vm_compute; reflexivity].
Defined.

(** C9, counterexample.  At the ratio (1/2, 2) the horizontal ratio
    is 0.5 and the empty name gives the kernel blackman-harris, the
    default for upsizing, not lanczos3. *)
Lemma downsizing_axis_counterexample :
  exists filter,
    createFilter boxTable FilterBox2D EmptyString zero (mkV2 (fl 1 (-1)) (fl 2 0)) = Ok filter /\
    name filter = "blackman-harris" /\
    name filter <> "lanczos3".
Proof.
  eexists. split; [vm_compute; reflexivity|]. split; [reflexivity | discriminate].
Qed.

End DefaultKernelCases.

(** ** The theorem of the two passes at a concrete node, in exact arithmetic *)

Section RationalCases.

Import Exact Rational.
Local Open Scope string_scope.

(** The box kernel is separable in exact arithmetic. *)
Lemma FilterBox2D_Separable (name : string) (w h : Qc) :
  Separable (FilterBox2D name w h).
Proof.
  split; [reflexivity|]. intros a b. cbn [apply2D xfilt yfilt FilterBox2D].
  unfold boxWeight.
  destruct (withinBox _ a), (withinBox _ b); cbn [andb fmul f0 f1 Exact.ops];
    unfold Exact.ofQ; ring.
Qed.

Lemma halveNode_exact_filter :
  createFilter boxTable FilterBox2D (filterPlug halveNode) (filterWidthPlug halveNode)
    (fst (ratioAndOffset (dataWindowPlug halveNode) (dataWindow (inPlug halveNode))))
  = Ok halveKernel.
Proof.
  unfold createFilter. cbn [filterPlug halveNode String.eqb Ascii.eqb Bool.eqb].
  exact (createFromTable_find FilterBox2D boxTable "box" (filterWidthPlug halveNode)
           (fst (ratioAndOffset (dataWindowPlug halveNode) (dataWindow (inPlug halveNode))))
           {| fd_name := "box"; fd_width := q 1 |} eq_refl).
Qed.

(** X19 at the pixel (0, 0) of the block averaged into one pixel. *)
Lemma two_pass_equals_single_pass_witness :
  exists (twoPass singlePass : list Qc) (value : Qc),
    computeChannelData boxTable FilterBox2D Float32.tile halveNode "R" (mkV2 0 0) OutPlug
      = Ok twoPass /\
    computeChannelData boxTable FilterBox2D Float32.tile (withDebug SinglePass halveNode)
      "R" (mkV2 0 0) OutPlug = Ok singlePass /\
    twoPass !! bufferIndex Float32.tile (mkV2 0 0) 0 0 = Some value /\
    singlePass !! bufferIndex Float32.tile (mkV2 0 0) 0 0 = Some value.
Proof.
  apply (two_pass_equals_single_pass boxTable FilterBox2D Float32.tile halveNode
           halveKernel "R" (mkV2 0 0) 0 0).
  - discriminate.
  - discriminate.
  - exact halveNode_exact_filter.
  - apply FilterBox2D_Separable.
  - unfold inTile, Float32.tile; cbn; lia.
  - vm_compute. split; discriminate.
  - vm_compute. reflexivity.
Defined.

End RationalCases.

(** ** The two passes against the single pass, at concrete nodes *)

Section TwoPassCases.

Import Binary32 Exact.
Local Open Scope string_scope.

Lemma spreadNode_filter (debug : Z) :
  createFilter boxTable FilterBox2D (filterPlug (Rational.spreadNode debug))
    (filterWidthPlug (Rational.spreadNode debug))
    (fst (ratioAndOffset (dataWindowPlug (Rational.spreadNode debug))
            (dataWindow (inPlug (Rational.spreadNode debug)))))
  = Ok (FilterBox2D "box" (Rational.q 8) (Rational.q 8)).
Proof.
  exact (createFromTable_find FilterBox2D boxTable "box"
           (filterWidthPlug (Rational.spreadNode debug))
           (fst (ratioAndOffset (dataWindowPlug (Rational.spreadNode debug))
                   (dataWindow (inPlug (Rational.spreadNode debug)))))
           {| fd_name := "box"; fd_width := Rational.q 1 |} eq_refl).
Qed.

(** X20.  Outside the columns of the destination window the two
    passes differ from the single pass.  In exact arithmetic,
    resampling the 2 × 2 image of ones to the window (0,0)-(3,3) with
    a box kernel of width 8 in mode Black, the pixel (4, 0) of the
    tile, which is outside the destination window, is 1/4 by the
    single pass and 0 by the two passes, because the vertical pass
    reads the horizontal-pass raster outside its data window. *)
Lemma two_pass_differs_outside_columns :
  exists (twoPass singlePass : list Qc) (a b : Qc),
    computeChannelData boxTable FilterBox2D Float32.tile (Rational.spreadNode Off) "R"
      (mkV2 0 0) OutPlug = Ok twoPass /\
    computeChannelData boxTable FilterBox2D Float32.tile
      (withDebug SinglePass (Rational.spreadNode Off)) "R" (mkV2 0 0) OutPlug
      = Ok singlePass /\
    (vx (bmax (box2fToBox2i (dataWindowPlug (Rational.spreadNode Off)))) < 4)%Z /\
    twoPass !! bufferIndex Float32.tile (mkV2 0 0) 4 0 = Some a /\
    singlePass !! bufferIndex Float32.tile (mkV2 0 0) 4 0 = Some b /\
    a = Q2Qc 0 /\ b = Q2Qc (1 # 4).
Proof.
  eexists _, _, _, _.
  split; [exact (computeChannelData_ok _ _ _ _ _ _ _ _ (spreadNode_filter Off))|].
  split; [exact (computeChannelData_ok _ _ _ _ _ _ _ _ (spreadNode_filter SinglePass))|].
  split; [vm_compute; reflexivity|].
  split; [apply computeTile_lookup;
            [right; right; reflexivity | unfold inTile, Float32.tile; cbn; lia]|].
  split; [apply computeTile_lookup;
            [left; reflexivity | unfold inTile, Float32.tile; cbn; lia]|].
  split; apply Qc_is_canon; vm_compute; reflexivity.
Qed.

End TwoPassCases.

(** ** The two strategies through closed forms *)

Section TwoStrategies.

Context {F : Type} `{FloatOps F}.
Local Open Scope float_scope.

Variable filterTable : list (FilterDesc F).
Variable Filter2D_create : string -> F -> F -> Filter2D F.
Variable tileSize : Z.

Local Abbreviation createFilter' := (createFilter filterTable Filter2D_create).
Local Abbreviation computeChannelData' :=
  (computeChannelData filterTable Filter2D_create tileSize).
Local Abbreviation ratioOf node :=
  (fst (ratioAndOffset (dataWindowPlug node) (dataWindow (inPlug node)))).
Local Abbreviation offsetOf node :=
  (snd (ratioAndOffset (dataWindowPlug node) (dataWindow (inPlug node)))).








End TwoStrategies.

(** ** The two passes against the single pass on a representative tile *)

Section RepresentativeTile.

Import Binary32 Float32 Representative.
Local Open Scope string_scope.






End RepresentativeTile.

Section TwoPassCounterexample.

Import Binary32 Float32 Representative.
Local Open Scope string_scope.


End TwoPassCounterexample.

(** ** Dirty propagation *)

Section Dirty.

Variable ImageProcessor_affects : Plug -> list Plug -> list Plug.

Local Abbreviation affects' := (affects ImageProcessor_affects).

(** X1.  What Resample::affects adds to the plugs reported by the base
    class.  The data window of the output and of the horizontal pass
    are added for dataWindowPlug() and for no other input, among them
    debugPlug() and inPlug()->dataWindowPlug(), which computeDataWindow
    reads.  The channel data of the output and of the horizontal pass
    are added for the channel data and the data window of the input,
    the filter, the bounding mode, the components of the filter width
    and the debug mode, and for no other input: dataWindowPlug() is
    tested for in the second condition but never reaches it.  No other
    plug is added, and nothing the base class reports is removed. *)
Theorem affects_reports (input : Plug) (outputs : list Plug) :
  let base := ImageProcessor_affects input outputs in
  (forall image,
     In (OutPlugChild image DataWindowPlug) (affects' input outputs) <->
     In (OutPlugChild image DataWindowPlug) base \/ input = DataWindowIn) /\
  (forall image,
     In (OutPlugChild image ChannelDataPlug) (affects' input outputs) <->
     In (OutPlugChild image ChannelDataPlug) base \/
     In input [InPlugChild ChannelDataPlug; InPlugChild DataWindowPlug; FilterIn;
               BoundingModeIn; FilterWidthChild false; FilterWidthChild true; DebugIn]) /\
  (forall plug,
     In plug (affects' input outputs) ->
     In plug base \/
     exists image, plug = OutPlugChild image DataWindowPlug \/
                   plug = OutPlugChild image ChannelDataPlug) /\
  (exists added, affects' input outputs = base ++ added).
Proof.
  intros base. unfold affects. fold base.
  split; [|split; [|split]].
  - intros image.
    destruct input as [[]|[] []| | | |[]| | |n]; destruct image;
      cbn; rewrite ?in_app_iff; cbn; intuition congruence.
  - intros image.
    destruct input as [[]|[] []| | | |[]| | |n]; destruct image;
      cbn; rewrite ?in_app_iff; cbn; intuition congruence.
  - intros plug.
    destruct input as [[]|[] []| | | |[]| | |n];
      cbn; rewrite ?in_app_iff; cbn; intuition (subst; eauto).
  - destruct input as [[]|[] []| | | |[]| | |n];
      cbn; rewrite <- ?app_assoc; eexists; first [reflexivity | symmetry; apply app_nil_r].
Qed.

End Dirty.

(** ** The data window and its hash *)

Section DataWindowRequests.

Context {F : Type} `{FloatOps F}.

Variable ImageProcessor_hashDataWindow : PlugId -> Context -> MurmurHash F -> MurmurHash F.
Variable AtomicBox2fPlug_hash : Box F -> list (HashItem F).
Variable Box2iPlug_hash : ImagePlug F -> list (HashItem F).

Local Abbreviation hashDataWindow' :=
  (hashDataWindow ImageProcessor_hashDataWindow AtomicBox2fPlug_hash Box2iPlug_hash).

(** X2.  The hash of the data window covers what computeDataWindow reads.
    When the hash of a plug determines its value — plugs with the same
    hash hold the same data window, the destination window appends a
    sequence of fixed length and the input a sequence that is not
    empty — two configurations of the node that give a request the
    same data-window hash compute the same data window for it. *)
Theorem dataWindow_hash_covers_compute (node node' : ResampleNode F) (parent : PlugId)
    (context : Context) (h : MurmurHash F) :
  (forall b b', length (AtomicBox2fPlug_hash b) = length (AtomicBox2fPlug_hash b')) ->
  (forall b b', AtomicBox2fPlug_hash b = AtomicBox2fPlug_hash b' -> b = b') ->
  (forall p p', Box2iPlug_hash p = Box2iPlug_hash p' -> dataWindow p = dataWindow p') ->
  (forall p, Box2iPlug_hash p <> []) ->
  hashDataWindow' node parent context h = hashDataWindow' node' parent context h ->
  computeDataWindow node parent = computeDataWindow node' parent.
Proof.
  intros Hlen Hinj Hin Hne. unfold hashDataWindow, computeDataWindow.
  set (base := ImageProcessor_hashDataWindow parent context h).
  destruct (negb (isOutPlug parent) || (debugPlug node =? HorizontalPass)%Z);
    destruct (negb (isOutPlug parent) || (debugPlug node' =? HorizontalPass)%Z);
    rewrite <- ?app_assoc; intros Heq; apply app_inv_head in Heq.
  - apply app_inj_1 in Heq as [Hd Hi]; [|apply Hlen].
    rewrite (Hinj _ _ Hd), (Hin _ _ Hi). reflexivity.
  - exfalso. apply (Hne (inPlug node)).
    apply (f_equal length) in Heq. rewrite length_app, (Hlen _ (dataWindowPlug node')) in Heq.
    apply nil_length_inv. lia.
  - exfalso. apply (Hne (inPlug node')).
    apply (f_equal length) in Heq. rewrite length_app, (Hlen _ (dataWindowPlug node')) in Heq.
    apply nil_length_inv. lia.
  - rewrite (Hinj _ _ Heq). reflexivity.
Qed.

End DataWindowRequests.

(** ** Which image a tile request reads *)

Section Reads.

Context {F : Type} `{FloatOps F}.
Local Open Scope float_scope.

Variable filterTable : list (FilterDesc F).
Variable Filter2D_create : string -> F -> F -> Filter2D F.
Variable tileSize : Z.

Local Abbreviation createFilter' := (createFilter filterTable Filter2D_create).
Local Abbreviation runChannelData' := (runChannelData filterTable Filter2D_create tileSize).
Local Abbreviation horizontalPassPlug' :=
  (horizontalPassPlug filterTable Filter2D_create tileSize).
Local Abbreviation computeChannelData' :=
  (computeChannelData filterTable Filter2D_create tileSize).
Local Abbreviation ratioOf node :=
  (fst (ratioAndOffset (dataWindowPlug node) (dataWindow (inPlug node)))).
Local Abbreviation offsetOf node :=
  (snd (ratioAndOffset (dataWindowPlug node) (dataWindow (inPlug node)))).

(** A request whose pass set is not Vertical samples the input image. *)
Lemma runChannelData_reads_input (horizontalPass : ImagePlug F) (node : ResampleNode F)
    (channelName : string) (tileOrigin : V2i) (parent : PlugId) (filter : Filter2D F) :
  createFilter' (filterPlug node) (filterWidthPlug node) (ratioOf node) = Ok filter ->
  let passes := requiredPasses (debugPlug node) parent filter in
  passes <> Vertical ->
  runChannelData' horizontalPass node channelName tileOrigin parent
  = Ok (computeTile tileSize filter passes (ratioOf node) (offsetOf node)
          (Sampler_sample tileSize
             {| samplerPlug := inPlug node;
                samplerChannelName := channelName;
                sampleWindow :=
                  inputRegion tileSize tileOrigin passes (ratioOf node) (offsetOf node) filter;
                boundingMode := boundingModePlug node |})
          tileOrigin).
Proof.
  intros Hf passes Hp.
  rewrite (runChannelData_ok _ _ _ _ _ _ _ _ _ Hf). fold passes. unfold samplerFor.
  destruct (Z.eqb_spec passes Vertical) as [E|_]; [contradiction | reflexivity].
Qed.

Lemma runChannelData_throw (horizontalPass : ImagePlug F) (node : ResampleNode F)
    (channelName : string) (tileOrigin : V2i) (parent : PlugId) (what : string) :
  createFilter' (filterPlug node) (filterWidthPlug node) (ratioOf node) = Throw what ->
  runChannelData' horizontalPass node channelName tileOrigin parent = Throw what.
Proof.
  intros Hf. unfold runChannelData.
  destruct (ratioAndOffset _ _) as [ratio offset]. cbn [fst snd] in *.
  rewrite Hf. reflexivity.
Qed.

Lemma requiredPasses_vertical (debug : Z) (parent : PlugId) (filter : Filter2D F) :
  requiredPasses debug parent filter = Vertical ->
  parent = OutPlug /\ debug <> HorizontalPass /\ debug <> SinglePass /\
  separable filter = true.
Proof.
  unfold requiredPasses.
  destruct (Z.eqb_spec debug HorizontalPass); [discriminate|].
  destruct (Z.eqb_spec debug SinglePass); [discriminate|].
  destruct parent; cbn [isOutPlug]; [|discriminate].
  destruct (separable filter); [auto | discriminate].
Qed.

(** X3.  The horizontal-pass raster is read by the vertical pass alone.  A
    tile request for the horizontal-pass plug itself, a request in
    either debug mode and a request whose filter is not separable
    compute the same result whatever image horizontalPassPlug()
    holds: computing the horizontal pass never reads the horizontal
    pass. *)
Theorem horizontal_pass_read_by_vertical_only (horizontalPass horizontalPass' : ImagePlug F)
    (node : ResampleNode F) (channelName : string) (tileOrigin : V2i) (parent : PlugId) :
  parent = HorizontalPassPlug \/
  debugPlug node = HorizontalPass \/
  debugPlug node = SinglePass \/
  (exists filter,
     createFilter' (filterPlug node) (filterWidthPlug node) (ratioOf node) = Ok filter /\
     separable filter = false) ->
  runChannelData' horizontalPass node channelName tileOrigin parent
  = runChannelData' horizontalPass' node channelName tileOrigin parent.
Proof.
  intros Hcase.
  destruct (createFilter' (filterPlug node) (filterWidthPlug node) (ratioOf node))
    as [filter|what] eqn:Hf.
  - assert (Hp : requiredPasses (debugPlug node) parent filter <> Vertical).
    { intros Hv. apply requiredPasses_vertical in Hv as (Hout & Hh & Hs & Hsep).
      destruct Hcase as [Hc|[Hc|[Hc|(filter' & Hf' & Hc)]]].
      - rewrite Hc in Hout. discriminate.
      - contradiction.
      - contradiction.
      - apply Ok_inj in Hf'. subst filter'. rewrite Hc in Hsep. discriminate. }
    rewrite !(runChannelData_reads_input _ _ _ _ _ _ Hf Hp). reflexivity.
  - rewrite !(runChannelData_throw _ _ _ _ _ _ Hf). reflexivity.
Qed.

(** X4.  The HorizontalPass debug mode shows the horizontal pass: in that
    mode the tiles and the data window of the main output are those
    of the horizontal-pass plug of the node in any mode but
    SinglePass. *)
Theorem horizontalPass_debug_shows_horizontal_pass (node : ResampleNode F)
    (channelName : string) (tileOrigin : V2i) :
  debugPlug node <> SinglePass ->
  computeChannelData' (withDebug HorizontalPass node) channelName tileOrigin OutPlug
    = computeChannelData' node channelName tileOrigin HorizontalPassPlug /\
  computeDataWindow (withDebug HorizontalPass node) OutPlug
    = computeDataWindow node HorizontalPassPlug.
Proof.
  intros Hd. split; [|reflexivity].
  unfold computeChannelData.
  destruct (createFilter' (filterPlug node) (filterWidthPlug node) (ratioOf node))
    as [filter|what] eqn:Hf.
  - rewrite (runChannelData_reads_input _ (withDebug HorizontalPass node) _ _ _ filter Hf)
      by discriminate.
    rewrite (runChannelData_reads_input _ node _ _ _ filter Hf)
      by (rewrite (requiredPasses_horizontalPassPlug _ _ Hd); discriminate).
    rewrite (requiredPasses_horizontalPassPlug _ _ Hd). reflexivity.
  - rewrite (runChannelData_throw _ (withDebug HorizontalPass node) _ _ _ _ Hf).
    rewrite (runChannelData_throw _ node _ _ _ _ Hf). reflexivity.
Qed.

End Reads.

(** ** The coordinates passed to the sampler *)

Section Footprint.

Context {F : Type} `{FloatOps F}.
Local Open Scope float_scope.

Variable tileSize : Z.
Variable filter : Filter2D F.
Variables ratio offset : V2 F.
Variable sample : Z -> Z -> F.
Variable tileOrigin : V2i.

Lemma tilePixels_In (ox oy : Z) :
  In (ox, oy) (tilePixels tileSize tileOrigin) -> inTile tileSize tileOrigin ox oy.
Proof.
  unfold tilePixels. intros Hin.
  apply in_flat_map in Hin as (y & Hy & Hin).
  apply in_map_iff in Hin as (x & Heq & Hx). injection Heq as -> ->.
  apply list_elem_of_In, elem_of_seqZ in Hx, Hy. split; lia.
Qed.

Lemma support_In (radius f : Z) : In f (support radius) -> (- radius <= f <= radius)%Z.
Proof.
  unfold support. intros Hin. apply list_elem_of_In, elem_of_seqZ in Hin. lia.
Qed.

Lemma nonZero_In (t : @Tap F) (l : list (@Tap F)) :
  In t (nonZero l) <-> In t l /\ (fst t == f0) = false.
Proof.
  unfold nonZero. rewrite List.filter_In, negb_true_iff. reflexivity.
Qed.

(** The sampler is called at the taps of non-zero weight of the
    pixels of the tile, and nowhere else. *)
Lemma computeTile_sampled_iff (passes : Z) (x y : Z) :
  validPasses passes ->
  In (x, y) (sampled (computeTile tileSize filter passes ratio offset sample tileOrigin)) <->
  exists ox oy w,
    inTile tileSize tileOrigin ox oy /\
    In (w, (x, y)) (tapsOf passes filter ratio offset ox oy) /\
    (w == f0) = false.
Proof.
  intros Hp. split.
  - rewrite computeTile_storeAll by assumption.
    rewrite storeAll_sampled. cbn [sampled emptyTile app].
    intros Hin. apply in_flat_map in Hin as (a & Ha & Hin).
    apply in_map_iff in Ha as ([ox oy] & <- & Hpix). cbn [fst snd] in Hin.
    rewrite accumTaps_taps in Hin.
    apply in_map_iff in Hin as ([w c] & Hc & Ht). cbn [snd] in Hc. subst c.
    apply nonZero_In in Ht as [Ht Hw]. cbn [fst] in Hw.
    exists ox, oy, w. split; [apply tilePixels_In; exact Hpix|]. split; assumption.
  - intros (ox & oy & w & Hin & Ht & Hw).
    apply (computeTile_sampled tileSize filter ratio offset sample tileOrigin passes ox oy
             (w, (x, y)) Hp Hin).
    apply nonZero_In. split; assumption.
Qed.

Lemma tapsHorizontal_In (ox oy x y : Z) (w : F) :
  In (w, (x, y)) (tapsHorizontal filter ratio offset ox oy) ->
  exists fX,
    In fX (support (vx (filterRadiusOf filter ratio))) /\
    w = xfilt filter
          (kernelCoord (vx ratio) fX (fst (floorfrac (pixelCentre ox (vx ratio) (vx offset))))) /\
    x = (snd (floorfrac (pixelCentre ox (vx ratio) (vx offset))) + fX)%Z /\
    y = oy.
Proof.
  unfold tapsHorizontal, floorfrac. cbv zeta. cbn [fst snd]. intros Hin.
  apply in_map_iff in Hin as (fX & Heq & HfX). injection Heq as <- <- <-.
  exists fX. auto.
Qed.

Lemma tapsVertical_In (ox oy x y : Z) (w : F) :
  In (w, (x, y)) (tapsVertical filter ratio offset ox oy) ->
  exists fY,
    In fY (support (vy (filterRadiusOf filter ratio))) /\
    w = yfilt filter
          (kernelCoord (vy ratio) fY (fst (floorfrac (pixelCentre oy (vy ratio) (vy offset))))) /\
    x = ox /\
    y = (snd (floorfrac (pixelCentre oy (vy ratio) (vy offset))) + fY)%Z.
Proof.
  unfold tapsVertical, floorfrac. cbv zeta. cbn [fst snd]. intros Hin.
  apply in_map_iff in Hin as (fY & Heq & HfY). injection Heq as <- <- <-.
  exists fY. auto.
Qed.

Lemma tapsBoth_In (ox oy x y : Z) (w : F) :
  In (w, (x, y)) (tapsBoth filter ratio offset ox oy) ->
  exists fX fY,
    In fX (support (vx (filterRadiusOf filter ratio))) /\
    In fY (support (vy (filterRadiusOf filter ratio))) /\
    w = apply2D filter
          (kernelCoord (vx ratio) fX (fst (floorfrac (pixelCentre ox (vx ratio) (vx offset)))))
          (kernelCoord (vy ratio) fY (fst (floorfrac (pixelCentre oy (vy ratio) (vy offset))))) /\
    x = (snd (floorfrac (pixelCentre ox (vx ratio) (vx offset))) + fX)%Z /\
    y = (snd (floorfrac (pixelCentre oy (vy ratio) (vy offset))) + fY)%Z.
Proof.
  unfold tapsBoth, floorfrac. cbv zeta. cbn [fst snd]. intros Hin.
  apply in_flat_map in Hin as (fY & HfY & Hin).
  apply in_map_iff in Hin as (fX & Heq & HfX). injection Heq as <- <- <-.
  exists fX, fY. auto.
Qed.

Lemma tapsHorizontal_tap (ox oy fX : Z) :
  In fX (support (vx (filterRadiusOf filter ratio))) ->
  In (xfilt filter
        (kernelCoord (vx ratio) fX (fst (floorfrac (pixelCentre ox (vx ratio) (vx offset))))),
      ((snd (floorfrac (pixelCentre ox (vx ratio) (vx offset))) + fX)%Z, oy))
     (tapsHorizontal filter ratio offset ox oy).
Proof.
  intros HfX. unfold tapsHorizontal, floorfrac. cbv zeta. cbn [fst snd].
  apply in_map_iff. exists fX. split; [reflexivity | exact HfX].
Qed.

Lemma tapsVertical_tap (ox oy fY : Z) :
  In fY (support (vy (filterRadiusOf filter ratio))) ->
  In (yfilt filter
        (kernelCoord (vy ratio) fY (fst (floorfrac (pixelCentre oy (vy ratio) (vy offset))))),
      (ox, (snd (floorfrac (pixelCentre oy (vy ratio) (vy offset))) + fY)%Z))
     (tapsVertical filter ratio offset ox oy).
Proof.
  intros HfY. unfold tapsVertical, floorfrac. cbv zeta. cbn [fst snd].
  apply in_map_iff. exists fY. split; [reflexivity | exact HfY].
Qed.

Lemma tapsBoth_tap (ox oy fX fY : Z) :
  In fX (support (vx (filterRadiusOf filter ratio))) ->
  In fY (support (vy (filterRadiusOf filter ratio))) ->
  In (apply2D filter
        (kernelCoord (vx ratio) fX (fst (floorfrac (pixelCentre ox (vx ratio) (vx offset)))))
        (kernelCoord (vy ratio) fY (fst (floorfrac (pixelCentre oy (vy ratio) (vy offset))))),
      ((snd (floorfrac (pixelCentre ox (vx ratio) (vx offset))) + fX)%Z,
       (snd (floorfrac (pixelCentre oy (vy ratio) (vy offset))) + fY)%Z))
     (tapsBoth filter ratio offset ox oy).
Proof.
  intros HfX HfY. unfold tapsBoth, floorfrac. cbv zeta. cbn [fst snd].
  apply in_flat_map. exists fY. split; [exact HfY|].
  apply in_map_iff. exists fX. split; [reflexivity | exact HfX].
Qed.

Lemma support_zero (radius : Z) : (0 <= radius)%Z -> In 0%Z (support radius).
Proof.
  intros Hr. unfold support. apply list_elem_of_In, elem_of_seqZ. lia.
Qed.

(** The taps of a pixel lie within the filter radius of the source
    pixel under it on the axes being filtered, and on the pixel's own
    row or column on the other axis. *)
Lemma tapsOf_within_radius (passes : Z) (ox oy x y : Z) (w : F) :
  In (w, (x, y)) (tapsOf passes filter ratio offset ox oy) ->
  (if hasPass passes Horizontal then
     let iXI := floorInt (pixelCentre ox (vx ratio) (vx offset)) in
     iXI - vx (filterRadiusOf filter ratio) <= x <= iXI + vx (filterRadiusOf filter ratio)
   else x = ox)%Z /\
  (if hasPass passes Vertical then
     let iYI := floorInt (pixelCentre oy (vy ratio) (vy offset)) in
     iYI - vy (filterRadiusOf filter ratio) <= y <= iYI + vy (filterRadiusOf filter ratio)
   else y = oy)%Z.
Proof.
  unfold tapsOf.
  destruct (Z.eqb_spec passes Both) as [->|_];
    [|destruct (Z.eqb_spec passes Horizontal) as [->|_];
      [|destruct (Z.eqb_spec passes Vertical) as [->|_]]].
  - change (hasPass Both Horizontal) with true. change (hasPass Both Vertical) with true.
    unfold tapsBoth, floorfrac. cbv zeta. intros Hin.
    apply in_flat_map in Hin as (fY & HfY & Hin).
    apply in_map_iff in Hin as (fX & Heq & HfX). injection Heq as _ <- <-.
    apply support_In in HfX, HfY. split; lia.
  - change (hasPass Horizontal Horizontal) with true.
    change (hasPass Horizontal Vertical) with false.
    unfold tapsHorizontal, floorfrac. cbv zeta. intros Hin.
    apply in_map_iff in Hin as (fX & Heq & HfX). injection Heq as _ <- <-.
    apply support_In in HfX. split; [lia | reflexivity].
  - change (hasPass Vertical Horizontal) with false.
    change (hasPass Vertical Vertical) with true.
    unfold tapsVertical, floorfrac. cbv zeta. intros Hin.
    apply in_map_iff in Hin as (fY & Heq & HfY). injection Heq as _ <- <-.
    apply support_In in HfY. split; [reflexivity | lia].
  - intros [].
Qed.

(** A pixel of the tile is written exactly when its weight sum is
    strictly positive. *)
Lemma computeTile_written_iff (passes : Z) (ox oy : Z) :
  validPasses passes ->
  inTile tileSize tileOrigin ox oy ->
  bufferIndex tileSize tileOrigin ox oy
    ∈ written (computeTile tileSize filter passes ratio offset sample tileOrigin) <->
  (f0 <? weightSum (nonZero (tapsOf passes filter ratio offset ox oy))) = true.
Proof.
  intros Hp Hin. rewrite computeTile_storeAll by assumption.
  rewrite storeAll_written. cbn [emptyTile written pIt app].
  rewrite writtenFrom_elem. cbn [Nat.add].
  set (accs := map _ (tilePixels tileSize tileOrigin)).
  assert (Hlk : accs !! bufferIndex tileSize tileOrigin ox oy
                = Some (accumTaps sample (tapsOf passes filter ratio offset ox oy) accum0)).
  { unfold accs. rewrite list_lookup_fmap, tilePixels_lookup by assumption. reflexivity. }
  split.
  - intros (k & a & Hidx & Hk & Hw). subst k.
    rewrite Hlk in Hk. injection Hk as <-.
    rewrite accumTaps_totalW in Hw. exact Hw.
  - intros Hw. eexists _, _. split; [reflexivity|]. split; [exact Hlk|].
    rewrite accumTaps_totalW. exact Hw.
Qed.

(** X5.  The footprint of a tile.  The sampler is called at the kernel
    taps of non-zero weight of the pixels of the tile and nowhere
    else — a tap of weight zero is skipped — so that each coordinate
    passed to it lies, on an axis that is filtered, within the filter
    radius ceil( width / ( 2 ratio ) ) of the source pixel under a
    pixel of the tile, and on an axis that is not filtered, on the row
    or column of that pixel itself. *)
Theorem sampled_within_filter_radius (passes : Z) (x y : Z) :
  validPasses passes ->
  (In (x, y) (sampled (computeTile tileSize filter passes ratio offset sample tileOrigin)) <->
   exists ox oy w,
     inTile tileSize tileOrigin ox oy /\
     In (w, (x, y)) (tapsOf passes filter ratio offset ox oy) /\
     (w == f0) = false) /\
  (In (x, y) (sampled (computeTile tileSize filter passes ratio offset sample tileOrigin)) ->
   exists ox oy,
     inTile tileSize tileOrigin ox oy /\
     (if hasPass passes Horizontal then
        let iXI := floorInt (pixelCentre ox (vx ratio) (vx offset)) in
        iXI - vx (filterRadiusOf filter ratio) <= x <= iXI + vx (filterRadiusOf filter ratio)
      else x = ox)%Z /\
     (if hasPass passes Vertical then
        let iYI := floorInt (pixelCentre oy (vy ratio) (vy offset)) in
        iYI - vy (filterRadiusOf filter ratio) <= y <= iYI + vy (filterRadiusOf filter ratio)
      else y = oy)%Z).
Proof.
  intros Hp. split; [exact (computeTile_sampled_iff passes x y Hp)|].
  intros Hin. apply (computeTile_sampled_iff passes x y Hp) in Hin.
  destruct Hin as (ox & oy & w & Htile & Ht & _).
  exists ox, oy. split; [exact Htile|].
  exact (tapsOf_within_radius passes ox oy x y w Ht).
Qed.

(** X6.  A pixel does not depend on the tiling.  The value computed for
    a destination pixel is the same in every tile that holds the
    pixel, whatever the origin and the size of the tile. *)
Theorem pixel_independent_of_tiling (passes : Z) (tileSize' : Z) (tileOrigin' : V2i)
    (ox oy : Z) :
  validPasses passes ->
  inTile tileSize tileOrigin ox oy ->
  inTile tileSize' tileOrigin' ox oy ->
  data (computeTile tileSize filter passes ratio offset sample tileOrigin)
    !! bufferIndex tileSize tileOrigin ox oy
  = data (computeTile tileSize' filter passes ratio offset sample tileOrigin')
      !! bufferIndex tileSize' tileOrigin' ox oy.
Proof.
  intros Hp Hin Hin'.
  rewrite (computeTile_lookup tileSize filter ratio offset sample tileOrigin passes ox oy
             Hp Hin).
  rewrite (computeTile_lookup tileSize' filter ratio offset sample tileOrigin' passes ox oy
             Hp Hin').
  reflexivity.
Qed.

End Footprint.

(** ** Exact arithmetic: the geometry of a resample *)

Section ExactGeometry.

Import Exact.
Local Open Scope Qc_scope.

Ltac exact_ops :=
  cbn [fadd fsub fmul fdiv f0 f1 f2 fhalf feqb fltb ofInt floorInt ceilInt truncInt
       pixelCentre Exact.ops] in *;
  unfold Exact.ofQ, Tap in *.

(** *** From [Qc] to [Q] *)

Lemma this_plus (a b : Qc) : (this (a + b) == this a + this b)%Q.
Proof. unfold Qcplus. cbn. apply Qred_correct. Qed.

Lemma this_mult (a b : Qc) : (this (a * b) == this a * this b)%Q.
Proof. unfold Qcmult. cbn. apply Qred_correct. Qed.

Lemma this_opp (a : Qc) : (this (- a) == - this a)%Q.
Proof. unfold Qcopp. cbn. apply Qred_correct. Qed.

Lemma this_minus (a b : Qc) : (this (a - b) == this a - this b)%Q.
Proof. unfold Qcminus. rewrite this_plus, this_opp. reflexivity. Qed.

Lemma this_inv (a : Qc) : (this (/ a) == / this a)%Q.
Proof. unfold Qcinv. cbn. apply Qred_correct. Qed.

Lemma this_div (a b : Qc) : (this (a / b) == this a / this b)%Q.
Proof. unfold Qcdiv. rewrite this_mult, this_inv. reflexivity. Qed.

Lemma this_Q2Qc (q : Q) : (this (Q2Qc q) == q)%Q.
Proof. cbn. apply Qred_correct. Qed.

(** Rewrites the value of a [Qc] expression into a [Q] expression
    over the values of its atoms. *)
Ltac to_Q :=
  unfold Qcle, Qclt in *;
  repeat first
    [ rewrite this_plus | rewrite this_minus | rewrite this_mult | rewrite this_div
    | rewrite this_opp | rewrite this_inv | rewrite this_Q2Qc ].

Ltac to_Q_in H :=
  unfold Qcle, Qclt in H;
  repeat first
    [ rewrite this_plus in H | rewrite this_minus in H | rewrite this_mult in H
    | rewrite this_div in H | rewrite this_opp in H | rewrite this_inv in H
    | rewrite this_Q2Qc in H ].

(** *** floor and ceil *)

Lemma floorInt_ofInt (z : Z) : floorInt (ofInt z : Qc) = z.
Proof. exact_ops. rewrite this_Q2Qc. apply Qfloor_Z. Qed.

Lemma ceilInt_ofInt (z : Z) : ceilInt (ofInt z : Qc) = z.
Proof. exact_ops. rewrite this_Q2Qc. apply Qceiling_Z. Qed.

Lemma Qfloor_unique (q : Q) (z : Z) :
  (inject_Z z <= q)%Q -> (q < inject_Z (z + 1))%Q -> Qfloor q = z.
Proof.
  intros Hlo Hhi.
  pose proof (Qfloor_le q) as Hfl. pose proof (Qlt_floor q) as Hfh.
  assert (H1 : (inject_Z z < inject_Z (Qfloor q + 1))%Q) by (eapply Qle_lt_trans; eassumption).
  assert (H2 : (inject_Z (Qfloor q) < inject_Z (z + 1))%Q) by (eapply Qle_lt_trans; eassumption).
  rewrite <- Zlt_Qlt in H1, H2. lia.
Qed.

Lemma floor_le_int (q : Q) (z : Z) : (q <= inject_Z z)%Q -> (Qfloor q <= z)%Z.
Proof.
  intros Hq. rewrite Zle_Qle. eapply Qle_trans; [apply Qfloor_le | exact Hq].
Qed.

Lemma int_le_ceiling (q : Q) (z : Z) : (inject_Z z <= q)%Q -> (z <= Qceiling q)%Z.
Proof.
  intros Hq. rewrite Zle_Qle. eapply Qle_trans; [exact Hq | apply Qle_ceiling].
Qed.

(** *** box2fToBox2i *)

(** X7.  box2fToBox2i rounds outward, to the nearest integers: the minimum
    goes down by less than one and the maximum up by less than one,
    so that the integer box is the smallest one that holds the box. *)
Theorem box2fToBox2i_rounds_outward (b : Box Qc) :
  let r := box2fToBox2i b in
  (ofInt (vx (bmin r)) <= vx (bmin b) /\ vx (bmin b) < ofInt (vx (bmin r) + 1)) /\
  (ofInt (vy (bmin r)) <= vy (bmin b) /\ vy (bmin b) < ofInt (vy (bmin r) + 1)) /\
  (ofInt (vx (bmax r) - 1) < vx (bmax b) /\ vx (bmax b) <= ofInt (vx (bmax r))) /\
  (ofInt (vy (bmax r) - 1) < vy (bmax b) /\ vy (bmax b) <= ofInt (vy (bmax r))).
Proof.
  intros r. subst r. unfold box2fToBox2i. cbn [bmin bmax vx vy]. exact_ops.
  unfold Qcle, Qclt. rewrite !this_Q2Qc.
  repeat split;
    first [ apply Qfloor_le | apply Qlt_floor | apply Qceiling_lt | apply Qle_ceiling ].
Qed.

(** *** inputRegion *)

(** X8.  On an axis whose pass is not active, the input region is the
    extent of the tile bound, from the tile origin to the tile origin
    plus the tile size. *)
Theorem inputRegion_unfiltered_axis (tileSize : Z) (tileOrigin : V2i)
    (ratio offset : V2 Qc) (filter : Filter2D Qc) :
  let vertical := inputRegion tileSize tileOrigin Vertical ratio offset filter in
  let horizontal := inputRegion tileSize tileOrigin Horizontal ratio offset filter in
  (vx (bmin vertical) = vx tileOrigin /\
   vx (bmax vertical) = (vx tileOrigin + tileSize)%Z) /\
  (vy (bmin horizontal) = vy tileOrigin /\
   vy (bmax horizontal) = (vy tileOrigin + tileSize)%Z).
Proof.
  unfold inputRegion.
  change (hasPass Horizontal Horizontal) with true.
  change (hasPass Horizontal Vertical) with false.
  change (hasPass Vertical Horizontal) with false.
  change (hasPass Vertical Vertical) with true.
  cbn [box2fToBox2i bmin bmax vx vy].
  rewrite !floorInt_ofInt, !ceilInt_ofInt. auto.
Qed.

Lemma half_Q (x : Q) : (x / 2 == x * (1 # 2))%Q.
Proof. field. Qed.

Lemma axis_lower_Q (R O W P Q1 TX OX I F : Q) :
  (1 <= R -> 1 <= W -> R * P == OX + (1 # 2) -> R * Q1 == TX -> TX <= OX ->
   - (W / 2) <= R * (F - (P + O - I - (1 # 2))) ->
   Q1 + O - W / 2 <= I + F)%Q.
Proof.
  rewrite !half_Q. intros HR HW HP HQ Hox Ha.
  apply (Qmult_le_l _ _ R); [lra|]. nra.
Qed.

Lemma axis_upper_Q (R O W P Q2 TXT OX I F : Q) :
  (1 <= R -> 1 <= W -> R * P == OX + (1 # 2) -> R * Q2 == TXT -> OX + 1 <= TXT ->
   R * (F - (P + O - I - (1 # 2))) <= W / 2 ->
   I + F <= Q2 + O + W / 2)%Q.
Proof.
  rewrite !half_Q. intros HR HW HP HQ Hox Ha.
  apply (Qmult_le_l _ _ R); [lra|]. nra.
Qed.

(** On an axis with ratio and kernel width at least one, a tap whose
    kernel coordinate is within half the kernel width of zero reads a
    source coordinate of the input region. *)
Lemma axis_covered (r o w : Qc) (T tx ox f : Z) :
  1 <= r -> 1 <= w -> (tx <= ox < tx + T)%Z ->
  - (w / 2) <= kernelCoord r f (fst (floorfrac (pixelCentre ox r o))) <= w / 2 ->
  (floorInt (fsub (fadd (fdiv (ofInt tx) r) o) (fdiv w f2))
   <= snd (floorfrac (pixelCentre ox r o)) + f
   <= ceilInt (fadd (fadd (fdiv (ofInt (tx + T)) r) o) (fdiv w f2)))%Z.
Proof.
  intros Hr Hw Hox [Hlo Hhi].
  unfold kernelCoord, floorfrac in *. cbn [fst snd] in *. exact_ops.
  set (i := Qfloor (this ((Q2Qc (inject_Z ox) + Q2Qc (1 # 2)) / r + o))) in *.
  to_Q_in Hlo. to_Q_in Hhi. to_Q_in Hr. to_Q_in Hw.
  change (this 1) with 1%Q in *.
  assert (HR : ~ (this r == 0)%Q) by lra.
  split.
  - apply floor_le_int. to_Q. rewrite inject_Z_plus.
    apply (axis_lower_Q (this r) (this o) (this w)
             ((inject_Z ox + (1 # 2)) / this r) (inject_Z tx / this r)
             (inject_Z tx) (inject_Z ox)); try assumption.
    + field. exact HR.
    + field. exact HR.
    + rewrite <- Zle_Qle. lia.
  - apply int_le_ceiling. to_Q. rewrite inject_Z_plus.
    apply (axis_upper_Q (this r) (this o) (this w)
             ((inject_Z ox + (1 # 2)) / this r) (inject_Z (tx + T) / this r)
             (inject_Z (tx + T)) (inject_Z ox)); try assumption.
    + field. exact HR.
    + field. exact HR.
    + change 1%Q with (inject_Z 1). rewrite <- inject_Z_plus, <- Zle_Qle. lia.
Qed.

Lemma exact_nonzero (w : Qc) : feqb w f0 = false -> w <> 0.
Proof.
  intros Hw E. apply not_true_iff_false in Hw. apply Hw. apply exact_eqb. exact E.
Qed.

(** X9.  When the image is not reduced, the input region holds what is
    sampled.  In exact arithmetic, for ratios of at least one, a
    kernel at least one pixel wide and high, and weights that vanish
    outside the kernel's support, every coordinate passed to the
    sampler while a tile is computed lies in the region inputRegion
    returns for the tile. *)
Theorem inputRegion_covers_enlargement (tileSize : Z) (filter : Filter2D Qc) (passes : Z)
    (ratio offset : V2 Qc) (sample : Z -> Z -> Qc) (tileOrigin : V2i) (x y : Z) :
  validPasses passes ->
  1 <= vx ratio -> 1 <= vy ratio ->
  1 <= width filter -> 1 <= height filter ->
  SupportedKernel filter ->
  In (x, y) (sampled (computeTile tileSize filter passes ratio offset sample tileOrigin)) ->
  contains (inputRegion tileSize tileOrigin passes ratio offset filter) x y = true.
Proof.
  intros Hp Hrx Hry Hw Hh (Hx & Hy & Hxy) Hin.
  apply (computeTile_sampled_iff tileSize filter ratio offset sample tileOrigin passes x y Hp)
    in Hin.
  destruct Hin as (ox & oy & w & [Hox Hoy] & Ht & Hnz).
  apply exact_nonzero in Hnz.
  apply contains_spec. unfold inputRegion, tapsOf in *.
  destruct Hp as [-> | [-> | ->]].
  - change (hasPass Both Horizontal) with true. change (hasPass Both Vertical) with true.
    change (Both =? Both)%Z with true in Ht. cbn iota in Ht.
    cbn [box2fToBox2i bmin bmax vx vy].
    apply tapsBoth_In in Ht as (fX & fY & _ & _ & -> & -> & ->).
    apply Hxy in Hnz as [Ha Hb].
    split.
    + exact (axis_covered _ _ _ tileSize _ _ _ Hrx Hw Hox Ha).
    + exact (axis_covered _ _ _ tileSize _ _ _ Hry Hh Hoy Hb).
  - change (hasPass Horizontal Horizontal) with true.
    change (hasPass Horizontal Vertical) with false.
    change (Horizontal =? Both)%Z with false in Ht.
    change (Horizontal =? Horizontal)%Z with true in Ht. cbn iota in Ht.
    cbn [box2fToBox2i bmin bmax vx vy].
    apply tapsHorizontal_In in Ht as (fX & _ & -> & -> & ->).
    apply Hx in Hnz.
    split.
    + exact (axis_covered _ _ _ tileSize _ _ _ Hrx Hw Hox Hnz).
    + rewrite floorInt_ofInt, ceilInt_ofInt. lia.
  - change (hasPass Vertical Horizontal) with false.
    change (hasPass Vertical Vertical) with true.
    change (Vertical =? Both)%Z with false in Ht.
    change (Vertical =? Horizontal)%Z with false in Ht.
    change (Vertical =? Vertical)%Z with true in Ht. cbn iota in Ht.
    cbn [box2fToBox2i bmin bmax vx vy].
    apply tapsVertical_In in Ht as (fY & _ & -> & -> & ->).
    apply Hy in Hnz.
    split.
    + rewrite floorInt_ofInt, ceilInt_ofInt. lia.
    + exact (axis_covered _ _ _ tileSize _ _ _ Hry Hh Hoy Hnz).
Qed.

(** *** ratioAndOffset *)

Lemma exact_not_ltb (a b : Qc) : fltb a b = false -> b <= a.
Proof.
  intros Hlt. apply Qcnot_lt_le. intros Hc. apply exact_ltb in Hc. congruence.
Qed.

Lemma ofInt_ltb (a b : Z) : fltb (ofInt a : Qc) (ofInt b) = (a <? b)%Z.
Proof.
  destruct (Z.ltb_spec a b) as [Hlt|Hge].
  - apply exact_ltb. exact_ops. to_Q. rewrite <- Zlt_Qlt. exact Hlt.
  - apply not_true_iff_false. rewrite exact_ltb. apply Qcle_not_lt.
    exact_ops. to_Q. rewrite <- Zle_Qle. exact Hge.
Qed.

Lemma Box2i_size_nonneg (b : Box2i) : (0 <= vx (Box2i_size b) /\ 0 <= vy (Box2i_size b))%Z.
Proof.
  unfold Box2i_size, Box2i_isEmpty.
  destruct (Z.ltb_spec (vx (bmax b)) (vx (bmin b)));
    destruct (Z.ltb_spec (vy (bmax b)) (vy (bmin b))); cbn [orb vx vy]; lia.
Qed.

Lemma Box2f_size_nonneg (b : Box Qc) : 0 <= vx (Box2f_size b) /\ 0 <= vy (Box2f_size b).
Proof.
  unfold Box2f_size, Box2f_isEmpty.
  destruct (fltb (vx (bmax b)) (vx (bmin b))) eqn:Ex;
    [cbn [orb vx vy]; split; apply Qcle_refl|].
  destruct (fltb (vy (bmax b)) (vy (bmin b))) eqn:Ey;
    [cbn [orb vx vy]; split; apply Qcle_refl|].
  apply exact_not_ltb in Ex, Ey. cbn [orb vx vy]. exact_ops.
  to_Q_in Ex. to_Q_in Ey. split; to_Q; change (this 0) with 0%Q; lra.
Qed.

Lemma ratio_axis_positive (d : Qc) (s : Z) :
  0 <= d -> (0 <= s)%Z -> 0 < fdiv (fadd d (ofInt 1)) (ofInt (s + 1)).
Proof.
  intros Hd Hs. exact_ops. to_Q_in Hd. to_Q. change (this 0) with 0%Q in *.
  apply Qlt_shift_div_l.
  - change 0%Q with (inject_Z 0). rewrite <- Zlt_Qlt. lia.
  - change (inject_Z 1) with 1%Q. lra.
Qed.

(** X10.  In exact arithmetic the ratio is strictly positive on both axes,
    whatever the two data windows: the size of a window is never
    negative and one is added to it before the division. *)
Theorem ratio_is_positive (dstDataWindow : Box Qc) (srcDataWindow : Box2i) :
  let ratio := fst (ratioAndOffset dstDataWindow srcDataWindow) in
  0 < vx ratio /\ 0 < vy ratio.
Proof.
  unfold ratioAndOffset. cbn [fst vx vy].
  destruct (Box2f_size_nonneg dstDataWindow) as [Hdx Hdy].
  destruct (Box2i_size_nonneg srcDataWindow) as [Hsx Hsy].
  split; apply ratio_axis_positive; assumption.
Qed.

Lemma truncInt_ofInt (z : Z) : truncInt (ofInt z : Qc) = z.
Proof.
  exact_ops. unfold truncQc.
  pose proof (this_Q2Qc (inject_Z z)) as Heq. unfold Qeq in Heq. cbn [Qnum Qden inject_Z] in Heq.
  rewrite Z.mul_1_r in Heq. rewrite Heq. apply Z.quot_mul. discriminate.
Qed.

Lemma ofInt_minus (a b : Z) : fsub (ofInt a : Qc) (ofInt b) = ofInt (a - b).
Proof.
  exact_ops. apply Qc_is_canon. to_Q. unfold Z.sub. rewrite inject_Z_plus, inject_Z_opp. ring.
Qed.

Lemma ofInt_plus (a b : Z) : fadd (ofInt a : Qc) (ofInt b) = ofInt (a + b).
Proof.
  exact_ops. apply Qc_is_canon. to_Q. rewrite inject_Z_plus. ring.
Qed.

Lemma ofInt_div_same (a : Z) : (0 < a)%Z -> fdiv (ofInt a : Qc) (ofInt a) = 1.
Proof.
  intros Ha. exact_ops. apply Qc_is_canon. to_Q. change (this 1) with 1%Q.
  field. change 0%Q with (inject_Z 0). rewrite inject_Z_injective. lia.
Qed.

Lemma exact_div_1 (a : Qc) : fdiv a 1 = a.
Proof. exact_ops. field. discriminate. Qed.

(** The float box with the integer bounds of a window. *)
Local Abbreviation asBox2f b :=
  (mkBox (mkV2 (ofInt (vx (bmin b)) : Qc) (ofInt (vy (bmin b))))
         (mkV2 (ofInt (vx (bmax b)) : Qc) (ofInt (vy (bmax b))))).

(** X11.  A destination window with integer bounds and the size of the
    source window is mapped by a translation: in exact arithmetic the
    ratio is one on both axes and the offset is the difference of the
    minima of the two windows. *)
Theorem ratioAndOffset_same_size (dst src : Box2i) :
  Box2i_isEmpty dst = false ->
  Box2i_size dst = Box2i_size src ->
  ratioAndOffset (asBox2f dst) src
  = (mkV2 1 1,
     mkV2 (ofInt (vx (bmin src) - vx (bmin dst))) (ofInt (vy (bmin src) - vy (bmin dst)))).
Proof.
  intros Hne Hsize. unfold ratioAndOffset. rewrite <- Hsize.
  unfold Box2f_size, Box2f_isEmpty. cbn [bmin bmax vx vy].
  rewrite !ofInt_ltb.
  unfold Box2i_size. unfold Box2i_isEmpty in Hne |- *. rewrite Hne.
  apply orb_false_iff in Hne as [Hx Hy]. apply Z.ltb_ge in Hx, Hy.
  cbn [vx vy].
  rewrite !ofInt_minus, !ofInt_plus, !ofInt_div_same by lia.
  rewrite !exact_div_1, !truncInt_ofInt. reflexivity.
Qed.

(** *** The filter radius *)

Lemma radius_upper_Q (R W K FRAC F RI : Q) :
  (0 < R -> K * (2 * R) == W -> K <= RI -> FRAC < 1 ->
   R * (F - (FRAC - (1 # 2))) <= W / 2 -> F < RI + 1)%Q.
Proof.
  rewrite !half_Q. intros HR HK HRI Hfrac Ha.
  apply (Qmult_lt_l _ _ R); [exact HR|]. nra.
Qed.

Lemma radius_lower_Q (R W K FRAC F RI : Q) :
  (0 < R -> K * (2 * R) == W -> K <= RI -> 0 <= FRAC ->
   - (W / 2) <= R * (F - (FRAC - (1 # 2))) -> - RI - 1 < F)%Q.
Proof.
  rewrite !half_Q. intros HR HK HRI Hfrac Ha.
  apply (Qmult_lt_l _ _ R); [exact HR|]. nra.
Qed.

Lemma floorfrac_range (a : Qc) : 0 <= fst (floorfrac a) /\ fst (floorfrac a) < 1.
Proof.
  unfold floorfrac. cbn [fst]. exact_ops.
  pose proof (Qfloor_le (this a)) as Hlo. pose proof (Qlt_floor (this a)) as Hhi.
  rewrite inject_Z_plus in Hhi. change (inject_Z 1) with 1%Q in Hhi.
  split; to_Q; change (this 0) with 0%Q; change (this 1) with 1%Q; lra.
Qed.

(** A tap whose kernel coordinate is within half the kernel width of
    zero is one of the taps -radius .. +radius. *)
Lemma radius_covers (r w frac : Qc) (f : Z) :
  0 < r -> 0 <= frac -> frac < 1 ->
  - (w / 2) <= kernelCoord r f frac <= w / 2 ->
  (- ceilInt (fdiv w (fmul f2 r)) <= f <= ceilInt (fdiv w (fmul f2 r)))%Z.
Proof.
  intros Hr Hf0 Hf1 [Hlo Hhi]. unfold kernelCoord in *. exact_ops.
  pose proof (Qle_ceiling (this (w / (Q2Qc 2 * r)))) as Hceil.
  set (radius := Qceiling (this (w / (Q2Qc 2 * r)))) in *.
  to_Q_in Hr. to_Q_in Hf0. to_Q_in Hf1. to_Q_in Hlo. to_Q_in Hhi.
  rewrite this_div, this_mult, this_Q2Qc in Hceil.
  change (this 0) with 0%Q in *. change (this 1) with 1%Q in *. change (this 2) with 2%Q in *.
  assert (HK : (this w / (2 * this r) * (2 * this r) == this w)%Q) by (field; lra).
  pose proof (radius_upper_Q _ _ _ _ _ _ Hr HK Hceil Hf1 Hhi) as Hup.
  pose proof (radius_lower_Q _ _ _ _ _ _ Hr HK Hceil Hf0 Hlo) as Hdown.
  assert (Hup' : (inject_Z f < inject_Z (radius + 1))%Q)
    by (rewrite inject_Z_plus; exact Hup).
  assert (Hdown' : (inject_Z (- radius - 1) < inject_Z f)%Q).
  { unfold Z.sub. rewrite inject_Z_plus, !inject_Z_opp. change (inject_Z 1) with 1%Q.
    unfold Qminus in Hdown. exact Hdown. }
  rewrite <- Zlt_Qlt in Hup', Hdown'. lia.
Qed.

(** *** Linearity *)



(** *** Pixels of a tile *)

Section ExactPixels.

Variable tileSize : Z.
Variable filter : Filter2D Qc.
Variable sample : Z -> Z -> Qc.
Variable tileOrigin : V2i.

Local Abbreviation term := (fun t : Qc * (Z * Z) => fst t * sample t.2.1 t.2.2).


Lemma tapsOf_nonnegative (passes : Z) (ratio offset : V2 Qc) (ox oy : Z) (t : @Tap Qc) :
  NonNegativeKernel filter ->
  In t (tapsOf passes filter ratio offset ox oy) -> 0 <= fst t.
Proof.
  intros (Hx & Hy & Hxy). destruct t as [w [x y]]. cbn [fst]. unfold tapsOf.
  destruct (passes =? Both)%Z;
    [|destruct (passes =? Horizontal)%Z; [|destruct (passes =? Vertical)%Z]].
  - intros Hin. apply tapsBoth_In in Hin as (fX & fY & _ & _ & -> & _). apply Hxy.
  - intros Hin. apply tapsHorizontal_In in Hin as (fX & _ & -> & _). apply Hx.
  - intros Hin. apply tapsVertical_In in Hin as (fY & _ & -> & _). apply Hy.
  - intros [].
Qed.


Lemma total_nonneg {A : Type} (g : A -> Qc) (l : list A) :
  (forall a, In a l -> 0 <= g a) -> 0 <= total g l.
Proof.
  induction l as [|a l IH]; intros Hg; cbn [total]; [apply Qcle_refl|].
  pose proof (Hg a (or_introl eq_refl)) as Ha.
  pose proof (IH (fun b Hb => Hg b (or_intror Hb))) as Hl.
  to_Q_in Ha. to_Q_in Hl. to_Q. change (this 0) with 0%Q in *. lra.
Qed.

Lemma total_pos {A : Type} (g : A -> Qc) (l : list A) (z : A) :
  (forall a, In a l -> 0 <= g a) -> In z l -> 0 < g z -> 0 < total g l.
Proof.
  induction l as [|a l IH]; intros Hg Hin Hz; [destruct Hin|]. cbn [total].
  pose proof (Hg a (or_introl eq_refl)) as Ha.
  pose proof (total_nonneg g l (fun b Hb => Hg b (or_intror Hb))) as Hl.
  destruct Hin as [->|Hin].
  - to_Q_in Hz. to_Q_in Hl. to_Q. change (this 0) with 0%Q in *. lra.
  - pose proof (IH (fun b Hb => Hg b (or_intror Hb)) Hin Hz) as Hpos.
    to_Q_in Ha. to_Q_in Hpos. to_Q. change (this 0) with 0%Q in *. lra.
Qed.

(** The tap at offset zero has its kernel coordinate within half a
    destination pixel of zero. *)
Lemma centre_tap (r frac : Qc) :
  0 < r -> 0 <= frac -> frac < 1 ->
  - (r / 2) <= kernelCoord r 0 frac <= r / 2.
Proof.
  intros Hr Hf0 Hf1. unfold kernelCoord. exact_ops.
  to_Q_in Hr. to_Q_in Hf0. to_Q_in Hf1.
  split; to_Q; change (this 0) with 0%Q in *; change (this 1) with 1%Q in *;
    change (this 2) with 2%Q; change (inject_Z 0) with 0%Q; rewrite !half_Q; nra.
Qed.

Lemma total_only {A : Type} (g : A -> Qc) (l : list A) (z : A) :
  NoDup l -> In z l -> (forall a, In a l -> a <> z -> g a = 0) -> total g l = g z.
Proof.
  intros Hnd. induction Hnd as [|a l Ha Hnd IH]; intros Hin Hg; [destruct Hin|].
  cbn [total]. destruct Hin as [->|Hin].
  - rewrite total_zero; [ring|].
    intros b Hb. apply Hg; [right; exact Hb|].
    intros ->. apply Ha. apply list_elem_of_In. exact Hb.
  - rewrite (Hg a (or_introl eq_refl)).
    + rewrite IH; [ring | exact Hin | intros b Hb; apply Hg; right; exact Hb].
    + intros ->. apply Ha. apply list_elem_of_In. exact Hin.
Qed.

Lemma total_support (g : Z -> Qc) (radius : Z) :
  (0 <= radius)%Z -> (forall n, n <> 0%Z -> g n = 0) -> total g (support radius) = g 0%Z.
Proof.
  intros Hr Hg. apply total_only.
  - apply NoDup_seqZ.
  - apply list_elem_of_In. apply elem_of_seqZ. lia.
  - intros n _ Hn. exact (Hg n Hn).
Qed.

Lemma total_support2 (g : Z -> Z -> Qc) (rx ry : Z) :
  (0 <= rx)%Z -> (0 <= ry)%Z ->
  (forall n m, n <> 0%Z \/ m <> 0%Z -> g n m = 0) ->
  total (fun m => total (fun n => g n m) (support rx)) (support ry) = g 0%Z 0%Z.
Proof.
  intros Hrx Hry Hg. rewrite (total_support _ _ Hry).
  - apply (total_support (fun n => g n 0%Z) _ Hrx). intros n Hn. apply Hg. left. exact Hn.
  - intros m Hm. apply total_zero. intros n _. apply Hg. right. exact Hm.
Qed.

Lemma total_flat_map_map {A B C : Type} (g : C -> Qc) (h : A -> B -> C)
    (la : list A) (lb : list B) :
  total g (flat_map (fun a => map (h a) lb) la)
  = total (fun a => total (fun b => g (h a b)) lb) la.
Proof.
  rewrite total_flat_map. apply total_ext. intros a _. apply total_map.
Qed.

Lemma filterRadius_nonneg (w r : Qc) : 0 <= w -> 0 < r -> (0 <= ceilInt (fdiv w (fmul f2 r)))%Z.
Proof.
  intros Hw Hr. exact_ops. apply int_le_ceiling.
  to_Q_in Hw. to_Q_in Hr. to_Q. change (this 0) with 0%Q in *. change (inject_Z 0) with 0%Q.
  apply Qle_shift_div_l; [nra | lra].
Qed.

(** At ratio one and an integer offset [k], the source position of
    the pixel [o] is the centre of the source pixel [o + k]. *)
Lemma floorfrac_unit (o k : Z) :
  floorfrac (pixelCentre o (1 : Qc) (ofInt k)) = (Q2Qc (1 # 2), (o + k)%Z).
Proof.
  unfold floorfrac. cbv zeta.
  assert (Hfloor : floorInt (pixelCentre o (1 : Qc) (ofInt k)) = (o + k)%Z).
  { exact_ops. apply Qfloor_unique; to_Q; change (this 1) with 1%Q;
      rewrite !inject_Z_plus; change (inject_Z 1) with 1%Q; unfold Qdiv;
      change (/ 1)%Q with 1%Q; lra. }
  rewrite Hfloor. f_equal. exact_ops. apply Qc_is_canon. to_Q. change (this 1) with 1%Q.
  rewrite inject_Z_plus. field.
Qed.

Lemma kernelCoord_unit (f : Z) : kernelCoord (1 : Qc) f (Q2Qc (1 # 2)) = ofInt f.
Proof. unfold kernelCoord. exact_ops. ring. Qed.

Lemma average_single (w s : Qc) : 0 < w -> (if fltb f0 w then w * s / w else 0) = s.
Proof.
  intros Hw. rewrite (proj2 (exact_pos w) Hw).
  apply Qclt_not_eq in Hw. field. congruence.
Qed.

(** X15.  At ratio one an interpolating kernel copies.  In exact
    arithmetic, with a ratio of one on both axes, an integer offset
    and a kernel of non-negative width and height whose weight is
    positive at zero and zero at the other integers, each pixel of a
    tile is the sample at the pixel's position, shifted by the offset
    on the axes that are filtered. *)
Theorem unit_ratio_copies (passes : Z) (shift : V2i) (ox oy : Z) :
  validPasses passes ->
  inTile tileSize tileOrigin ox oy ->
  0 <= width filter -> 0 <= height filter ->
  InterpolatingKernel filter ->
  data (computeTile tileSize filter passes (mkV2 1 1)
          (mkV2 (ofInt (vx shift)) (ofInt (vy shift))) sample tileOrigin)
    !! bufferIndex tileSize tileOrigin ox oy
  = Some (sample (if hasPass passes Horizontal then ox + vx shift else ox)%Z
                 (if hasPass passes Vertical then oy + vy shift else oy)%Z).
Proof.
  intros Hp Hin Hw Hh ((Hx0 & Hx) & (Hy0 & Hy) & (Hxy0 & Hxy)).
  rewrite (computeTile_lookup tileSize filter _ _ sample tileOrigin passes ox oy Hp Hin).
  f_equal. rewrite weightedAverage_total.
  assert (Hrx : (0 <= vx (filterRadiusOf filter (mkV2 1%Qc 1%Qc)))%Z).
  { apply filterRadius_nonneg; [exact Hw | reflexivity]. }
  assert (Hry : (0 <= vy (filterRadiusOf filter (mkV2 1%Qc 1%Qc)))%Z).
  { apply filterRadius_nonneg; [exact Hh | reflexivity]. }
  unfold tapsOf. destruct Hp as [-> | [-> | ->]].
  - change (hasPass Both Horizontal) with true. change (hasPass Both Vertical) with true.
    change (Both =? Both)%Z with true. cbn iota.
    unfold tapsBoth. cbn [vx vy]. rewrite !floorfrac_unit.
    rewrite !total_flat_map_map. cbn [fst snd].
    rewrite !(total_support2 _ _ _ Hrx Hry).
    + rewrite !kernelCoord_unit, !Z.add_0_r. apply average_single. exact Hxy0.
    + intros n m Hnm. rewrite !kernelCoord_unit, (Hxy n m Hnm). ring.
    + intros n m Hnm. rewrite !kernelCoord_unit. exact (Hxy n m Hnm).
  - change (hasPass Horizontal Horizontal) with true.
    change (hasPass Horizontal Vertical) with false.
    change (Horizontal =? Both)%Z with false.
    change (Horizontal =? Horizontal)%Z with true. cbn iota.
    unfold tapsHorizontal. cbn [vx vy]. rewrite !floorfrac_unit.
    rewrite !total_map. cbn [fst snd].
    rewrite !(total_support _ _ Hrx).
    + rewrite !kernelCoord_unit, !Z.add_0_r. apply average_single. exact Hx0.
    + intros n Hn. rewrite !kernelCoord_unit, (Hx n Hn). ring.
    + intros n Hn. rewrite !kernelCoord_unit. exact (Hx n Hn).
  - change (hasPass Vertical Horizontal) with false.
    change (hasPass Vertical Vertical) with true.
    change (Vertical =? Both)%Z with false.
    change (Vertical =? Horizontal)%Z with false.
    change (Vertical =? Vertical)%Z with true. cbn iota.
    unfold tapsVertical. cbn [vx vy]. rewrite !floorfrac_unit.
    rewrite !total_map. cbn [fst snd].
    rewrite !(total_support _ _ Hry).
    + rewrite !kernelCoord_unit, !Z.add_0_r. apply average_single. exact Hy0.
    + intros n Hn. rewrite !kernelCoord_unit, (Hy n Hn). ring.
    + intros n Hn. rewrite !kernelCoord_unit. exact (Hy n Hn).
Qed.

(** X16.  No pixel is left unwritten.  In exact arithmetic, for positive
    ratios and a kernel of non-negative width and height, without
    negative weights and with positive weights up to half a
    destination pixel from zero, every pixel of a tile has a
    positive weight sum and is written. *)
Theorem every_pixel_written (passes : Z) (ratio offset : V2 Qc) (ox oy : Z) :
  validPasses passes ->
  inTile tileSize tileOrigin ox oy ->
  0 < vx ratio -> 0 < vy ratio ->
  0 <= width filter -> 0 <= height filter ->
  NonNegativeKernel filter ->
  PositiveAtCentre filter ratio ->
  bufferIndex tileSize tileOrigin ox oy
    ∈ written (computeTile tileSize filter passes ratio offset sample tileOrigin).
Proof.
  intros Hp Hin Hrx Hry Hw Hh Hk (Hx & Hy & Hxy).
  apply (computeTile_written_iff tileSize filter ratio offset sample tileOrigin passes ox oy
           Hp Hin).
  rewrite weightSum_total. apply exact_pos.
  pose proof (filterRadius_nonneg _ _ Hw Hrx) as HRx.
  pose proof (filterRadius_nonneg _ _ Hh Hry) as HRy.
  destruct (floorfrac_range (pixelCentre ox (vx ratio) (vx offset))) as [Hx0 Hx1].
  destruct (floorfrac_range (pixelCentre oy (vy ratio) (vy offset))) as [Hy0 Hy1].
  pose proof (centre_tap _ _ Hrx Hx0 Hx1) as Ha.
  pose proof (centre_tap _ _ Hry Hy0 Hy1) as Hb.
  assert (Hnn : forall t, In t (tapsOf passes filter ratio offset ox oy) -> 0 <= fst t).
  { intros t Ht. exact (tapsOf_nonnegative passes ratio offset ox oy t Hk Ht). }
  unfold tapsOf in *. destruct Hp as [-> | [-> | ->]].
  - change (Both =? Both)%Z with true in *. cbn iota in *.
    apply (total_pos fst _ _ Hnn
             (tapsBoth_tap filter ratio offset ox oy 0 0
                (support_zero _ HRx) (support_zero _ HRy))).
    cbn [fst]. exact (Hxy _ _ Ha Hb).
  - change (Horizontal =? Both)%Z with false in *.
    change (Horizontal =? Horizontal)%Z with true in *. cbn iota in *.
    apply (total_pos fst _ _ Hnn
             (tapsHorizontal_tap filter ratio offset ox oy 0 (support_zero _ HRx))).
    cbn [fst]. exact (Hx _ Ha).
  - change (Vertical =? Both)%Z with false in *.
    change (Vertical =? Horizontal)%Z with false in *.
    change (Vertical =? Vertical)%Z with true in *. cbn iota in *.
    apply (total_pos fst _ _ Hnn
             (tapsVertical_tap filter ratio offset ox oy 0 (support_zero _ HRy))).
    cbn [fst]. exact (Hy _ Hb).
Qed.

End ExactPixels.

End ExactGeometry.

(** *** Loops over a wider radius *)

Section WiderRadius.

Import Exact.
Local Open Scope Qc_scope.

Lemma fold_left_skip {S A : Type} (f : S -> A -> S) (l : list A) (s : S) :
  (forall a s', In a l -> f s' a = s') -> fold_left f l s = s.
Proof.
  induction l as [|a l IH]; intros Hf; cbn [fold_left]; [reflexivity|].
  rewrite Hf by (left; reflexivity). apply IH. intros b s' Hb. apply Hf. right. exact Hb.
Qed.

(** A loop over -wider .. +wider whose body does nothing outside
    -radius .. +radius is the loop over -radius .. +radius. *)
Lemma forLe_wider {S : Type} (body : Z -> S -> S) (radius wider : Z) (s : S) :
  (radius <= wider)%Z ->
  (forall k s', ~ (- radius <= k <= radius)%Z -> body k s' = s') ->
  forLe (- wider) wider body s = forLe (- radius) radius body s.
Proof.
  intros Hle Hskip. rewrite !forLe_fold. unfold support.
  destruct (Z.lt_ge_cases radius 0) as [Hneg|Hpos].
  - rewrite (seqZ_nil (- radius)) by lia. cbn [fold_left].
    apply fold_left_skip. intros k s' _. apply Hskip. lia.
  - replace (2 * wider + 1)%Z
      with ((wider - radius) + ((2 * radius + 1) + (wider - radius)))%Z by lia.
    rewrite seqZ_app by lia. rewrite (seqZ_app (- wider + (wider - radius))) by lia.
    rewrite !fold_left_app.
    replace (- wider + (wider - radius))%Z with (- radius)%Z by lia.
    rewrite (fold_left_skip _ (seqZ (- wider) _)).
    + apply fold_left_skip. intros k s' Hk. apply Hskip.
      apply list_elem_of_In, elem_of_seqZ in Hk. lia.
    + intros k s' Hk. apply Hskip. apply list_elem_of_In, elem_of_seqZ in Hk. lia.
Qed.

Lemma accumulate_zero (sample : Z -> Z -> Qc) (sx sy : Z) (a : Accum Qc) :
  accumulate sample 0 sx sy a = a.
Proof. reflexivity. Qed.

Variable filter : Filter2D Qc.
Variables ratio offset : V2 Qc.
Variable sample : Z -> Z -> Qc.
Variable wider : V2i.

Hypothesis Hrx : 0 < vx ratio.
Hypothesis Hry : 0 < vy ratio.
Hypothesis Hkernel : SupportedKernel filter.
Hypothesis Hwx : (vx (filterRadiusOf filter ratio) <= vx wider)%Z.
Hypothesis Hwy : (vy (filterRadiusOf filter ratio) <= vy wider)%Z.

Lemma xfilt_outside (frac : Qc) (f : Z) :
  0 <= frac -> frac < 1 ->
  ~ (- vx (filterRadiusOf filter ratio) <= f <= vx (filterRadiusOf filter ratio))%Z ->
  xfilt filter (fmul (vx ratio) (fsub (ofInt f) (fsub frac fhalf))) = 0.
Proof.
  intros H0 H1 Hout. destruct Hkernel as (Hx & _ & _).
  destruct (Qc_eq_dec (xfilt filter (fmul (vx ratio) (fsub (ofInt f) (fsub frac fhalf)))) 0)
    as [E|E]; [exact E|].
  exfalso. apply Hout. apply Hx in E.
  exact (radius_covers _ _ _ _ Hrx H0 H1 E).
Qed.

Lemma yfilt_outside (frac : Qc) (f : Z) :
  0 <= frac -> frac < 1 ->
  ~ (- vy (filterRadiusOf filter ratio) <= f <= vy (filterRadiusOf filter ratio))%Z ->
  yfilt filter (fmul (vy ratio) (fsub (ofInt f) (fsub frac fhalf))) = 0.
Proof.
  intros H0 H1 Hout. destruct Hkernel as (_ & Hy & _).
  destruct (Qc_eq_dec (yfilt filter (fmul (vy ratio) (fsub (ofInt f) (fsub frac fhalf)))) 0)
    as [E|E]; [exact E|].
  exfalso. apply Hout. apply Hy in E.
  exact (radius_covers _ _ _ _ Hry H0 H1 E).
Qed.

Lemma apply2D_outside (fracX fracY : Qc) (fX fY : Z) :
  0 <= fracX -> fracX < 1 -> 0 <= fracY -> fracY < 1 ->
  ~ ((- vx (filterRadiusOf filter ratio) <= fX <= vx (filterRadiusOf filter ratio))%Z /\
     (- vy (filterRadiusOf filter ratio) <= fY <= vy (filterRadiusOf filter ratio))%Z) ->
  apply2D filter (fmul (vx ratio) (fsub (ofInt fX) (fsub fracX fhalf)))
                 (fmul (vy ratio) (fsub (ofInt fY) (fsub fracY fhalf))) = 0.
Proof.
  intros Hx0 Hx1 Hy0 Hy1 Hout. destruct Hkernel as (_ & _ & Hxy).
  destruct (Qc_eq_dec
              (apply2D filter (fmul (vx ratio) (fsub (ofInt fX) (fsub fracX fhalf)))
                              (fmul (vy ratio) (fsub (ofInt fY) (fsub fracY fhalf)))) 0)
    as [E|E]; [exact E|].
  exfalso. apply Hout. apply Hxy in E as [Ha Hb]. split.
  - exact (radius_covers _ _ _ _ Hrx Hx0 Hx1 Ha).
  - exact (radius_covers _ _ _ _ Hry Hy0 Hy1 Hb).
Qed.

Lemma accumHorizontal_wider (iXI : Z) (iXF : Qc) (oPy : Z) :
  0 <= iXF -> iXF < 1 ->
  accumHorizontal filter ratio sample wider iXI iXF oPy
  = accumHorizontal filter ratio sample (filterRadiusOf filter ratio) iXI iXF oPy.
Proof.
  intros H0 H1. unfold accumHorizontal. apply forLe_wider; [exact Hwx|].
  intros k a Hout. cbv beta zeta. rewrite (xfilt_outside iXF k H0 H1 Hout). reflexivity.
Qed.

Lemma accumVertical_wider (iYI : Z) (iYF : Qc) (oPx : Z) :
  0 <= iYF -> iYF < 1 ->
  accumVertical filter ratio sample wider iYI iYF oPx
  = accumVertical filter ratio sample (filterRadiusOf filter ratio) iYI iYF oPx.
Proof.
  intros H0 H1. unfold accumVertical. apply forLe_wider; [exact Hwy|].
  intros k a Hout. cbv beta zeta. rewrite (yfilt_outside iYF k H0 H1 Hout). reflexivity.
Qed.

Lemma accumBoth_wider (iPI : V2i) (iPF : V2 Qc) :
  0 <= vx iPF -> vx iPF < 1 -> 0 <= vy iPF -> vy iPF < 1 ->
  accumBoth filter ratio sample wider iPI iPF
  = accumBoth filter ratio sample (filterRadiusOf filter ratio) iPI iPF.
Proof.
  intros Hx0 Hx1 Hy0 Hy1. unfold accumBoth.
  set (inner := fun (radius : Z) (fPy : Z) (a : Accum Qc) =>
    forLe (- radius) radius (fun fPx a =>
      let w := apply2D filter
                 (fmul (vx ratio) (fsub (ofInt fPx) (fsub (vx iPF) fhalf)))
                 (fmul (vy ratio) (fsub (ofInt fPy) (fsub (vy iPF) fhalf))) in
      accumulate sample w (vx iPI + fPx)%Z (vy iPI + fPy)%Z a) a).
  change (forLe (- vy wider) (vy wider) (inner (vx wider)) accum0
          = forLe (- vy (filterRadiusOf filter ratio)) (vy (filterRadiusOf filter ratio))
              (inner (vx (filterRadiusOf filter ratio))) accum0).
  assert (Hinner : forall fPy a, inner (vx wider) fPy a
                                 = inner (vx (filterRadiusOf filter ratio)) fPy a).
  { intros fPy a. unfold inner. apply forLe_wider; [exact Hwx|].
    intros k a' Hout. cbv beta zeta.
    rewrite (apply2D_outside (vx iPF) (vy iPF) k fPy Hx0 Hx1 Hy0 Hy1) by tauto.
    reflexivity. }
  rewrite (forLe_wider _ _ _ _ Hwy).
  - rewrite !forLe_fold. apply fold_left_pointwise. intros a k. apply Hinner.
  - intros fPy a Hout. rewrite Hinner. unfold inner.
    rewrite forLe_fold. apply fold_left_skip. intros k a' _. cbv beta zeta.
    rewrite (apply2D_outside (vx iPF) (vy iPF) k fPy Hx0 Hx1 Hy0 Hy1) by tauto.
    reflexivity.
Qed.

Lemma loopHorizontal_wider (tileBound : Box2i) (st : TileState Qc) :
  loopHorizontal filter ratio offset sample wider tileBound st
  = loopHorizontal filter ratio offset sample (filterRadiusOf filter ratio) tileBound st.
Proof.
  unfold loopHorizontal. rewrite !forLt_fold. apply fold_left_pointwise. intros st' oPy.
  rewrite !forLt_fold. apply fold_left_pointwise. intros st'' oPx.
  destruct (floorfrac_range (pixelCentre oPx (vx ratio) (vx offset))) as [H0 H1].
  destruct (floorfrac (pixelCentre oPx (vx ratio) (vx offset))) as [iXF iXI].
  cbn [fst] in H0, H1. rewrite (accumHorizontal_wider iXI iXF oPy H0 H1). reflexivity.
Qed.

Lemma loopVertical_wider (tileBound : Box2i) (st : TileState Qc) :
  loopVertical filter ratio offset sample wider tileBound st
  = loopVertical filter ratio offset sample (filterRadiusOf filter ratio) tileBound st.
Proof.
  unfold loopVertical. rewrite !forLt_fold. apply fold_left_pointwise. intros st' oPy.
  destruct (floorfrac_range (pixelCentre oPy (vy ratio) (vy offset))) as [H0 H1].
  destruct (floorfrac (pixelCentre oPy (vy ratio) (vy offset))) as [iYF iYI].
  cbn [fst] in H0, H1.
  rewrite !forLt_fold. apply fold_left_pointwise. intros st'' oPx.
  rewrite (accumVertical_wider iYI iYF oPx H0 H1). reflexivity.
Qed.

Lemma loopBoth_wider (tileBound : Box2i) (st : TileState Qc) :
  loopBoth filter ratio offset sample wider tileBound st
  = loopBoth filter ratio offset sample (filterRadiusOf filter ratio) tileBound st.
Proof.
  unfold loopBoth. rewrite !forLt_fold. apply fold_left_pointwise. intros st' oPy.
  destruct (floorfrac_range (pixelCentre oPy (vy ratio) (vy offset))) as [Hy0 Hy1].
  destruct (floorfrac (pixelCentre oPy (vy ratio) (vy offset))) as [iYF iYI].
  cbn [fst] in Hy0, Hy1.
  rewrite !forLt_fold. apply fold_left_pointwise. intros st'' oPx.
  destruct (floorfrac_range (pixelCentre oPx (vx ratio) (vx offset))) as [Hx0 Hx1].
  destruct (floorfrac (pixelCentre oPx (vx ratio) (vx offset))) as [iXF iXI].
  cbn [fst] in Hx0, Hx1.
  rewrite (accumBoth_wider (mkV2 iXI iYI) (mkV2 iXF iYF) Hx0 Hx1 Hy0 Hy1). reflexivity.
Qed.

End WiderRadius.

Section WiderResult.

Import Exact.

(** X12.  The filter radius loses no weight.  In exact arithmetic,
    for a positive ratio and a kernel whose weights vanish outside
    its support, the tile computeChannelData computes with the filter
    radius ceil( width / ( 2 ratio ) ) is the tile its loops compute
    with any wider radius — the same buffer, iterator, written
    indices and sampled coordinates: every tap the wider inner loops
    add has weight zero and is skipped. *)
Theorem filter_radius_covers_support (tileSize : Z) (filter : Filter2D Qc)
    (ratio offset : V2 Qc) (sample : Z -> Z -> Qc) (tileOrigin : V2i) (wider : V2i) :
  (0 < vx ratio)%Qc -> (0 < vy ratio)%Qc ->
  SupportedKernel filter ->
  (vx (filterRadiusOf filter ratio) <= vx wider)%Z ->
  (vy (filterRadiusOf filter ratio) <= vy wider)%Z ->
  let tileBound :=
    mkBox tileOrigin (mkV2 (vx tileOrigin + tileSize)%Z (vy tileOrigin + tileSize)%Z) in
  computeTile tileSize filter Both ratio offset sample tileOrigin
    = loopBoth filter ratio offset sample wider tileBound (emptyTile tileSize) /\
  computeTile tileSize filter Horizontal ratio offset sample tileOrigin
    = loopHorizontal filter ratio offset sample wider tileBound (emptyTile tileSize) /\
  computeTile tileSize filter Vertical ratio offset sample tileOrigin
    = loopVertical filter ratio offset sample wider tileBound (emptyTile tileSize).
Proof.
  intros Hrx Hry Hk Hwx Hwy tileBound.
  rewrite (loopBoth_wider filter ratio offset sample wider Hrx Hry Hk Hwx Hwy).
  rewrite (loopHorizontal_wider filter ratio offset sample wider Hrx Hk Hwx).
  rewrite (loopVertical_wider filter ratio offset sample wider Hry Hk Hwy).
  repeat split; reflexivity.
Qed.

End WiderResult.

(** ** The box kernel in exact arithmetic *)

Section ExactBox.

Import Exact.
Local Open Scope Qc_scope.

Ltac exact_ops :=
  cbn [fadd fsub fmul fdiv f0 f1 f2 fhalf feqb fltb ofInt floorInt ceilInt truncInt
       pixelCentre Exact.ops] in *;
  unfold Exact.ofQ, Tap in *.

Lemma withinBox_spec (h a : Qc) : withinBox h a = true <-> - h <= a <= h.
Proof.
  unfold withinBox. rewrite negb_true_iff, orb_false_iff. split.
  - intros [Hhi Hlo]. apply exact_not_ltb in Hhi, Hlo. exact_ops.
    unfold Qcle in *. rewrite this_minus in Hlo. rewrite this_opp.
    change (this (Q2Qc 0)) with 0%Q in Hlo. split; lra.
  - intros [Hlo Hhi]. split; apply not_true_iff_false; rewrite exact_ltb; apply Qcle_not_lt.
    + exact Hhi.
    + exact_ops. unfold Qcle in *. rewrite this_minus. rewrite this_opp in Hlo.
      change (this (Q2Qc 0)) with 0%Q. lra.
Qed.

Lemma half_width (w : Qc) : fmul w fhalf = w / 2.
Proof.
  exact_ops. apply Qc_is_canon. rewrite this_mult, this_div, !this_Q2Qc.
  change (this 2) with 2%Q. field.
Qed.

Lemma boxWeight_nonzero (h a : Qc) : boxWeight h a <> 0 -> - h <= a <= h.
Proof.
  unfold boxWeight. destruct (withinBox h a) eqn:Hb.
  - intros _. apply withinBox_spec. exact Hb.
  - intros Hc. exfalso. apply Hc. reflexivity.
Qed.

Lemma FilterBox2D_Supported (name : string) (w h : Qc) :
  SupportedKernel (FilterBox2D name w h).
Proof.
  unfold SupportedKernel, FilterBox2D. cbn [width height xfilt yfilt apply2D].
  rewrite <- !half_width. split; [|split].
  - intros a. apply boxWeight_nonzero.
  - intros b. apply boxWeight_nonzero.
  - intros a b.
    destruct (withinBox (fmul w fhalf) a) eqn:Ha;
      destruct (withinBox (fmul h fhalf) b) eqn:Hb; cbn [andb];
      try (intros Hc; exfalso; apply Hc; reflexivity).
    intros _. split; apply withinBox_spec; assumption.
Qed.

Lemma FilterBox2D_NonNegative (name : string) (w h : Qc) :
  NonNegativeKernel (FilterBox2D name w h).
Proof.
  unfold NonNegativeKernel, FilterBox2D, boxWeight. cbn [xfilt yfilt apply2D].
  split; [|split]; intros;
    match goal with |- context [if ?c then _ else _] => destruct c end;
    vm_compute; discriminate.
Qed.

Lemma boxWeight_positive (h a : Qc) : - h <= a <= h -> 0 < boxWeight h a.
Proof.
  intros Ha. unfold boxWeight. rewrite (proj2 (withinBox_spec h a) Ha). reflexivity.
Qed.

(** A box kernel at least as wide and high as the ratio. *)
Lemma FilterBox2D_PositiveAtCentre (name : string) (w h : Qc) (ratio : V2 Qc) :
  vx ratio <= w -> vy ratio <= h -> PositiveAtCentre (FilterBox2D name w h) ratio.
Proof.
  intros Hw Hh.
  assert (Hwide : forall (r s a : Qc), r <= s -> - (r / 2) <= a <= r / 2 ->
                    - (fmul s fhalf) <= a <= fmul s fhalf).
  { intros r s a Hrs [Hlo Hhi]. rewrite half_width. unfold Qcle in *.
    rewrite this_opp, this_div in *. change (this 2) with 2%Q in *.
    rewrite !half_Q in *. split; lra. }
  unfold PositiveAtCentre, FilterBox2D. cbn [xfilt yfilt apply2D]. split; [|split].
  - intros a Ha. apply boxWeight_positive. exact (Hwide _ _ _ Hw Ha).
  - intros b Hb. apply boxWeight_positive. exact (Hwide _ _ _ Hh Hb).
  - intros a b Ha Hb.
    rewrite (proj2 (withinBox_spec _ a) (Hwide _ _ _ Hw Ha)).
    rewrite (proj2 (withinBox_spec _ b) (Hwide _ _ _ Hh Hb)). reflexivity.
Qed.

Lemma withinBox_half_int (n : Z) :
  n <> 0%Z -> withinBox (fmul (Rational.q 1) fhalf) (ofInt n) = false.
Proof.
  intros Hn. apply not_true_iff_false. rewrite withinBox_spec. intros [Hlo Hhi].
  apply Hn. exact_ops. unfold Qcle in *.
  rewrite this_opp, this_mult, !this_Q2Qc in Hlo. rewrite this_mult, !this_Q2Qc in Hhi.
  unfold Rational.q in *. rewrite this_Q2Qc in Hlo, Hhi.
  unfold Qle in Hlo, Hhi. cbn in Hlo, Hhi. lia.
Qed.

Lemma FilterBox2D_Interpolating (name : string) :
  InterpolatingKernel (FilterBox2D name (Rational.q 1) (Rational.q 1)).
Proof.
  unfold InterpolatingKernel, FilterBox2D, boxWeight. cbn [xfilt yfilt apply2D].
  split; [|split]; split.
  - reflexivity.
  - intros n Hn. rewrite (withinBox_half_int n Hn). reflexivity.
  - reflexivity.
  - intros n Hn. rewrite (withinBox_half_int n Hn). reflexivity.
  - reflexivity.
  - intros n m [Hn|Hm].
    + rewrite (withinBox_half_int n Hn). reflexivity.
    + rewrite (withinBox_half_int m Hm), andb_false_r. reflexivity.
Qed.

End ExactBox.

(** ** The theorems at a small tile, in exact arithmetic *)

Section SmallCases.

Import Exact Small.
Local Open Scope string_scope.

(** Two configurations that differ in the filter give the main
    output the same data-window hash, and the same data window. *)
Lemma dataWindow_hash_covers_compute_witness :
  computeDataWindow (node "box" Off) OutPlug = computeDataWindow (node "triangle" Off) OutPlug.
Proof.
  apply (dataWindow_hash_covers_compute baseHash boxHash windowHash
           (node "box" Off) (node "triangle" Off) OutPlug
           {| tileOriginContext := origin; channelNameContext := "R" |} []).
  - intros b b'. reflexivity.
  - intros [[a b] [c d]] [[a' b'] [c' d']]. unfold boxHash. cbn [bmin bmax vx vy].
    intros E. injection E as -> -> -> ->. reflexivity.
  - intros p p' E. unfold windowHash in E. injection E as E. exact E.
  - intros p. discriminate.
  - reflexivity.
Defined.

(** The horizontal pass of the small node, whatever image the
    horizontal-pass plug holds. *)
Lemma horizontal_pass_read_by_vertical_only_witness :
  runChannelData boxTable FilterBox2D tile (inPlug (node "box" Off)) (node "box" Off)
    "R" origin HorizontalPassPlug
  = runChannelData boxTable FilterBox2D tile
      (horizontalPassPlug boxTable FilterBox2D tile (node "box" Off)) (node "box" Off)
      "R" origin HorizontalPassPlug.
Proof.
  apply (horizontal_pass_read_by_vertical_only boxTable FilterBox2D tile).
  left. reflexivity.
Defined.

(** The small node in the HorizontalPass debug mode. *)
Lemma horizontalPass_debug_shows_horizontal_pass_witness :
  computeChannelData boxTable FilterBox2D tile (withDebug HorizontalPass (node "box" Off))
    "R" origin OutPlug
  = computeChannelData boxTable FilterBox2D tile (node "box" Off) "R" origin
      HorizontalPassPlug /\
  computeDataWindow (withDebug HorizontalPass (node "box" Off)) OutPlug
  = computeDataWindow (node "box" Off) HorizontalPassPlug.
Proof.
  apply (horizontalPass_debug_shows_horizontal_pass boxTable FilterBox2D tile
           (node "box" Off) "R" origin).
  vm_compute. discriminate.
Defined.

(** The horizontal pass at ratio 2 reads the source pixel (0, 1). *)
Lemma sampled_within_filter_radius_witness :
  exists ox oy,
    inTile tile origin ox oy /\
    (let iXI := floorInt (pixelCentre ox (vx double) (vx zero)) in
     iXI - vx (filterRadiusOf kernel double) <= 0 <= iXI + vx (filterRadiusOf kernel double)) /\
    1 = oy.
Proof.
  refine (proj2 (sampled_within_filter_radius tile kernel double zero corner origin
                   Horizontal 0 1 _) _).
  - right. left. reflexivity.
  - vm_compute. repeat ((left; reflexivity) || right).
Defined.

(** At ratio 2 the source pixel (0, 0), which the single pass reads,
    lies in the input region of the tile. *)
Lemma inputRegion_covers_enlargement_witness :
  contains (inputRegion tile origin Both double zero kernel) 0 0 = true.
Proof.
  apply (inputRegion_covers_enlargement tile kernel Both double zero corner origin 0 0).
  - left. reflexivity.
  - vm_compute. discriminate.
  - vm_compute. discriminate.
  - vm_compute. discriminate.
  - vm_compute. discriminate.
  - apply FilterBox2D_Supported.
  - vm_compute. repeat ((left; reflexivity) || right).
Defined.


(** A 4 × 4 window at (0, 0) resampled from a 4 × 4 window at
    (10, 20). *)
Lemma ratioAndOffset_same_size_witness :
  ratioAndOffset
    (mkBox (mkV2 (ofInt 0) (ofInt 0)) (mkV2 (ofInt 3) (ofInt 3)) : Box Qc)
    (Float32.window 10 20 13 23)
  = (mkV2 (Rational.q 1) (Rational.q 1), mkV2 (ofInt 10) (ofInt 20)).
Proof.
  apply (ratioAndOffset_same_size (Float32.window 0 0 3 3) (Float32.window 10 20 13 23)).
  - reflexivity.
  - reflexivity.
Defined.

(** The single pass at ratio one with the offset (3, -1). *)
Lemma unit_ratio_copies_witness :
  data (computeTile tile kernel Both unit (mkV2 (ofInt 3) (ofInt (-1))) corner origin)
    !! bufferIndex tile origin 1 0
  = Some (corner 4 (-1)).
Proof.
  apply (unit_ratio_copies tile kernel corner origin Both (mkV2 3 (-1)) 1 0).
  - left. reflexivity.
  - unfold inTile, tile, origin. cbn. lia.
  - vm_compute. discriminate.
  - vm_compute. discriminate.
  - apply FilterBox2D_Interpolating.
Defined.

(** X12 at the small tile: the box kernel at ratio 2 has the filter
    radius 1, and the single pass with the radius 3 computes the same
    tile. *)
Lemma filter_radius_covers_support_witness :
  computeTile tile kernel Both double zero corner origin
  = loopBoth kernel double zero corner (mkV2 3 3)
      (mkBox origin (mkV2 (vx origin + tile) (vy origin + tile))) (emptyTile tile).
Proof.
  refine (proj1 (filter_radius_covers_support tile kernel double zero corner origin
                   (mkV2 3 3) _ _ _ _ _)).
  - reflexivity.
  - reflexivity.
  - apply FilterBox2D_Supported.
  - vm_compute. discriminate.
  - vm_compute. discriminate.
Defined.

(** The pixel (1, 1) of the small tile is written by the single
    pass at ratio one. *)
Lemma every_pixel_written_witness :
  bufferIndex tile origin 1 1
    ∈ written (computeTile tile kernel Both unit zero corner origin).
Proof.
  apply (every_pixel_written tile kernel corner origin Both unit zero 1 1).
  - left. reflexivity.
  - unfold inTile, tile, origin. cbn. lia.
  - reflexivity.
  - reflexivity.
  - vm_compute. discriminate.
  - vm_compute. discriminate.
  - apply FilterBox2D_NonNegative.
  - apply FilterBox2D_PositiveAtCentre; vm_compute; discriminate.
Defined.

(** The pixel (1, 1) in the tile of size 2 and in a tile of size 3. *)
Lemma pixel_independent_of_tiling_witness :
  data (computeTile tile kernel Horizontal double zero corner origin)
    !! bufferIndex tile origin 1 1
  = data (computeTile 3 kernel Horizontal double zero corner origin)
      !! bufferIndex 3 origin 1 1.
Proof.
  apply (pixel_independent_of_tiling tile kernel double zero corner origin Horizontal
           3 origin 1 1).
  - right. left. reflexivity.
  - unfold inTile, tile, origin. cbn. lia.
  - unfold inTile, origin. cbn. lia.
Defined.


End SmallCases.

(** ** The tile origin in the hash *)

Section TileOriginHash.

Context {F : Type} `{FloatOps F}.

Variable filterTable : list (FilterDesc F).
Variable Filter2D_create : string -> F -> F -> Filter2D F.
Variable tileSize : Z.
Variable ImageProcessor_hashChannelData :
  PlugId -> Context -> MurmurHash F -> MurmurHash F.
Variable Sampler_hash : Sampler F -> list (HashItem F).

Local Abbreviation hashChannelData' :=
  (hashChannelData filterTable Filter2D_create tileSize
     ImageProcessor_hashChannelData Sampler_hash).

(** The tile origin is the last value appended. *)
Lemma hashChannelData_last (node : ResampleNode F) (parent : PlugId) (context : Context)
    (h r : MurmurHash F) :
  hashChannelData' node parent context h = Ok r ->
  exists front, r = front ++ [HV2i (tileOriginContext context)].
Proof.
  unfold hashChannelData. destruct (ratioAndOffset _ _) as [ratio offset].
  destruct (createFilter _ _ _ _ _) as [filter|what]; cbn [bind]; [|discriminate].
  intros E. apply Ok_inj in E. subst r. unfold append. eexists. reflexivity.
Qed.

(** X17.  Each tile has a hash of its own.  Two tile requests with
    different tile origins never append the same sequence of values,
    whatever the nodes, the plugs, the channels and the hashes they
    start from: the tile origin is appended last. *)
Theorem tile_origin_distinguishes_hashes (node node' : ResampleNode F)
    (parent parent' : PlugId) (context context' : Context) (h h' : MurmurHash F) :
  tileOriginContext context <> tileOriginContext context' ->
  match hashChannelData' node parent context h,
        hashChannelData' node' parent' context' h' with
  | Ok r, Ok r' => r <> r'
  | _, _ => True
  end.
Proof.
  intros Hne.
  destruct (hashChannelData' node parent context h) as [r|] eqn:E; [|exact I].
  destruct (hashChannelData' node' parent' context' h') as [r'|] eqn:E'; [|exact I].
  apply hashChannelData_last in E as [front ->].
  apply hashChannelData_last in E' as [front' ->].
  intros Heq. apply app_inj_tail in Heq as [_ Heq]. apply Hne. congruence.
Qed.

End TileOriginHash.

(** ** Exact arithmetic: where the destination minimum is mapped *)

Section ExactAlignment.

Import Exact.
Local Open Scope Qc_scope.

Ltac exact_ops :=
  cbn [fadd fsub fmul fdiv f0 f1 f2 fhalf feqb fltb ofInt floorInt ceilInt truncInt
       pixelCentre Exact.ops] in *;
  unfold Exact.ofQ, Tap in *.

(** Truncation toward zero moves a value by less than one. *)
Lemma truncInt_range (a : Qc) :
  (inject_Z (truncInt a) - 1 < this a /\ this a < inject_Z (truncInt a) + 1)%Q.
Proof.
  exact_ops. unfold truncQc. destruct (this a) as [n d]. cbn [Qnum Qden].
  pose proof (Z.quot_rem' n (Zpos d)) as Hqr.
  pose proof (Z.rem_bound_abs n (Zpos d) ltac:(discriminate)) as Hrem.
  set (t := Z.quot n (Zpos d)) in *. set (r := Z.rem n (Zpos d)) in *.
  unfold Qlt, Qminus, Qplus, Qopp, inject_Z. cbn [Qnum Qden].
  rewrite !Pos.mul_1_l, !Z.mul_1_r. split; nia.
Qed.

Lemma axis_aligned (d r : Qc) (smin : Z) :
  fsub (ofInt smin) f1 < fadd (fdiv d r) (ofInt (smin - truncInt (fdiv d r)))
  /\ fadd (fdiv d r) (ofInt (smin - truncInt (fdiv d r))) < fadd (ofInt smin) f1.
Proof.
  pose proof (truncInt_range (fdiv d r)) as [H0 H1].
  set (t := truncInt (fdiv d r)) in *. exact_ops.
  set (q := d / r) in *.
  unfold Qclt. rewrite this_minus, !this_plus, !this_Q2Qc.
  unfold Z.sub. rewrite inject_Z_plus, inject_Z_opp.
  split; lra.
Qed.

(** X18.  The minimum of the destination window is mapped to the
    minimum of the source window, up to less than one source pixel.
    In exact arithmetic the ratio and the offset send the destination
    minimum, on each axis, to a source coordinate that differs from
    the source minimum by less than one. *)
Theorem offset_aligns_minima (dstDataWindow : Box Qc) (srcDataWindow : Box2i) :
  let ratio := fst (ratioAndOffset dstDataWindow srcDataWindow) in
  let offset := snd (ratioAndOffset dstDataWindow srcDataWindow) in
  (ofInt (vx (bmin srcDataWindow)) - 1
     < vx (bmin dstDataWindow) / vx ratio + vx offset
     < ofInt (vx (bmin srcDataWindow)) + 1) /\
  (ofInt (vy (bmin srcDataWindow)) - 1
     < vy (bmin dstDataWindow) / vy ratio + vy offset
     < ofInt (vy (bmin srcDataWindow)) + 1).
Proof.
  unfold ratioAndOffset. cbn [fst snd vx vy]. split; apply axis_aligned.
Qed.

End ExactAlignment.

(** ** The tile origin in the hash, at a concrete node *)

Section TileOriginCases.

Import Binary32 Float32.
Local Open Scope string_scope.

(** The tiles at (0, 0) and (64, 0) of the quarter-size node. *)
Lemma tile_origin_distinguishes_hashes_witness :
  match hashChannelData boxTable FilterBox2D tile baseHash windowHash quarterNode OutPlug
          (request 0 0 "R") [],
        hashChannelData boxTable FilterBox2D tile baseHash windowHash quarterNode OutPlug
          (request 64 0 "R") [] with
  | Ok r, Ok r' => r <> r'
  | _, _ => True
  end.
Proof.
  apply (tile_origin_distinguishes_hashes boxTable FilterBox2D tile baseHash windowHash
           quarterNode quarterNode OutPlug OutPlug (request 0 0 "R") (request 64 0 "R") [] []).
  cbn. discriminate.
Defined.

End TileOriginCases.
